(** * Private-key callback example server (tls/server-tls-pkcallback.c)

    A shallow embedding of the key loader ([load_file], [load_key_file]),
    of the ECC sign callback ([myEccSign]) and of the accept loop of [main],
    over an explicit model of the C heap, of the file system and of the
    calls into wolfSSL/wolfCrypt, followed by the properties of the
    pending/retry state machine and of the key-material life cycle.

    Conventions of the model:
    - the program is compiled with [HAVE_PK_CALLBACKS]; whether it is
      compiled with [WOLFSSL_ASYNC_CRYPT] is a parameter;
    - [int] and [word32] have 32 bits, [long] and [size_t] 64 bits;
    - the context pointer handed to the callback is not [NULL];
    - the files do not change during a call; a read that does not
      deliver all the bytes is a failed [fread];
    - wolfSSL and wolfCrypt are parameters: their functions, their error
      codes and their key and session types. *)

From Stdlib Require Import Init.Byte.
From stdpp Require Import base numbers list list_numbers option strings gmap fin_maps.

#[local] Open Scope Z_scope.

(* ===================================================================== *)
(** * The environment the C code runs in                                 *)
(* ===================================================================== *)

(** Pointers are addresses; [NULL] is address 0. *)
Abbreviation ptr := Z (only parsing).
Definition NULL : ptr := 0.

(** A file as the stdio calls used here see it: a length ([fseek]/[ftell]),
    the byte at each offset, and whether reading it back succeeds ([fread]
    may fail on an I/O error although the file could be opened). *)
Record File := {
  f_len     : N;
  f_byte    : Z -> byte;
  f_read_ok : bool
}.

(** The first [n] bytes of a file, and all of its bytes. *)
Definition file_prefix (f : File) (n : Z) : list byte := f_byte f <$> seqZ 0 n.
Definition file_contents (f : File) : list byte := file_prefix f (Z.of_N (f_len f)).

(** A live heap block: the size asked of [malloc] and the bytes written
    into it so far. *)
Record Block := {
  b_size : Z;
  b_data : list byte
}.

(** Calls into wolfSSL/wolfCrypt, with the handles and return codes that
    matter to the properties below.  [CallInitRng] (creating a random
    generator) is part of the vocabulary although this program never
    emits it. *)
Inductive LibCall :=
| CallKeyPemToDer (ret : Z)
| CallEccInit (ret : Z)
| CallEccPrivateKeyDecode (ret : Z)
| CallGetRNG (ssl rng : ptr)
| CallEccSignHash (rng : ptr) (ret : Z)
| CallEccFree
| CallInitRng.

(** Observable events, in program order. *)
Inductive Event :=
| EvPrintf (msg : string)
| EvFopen (path : string) (ok : bool)
| EvFread (n : Z) (ok : bool)
| EvFclose
| EvMalloc (n : Z) (p : ptr)
| EvFree (p : ptr)
| EvLib (c : LibCall).

(** The world: the file system, the heap of live [malloc] blocks, the
    allocator's next fresh address, which of the successive [malloc] calls
    succeed, and the trace of events so far. *)
Record World := {
  fs        : gmap string File;
  heap      : gmap Z Block;
  next_addr : positive;
  malloc_ok : nat -> bool;
  n_malloc  : nat;
  trace     : list Event
}.

(** Undefined behaviour of the C heap, at which execution stops. *)
Inductive Fault :=
| InvalidFree (p : ptr)
| InvalidRead (p : ptr)
| InvalidWrite (p : ptr).

Inductive Result (A : Type) :=
| Ok (a : A) (w : World)
| Crash (f : Fault) (w : World).
Arguments Ok {A} a w.
Arguments Crash {A} f w.

(** The monad of C statements: state passing over the world, stopping at
    a fault. *)
Definition M (A : Type) : Type := World -> Result A.

Definition ret {A} (a : A) : M A := fun w => Ok a w.

Definition bind {A B} (m : M A) (k : A -> M B) : M B :=
  fun w => match m w with
           | Ok a w' => k a w'
           | Crash f w' => Crash f w'
           end.

Declare Scope c_scope.
Delimit Scope c_scope with C.
Notation "'let*' x ':=' m 'in' k" := (bind m (fun x => k))
  (at level 100, x pattern, m at next level, right associativity) : c_scope.
Notation "m ;;; k" := (bind m (fun _ => k))
  (at level 100, right associativity) : c_scope.
#[local] Open Scope c_scope.

Definition set_trace (t : list Event) (w : World) : World :=
  {| fs := fs w; heap := heap w; next_addr := next_addr w;
     malloc_ok := malloc_ok w; n_malloc := n_malloc w; trace := t |}.

Definition set_heap (h : gmap Z Block) (w : World) : World :=
  {| fs := fs w; heap := h; next_addr := next_addr w;
     malloc_ok := malloc_ok w; n_malloc := n_malloc w; trace := trace w |}.

Definition emit (e : Event) : M unit :=
  fun w => Ok tt (set_trace (trace w ++ [e]) w).

Definition printf (msg : string) : M unit := emit (EvPrintf msg).

Definition lib (c : LibCall) : M unit := emit (EvLib c).

(** [fopen(path, "rb")]: the file, or [None] when it cannot be opened. *)
Definition fopen (path : string) : M (option File) :=
  fun w => let r := fs w !! path in
           Ok r (set_trace (trace w ++ [EvFopen path (bool_decide (is_Some r))]) w).

(** [fseek(f, 0, SEEK_END); ftell(f)]: the length of the file, as a
    [long] (64 bits; file lengths are below 2^63). *)
Definition ftell (f : File) : Z := Z.of_N (f_len f).

(** The conversion to [int] (32 bits, two's complement). *)
Definition to_int (z : Z) : Z := (z + 2 ^ 31) `mod` 2 ^ 32 - 2 ^ 31.

Definition fclose : M unit := emit EvFclose.

(** [malloc(n)]: a fresh block at a non-[NULL] address, or [NULL] when
    this allocation fails. *)
Definition malloc (n : Z) : M ptr :=
  fun w =>
    if malloc_ok w (n_malloc w) then
      let p := Z.pos (next_addr w) in
      Ok p {| fs := fs w;
              heap := <[p := {| b_size := n; b_data := [] |}]> (heap w);
              next_addr := (next_addr w + Z.to_pos n)%positive;
              malloc_ok := malloc_ok w;
              n_malloc := S (n_malloc w);
              trace := trace w ++ [EvMalloc n p] |}
    else
      Ok NULL {| fs := fs w; heap := heap w; next_addr := next_addr w;
                 malloc_ok := malloc_ok w;
                 n_malloc := S (n_malloc w);
                 trace := trace w ++ [EvMalloc n NULL] |}.

(** [free(p)]: nothing for [NULL], releases a live block, and is
    undefined on any other pointer (not from [malloc], or already freed). *)
Definition free (p : ptr) : M unit :=
  fun w =>
    let w1 := set_trace (trace w ++ [EvFree p]) w in
    if p =? NULL then Ok tt w1
    else match heap w !! p with
         | Some _ => Ok tt (set_heap (delete p (heap w)) w1)
         | None => Crash (InvalidFree p) w1
         end.

(** The bytes of a live block. *)
Definition load_block (p : ptr) : M (list byte) :=
  fun w => match heap w !! p with
           | Some b => Ok (b_data b) w
           | None => Crash (InvalidRead p) w
           end.

(** Overwrite the bytes of a live block. *)
Definition store_block (p : ptr) (d : list byte) : M unit :=
  fun w => match heap w !! p with
           | Some b => Ok tt (set_heap (<[p := {| b_size := b_size b; b_data := d |}]> (heap w)) w)
           | None => Crash (InvalidWrite p) w
           end.

(** [fread(p, n, 1, f)] from the start of the file: one item of [n] bytes;
    the number of items read is 1 when all [n] bytes arrive and 0
    otherwise. *)
Definition fread (p : ptr) (n : Z) (f : File) : M Z :=
  if f_read_ok f && (n <=? ftell f) then
    store_block p (file_prefix f n) ;;;
    emit (EvFread n true) ;;;
    ret 1
  else
    emit (EvFread n false) ;;;
    ret 0.

(** The world a run ends in. *)
Definition final {A} (r : Result A) : World :=
  match r with Ok _ w => w | Crash _ w => w end.

(** The pointers passed to [free] in a trace, in order. *)
Definition frees (t : list Event) : list ptr :=
  omap (fun e => match e with EvFree p => Some p | _ => None end) t.

(** The library calls of a trace, in order. *)
Definition lib_calls (t : list Event) : list LibCall :=
  omap (fun e => match e with EvLib c => Some c | _ => None end) t.

(** Whether an event touches the file system. *)
Definition is_file_access (e : Event) : bool :=
  match e with
  | EvFopen _ _ | EvFread _ _ | EvFclose => true
  | _ => false
  end.

(** Whether an event is a call into the cryptographic library. *)
Definition is_crypto (e : Event) : bool :=
  match e with EvLib _ => true | _ => false end.

(* ===================================================================== *)
(** * wolfSSL / wolfCrypt as the program sees them                       *)
(* ===================================================================== *)

(** The error codes of <wolfssl/wolfcrypt/error-crypt.h> used by the
    program.  The header is not part of the example; the codes are
    parameters. *)
Class ErrorCodes := {
  BAD_FUNC_ARG   : Z;
  BAD_PATH_ERROR : Z;
  MEMORY_E       : Z;
  BUFFER_E       : Z;
  WC_PENDING_E   : Z
}.

(** What the program relies on: every code is negative (so none is the
    success value 0) and they are pairwise distinct and differ from the
    plain -1 of a failed read. *)
Definition error_codes_ok (E : ErrorCodes) : Prop :=
  Forall (fun c => c < 0) [BAD_FUNC_ARG; BAD_PATH_ERROR; MEMORY_E; BUFFER_E; WC_PENDING_E]
  /\ NoDup [-1; BAD_FUNC_ARG; BAD_PATH_ERROR; MEMORY_E; BUFFER_E; WC_PENDING_E].

(** The values in wolfSSL's header. *)
Definition wolfssl_codes : ErrorCodes :=
  {| BAD_FUNC_ARG := -173; BAD_PATH_ERROR := -244; MEMORY_E := -125;
     BUFFER_E := -132; WC_PENDING_E := -108 |}.

(** The wolfCrypt and wolfSSL functions the callback calls, over the
    library's [ecc_key] type.  Buffers are passed as their bytes.
    - [wc_KeyPemToDer pem pemSz buffSz]: the return code (DER length, or
      a negative error) and the bytes left in the output buffer;
    - [wc_ecc_init key], [wc_EccPrivateKeyDecode input idx key inSz]:
      the return code and the key object afterwards;
    - [wc_ecc_sign_hash in inSz out outSz rng key]: the return code, the
      output buffer and [*outSz] afterwards;
    - [wc_ecc_free key]: the key object afterwards;
    - [wolfSSL_GetRNG ssl]: the random generator of the session. *)
Class WolfCrypt (ecc_key : Type) := {
  wc_KeyPemToDer : list byte -> Z -> Z -> Z * list byte;
  wc_ecc_init : ecc_key -> Z * ecc_key;
  wc_EccPrivateKeyDecode : list byte -> Z -> ecc_key -> Z -> Z * ecc_key;
  wc_ecc_sign_hash : list byte -> Z -> list byte -> Z -> ptr -> ecc_key -> Z * list byte * Z;
  wc_ecc_free : ecc_key -> ecc_key;
  wolfSSL_GetRNG : ptr -> ptr
}.

(** The conversion to [word32]. *)
Definition to_word32 (z : Z) : Z := z `mod` 2 ^ 32.

(* ===================================================================== *)
(** * The program                                                        *)
(* ===================================================================== *)

Section Program.

Context {E : ErrorCodes}.
Context {ecc_key : Type} {L : WolfCrypt ecc_key}.

(** Whether the program is compiled with [WOLFSSL_ASYNC_CRYPT]. *)
Variable WOLFSSL_ASYNC_CRYPT : bool.

(** [typedef struct { const char* keyFile; ecc_key key; int state; } PkCbInfo;]
    A [NULL] file name is [None]. *)
Record PkCbInfo := {
  keyFile : option string;
  key     : ecc_key;
  state   : Z
}.

(** [load_file(fname, buf, bufLen)].  An out-parameter is [None] when the
    pointer passed is [NULL] and otherwise holds the value it points to;
    the result is the return code with [*buf] and [*bufLen] afterwards. *)
Definition load_file (fname : option string) (buf : option ptr) (bufLen : option Z)
  : M (Z * option ptr * option Z) :=
  match fname, buf, bufLen with
  | Some path, Some _, Some _ =>
      (* set defaults: *buf = NULL; *bufLen = 0 *)
      let* lFile := fopen path in
      match lFile with
      | None =>
          printf "Error loading %s" ;;;
          ret (BAD_PATH_ERROR, Some NULL, Some 0)
      | Some f =>
          let fileSz := to_int (ftell f) in
          let* r := (if 0 <? fileSz then
                  let* p := malloc fileSz in
                  if p =? NULL then
                    printf "Error allocating %lu bytes" ;;;
                    ret (MEMORY_E, Some NULL, Some fileSz)
                  else
                    let* readLen := fread p fileSz f in
                    ret (if 0 <? readLen then 0 else -1, Some p, Some fileSz)
                else
                  ret (BUFFER_E, Some NULL, Some 0)) in
          fclose ;;;
          ret r
      end
  | _, _, _ => ret (BAD_FUNC_ARG, buf, bufLen)
  end.

(** [load_key_file(fname, derBuf, derLen)], called with non-[NULL]
    out-parameters: [derBuf] and [derLen] are the values of [*derBuf] and
    [*derLen] on entry, the result carries them on exit. *)
Definition load_key_file (fname : option string) (derBuf : ptr) (derLen : Z)
  : M (Z * ptr * Z) :=
  let* (r, buf, bufLen) := load_file fname (Some NULL) (Some 0) in
  let buf := default NULL buf in
  let bufLen := default 0 bufLen in
  if negb (r =? 0) then ret (r, derBuf, derLen)
  else
    let* d := malloc bufLen in
    if d =? NULL then
      free buf ;;;
      ret (MEMORY_E, d, derLen)
    else
      let* pem := load_block buf in
      let '(r, der) := wc_KeyPemToDer pem (to_word32 bufLen) (to_word32 bufLen) in
      store_block d der ;;;
      lib (CallKeyPemToDer r) ;;;
      if r <? 0 then
        free buf ;;;
        free d ;;;
        ret (r, d, derLen)
      else
        free buf ;;;
        ret (0, d, to_word32 r).

(** The result of the callback: return code, output buffer, [*outSz]
    and the context afterwards. *)
Definition SignResult : Type := Z * list byte * Z * PkCbInfo.

(** [myEccSign(ssl, in, inSz, out, outSz, key, keySz, ctx)]: [ssl] and
    [key] are the pointers handed over by the engine, [out] and [outSz]
    the output buffer and [*outSz] on entry, [ctx] the [PkCbInfo] the
    context pointer refers to. *)
Definition myEccSign (ssl : ptr) (input : list byte) (inSz : Z)
    (out : list byte) (outSz : Z) (key_ : ptr) (keySz : Z) (cbInfo : PkCbInfo)
  : M SignResult :=
  printf "PK ECC Sign: inSz %u, keySz %u" ;;;
  if WOLFSSL_ASYNC_CRYPT && (state cbInfo =? 0) then
    printf "PK ECC Sign: Async Simulate" ;;;
    ret (WC_PENDING_E, out, outSz,
         {| keyFile := keyFile cbInfo; key := key cbInfo; state := state cbInfo + 1 |})
  else
    let* (r, keyBuf, keySz) := load_key_file (keyFile cbInfo) key_ keySz in
    let* (r, out, outSz, k) :=
      (if r =? 0 then
         let '(r, k) := wc_ecc_init (key cbInfo) in
         lib (CallEccInit r) ;;;
         if r =? 0 then
           let* der := load_block keyBuf in
           let '(r, k) := wc_EccPrivateKeyDecode der 0 k keySz in
           lib (CallEccPrivateKeyDecode r) ;;;
           let* (r, out, outSz) :=
             (if r =? 0 then
                let rng := wolfSSL_GetRNG ssl in
                lib (CallGetRNG ssl rng) ;;;
                printf "PK ECC Sign: Curve ID %d" ;;;
                let '(r, out, outSz) := wc_ecc_sign_hash input inSz out outSz rng k in
                lib (CallEccSignHash rng r) ;;;
                ret (r, out, outSz)
              else ret (r, out, outSz)) in
           lib CallEccFree ;;;
           ret (r, out, outSz, wc_ecc_free k)
         else ret (r, out, outSz, k)
       else ret (r, out, outSz, key cbInfo)) in
    free keyBuf ;;;
    let st := if WOLFSSL_ASYNC_CRYPT then 0 else state cbInfo in
    printf "PK ECC Sign: ret %d outSz %u" ;;;
    ret (r, out, outSz, {| keyFile := keyFile cbInfo; key := k; state := st |}).

End Program.

Arguments keyFile {ecc_key} _.
Arguments key {ecc_key} _.
Arguments state {ecc_key} _.

(* ===================================================================== *)
(** * The accept loop of [main]                                          *)
(* ===================================================================== *)

(** [#define KEY_FILE "../certs/ecc-key.pem"] (with [USE_ECDHE_ECDSA]). *)
Definition KEY_FILE : string := "../certs/ecc-key.pem".

(** [const char* reply = "I hear ya fa shizzle!\n"]: 22 characters. *)
Definition reply_len : Z := 22.

(** What [main] does that the properties below speak of, by connection
    (numbered in the order they are accepted). *)
Inductive MainEvent :=
| MCtxInit (ctx : ptr)
| MAccepted (conn : nat) (fd : Z)
| MNew (conn : nat) (ssl : ptr)
| MSetEccSignCtx (conn : nat) (ssl : ptr) (ctx : ptr)
| MHandshake (conn : nat) (ret err : Z)
| MFree (conn : nat) (ssl : ptr).

(** How the loop of [main] ends: at the [exit:] label with a return
    value, blocked in [accept()] for a next client, or still retrying a
    handshake when the fuel of the model runs out. *)
Inductive Exit :=
| Exited (ret : Z)
| Waiting
| Retrying.

Section Server.

Context {E : ErrorCodes}.
Context {ecc_key : Type}.

(** The state of a [WOLFSSL] object inside the engine. *)
Variable Session : Type.

(** [wolfSSL_accept(ssl)] on a session and the [PkCbInfo] attached to it
    with [wolfSSL_SetEccSignCtx]: the engine may run the sign callback on
    that context, so both can change. *)
Variable wolfSSL_accept : Session * PkCbInfo (ecc_key := ecc_key) -> Z * (Session * PkCbInfo (ecc_key := ecc_key)).

(** [wolfSSL_get_error(ssl, ret)]. *)
Variable wolfSSL_get_error : Session -> Z -> Z.

(** [WOLFSSL_SUCCESS], from <wolfssl/ssl.h>. *)
Variable WOLFSSL_SUCCESS : Z.

(** [&myCtx], and the all-zero [ecc_key] that [memset] leaves in it. *)
Variable myCtx_addr : ptr.
Variable zero_key : ecc_key.

(** [do { ret = wolfSSL_accept(ssl); err = wolfSSL_get_error(ssl, ret); }
     while (err == WC_PENDING_E);]
    The result is [ret], [err] and the session when the loop is left,
    [None] when it is still running after [fuel] rounds. *)
Fixpoint accept_loop (fuel : nat) (s : Session * PkCbInfo)
  : option (Z * Z * (Session * PkCbInfo)) :=
  match fuel with
  | O => None
  | S fuel' =>
      let '(ret, s') := wolfSSL_accept s in
      let err := wolfSSL_get_error (fst s') ret in
      if err =? WC_PENDING_E then accept_loop fuel' s'
      else Some (ret, err, s')
  end.

(** The loop followed by [if (ret != WOLFSSL_SUCCESS) goto exit;]:
    [inl (ret, err)] when the connection is given up, [inr] the
    established session otherwise. *)
Definition establish (fuel : nat) (s : Session * PkCbInfo)
  : option (Z * Z + Session * PkCbInfo) :=
  match accept_loop fuel s with
  | None => None
  | Some (ret, err, s') =>
      Some (if negb (ret =? WOLFSSL_SUCCESS) then inl (ret, err) else inr s')
  end.

(** The session after [n] calls of [wolfSSL_accept], and the outcome of
    call number [n] (counting from 0). *)
Fixpoint session_after (n : nat) (s : Session * PkCbInfo) : Session * PkCbInfo :=
  match n with
  | O => s
  | S n' => snd (wolfSSL_accept (session_after n' s))
  end.

Definition attempt (n : nat) (s : Session * PkCbInfo) : Z * Z * (Session * PkCbInfo) :=
  let '(ret, s') := wolfSSL_accept (session_after n s) in
  (ret, wolfSSL_get_error (fst s') ret, s').

Definition attempt_err (n : nat) (s : Session * PkCbInfo) : Z := snd (fst (attempt n s)).

(** The content of the callback context once the handshake loop is
    left, or after [fuel] rounds of a loop that is still running: the
    engine runs the callback on [myCtx] in place, so what it has written
    stays there also when the handshake fails. *)
Definition context_after (fuel : nat) (s : Session * PkCbInfo) : PkCbInfo :=
  match accept_loop fuel s with
  | Some (_, _, s') => snd s'
  | None => snd (session_after fuel s)
  end.

(** What the environment answers for one client: the results of
    [accept()] and [wolfSSL_new()], the engine state of the new session,
    the result of [wolfSSL_read] with the bytes left in [buff], and the
    result of [wolfSSL_write]. *)
Record Conn := {
  conn_fd      : Z;
  conn_ssl     : ptr;
  conn_session : Session;
  conn_read    : Z;
  conn_data    : string;
  conn_write   : Z
}.

(** [while (!shutdown) { ... }], lines 312 to 389: [n] is the number of
    the next connection, [conns] the clients still to come, [myCtx] the
    content of the one [PkCbInfo] of [main]. *)
Fixpoint serve (fuel : nat) (n : nat) (conns : list Conn) (myCtx : PkCbInfo)
    (log : list MainEvent) : Exit * PkCbInfo * list MainEvent :=
  match conns with
  | [] => (Waiting, myCtx, log)
  | c :: rest =>
      if conn_fd c =? -1 then (Exited (-1), myCtx, log)
      else
        let log := log ++ [MAccepted n (conn_fd c)] in
        if conn_ssl c =? NULL then (Exited (-1), myCtx, log)
        else
          let log := log ++ [MNew n (conn_ssl c);
                             MSetEccSignCtx n (conn_ssl c) myCtx_addr] in
          match establish fuel (conn_session c, myCtx) with
          | None => (Retrying, context_after fuel (conn_session c, myCtx), log)
          | Some (inl (ret, err)) =>
              (Exited ret, context_after fuel (conn_session c, myCtx),
               log ++ [MHandshake n ret err])
          | Some (inr (s, myCtx)) =>
              let log := log ++ [MHandshake n WOLFSSL_SUCCESS
                                   (wolfSSL_get_error s WOLFSSL_SUCCESS)] in
              if conn_read c =? -1 then (Exited (-1), myCtx, log)
              else
                let shutdown := String.prefix "shutdown" (conn_data c) in
                if negb (conn_write c =? reply_len) then (Exited (conn_write c), myCtx, log)
                else
                  let log := log ++ [MFree n (conn_ssl c)] in
                  if shutdown then (Exited 0, myCtx, log)
                  else serve fuel (S n) rest myCtx log
          end
  end.

(** [main], from the creation of the callback context (lines 200 to 203)
    to the [exit:] label, once the socket and the [WOLFSSL_CTX] are set
    up. *)
Definition main (fuel : nat) (conns : list Conn) : Exit * PkCbInfo * list MainEvent :=
  let myCtx := {| keyFile := Some KEY_FILE; key := zero_key; state := 0 |} in
  serve fuel 0 conns myCtx [MCtxInit myCtx_addr].

(** The context attached to each connection, in order. *)
Definition attached (log : list MainEvent) : list (nat * ptr) :=
  omap (fun e => match e with
                 | MSetEccSignCtx n _ ctx => Some (n, ctx)
                 | _ => None
                 end) log.

(** The contexts created. *)
Definition created (log : list MainEvent) : list ptr :=
  omap (fun e => match e with MCtxInit ctx => Some ctx | _ => None end) log.

(** [in_order att freed log]: reading [log] after the context has been
    attached to the connections [att] and the sessions of the connections
    [freed] have been freed, no context is created, the context attached
    to a session is the one at [myCtx_addr], a handshake is of a
    connection to which it was attached before, and connection [n + 1]
    is accepted after the session of connection [n] has been freed. *)
Fixpoint in_order (att freed : list nat) (log : list MainEvent) : Prop :=
  match log with
  | [] => True
  | MCtxInit _ :: _ => False
  | MAccepted n _ :: l => (forall m, n = S m -> m ∈ freed) /\ in_order att freed l
  | MNew _ _ :: l => in_order att freed l
  | MSetEccSignCtx n _ ctx :: l => ctx = myCtx_addr /\ in_order (n :: att) freed l
  | MHandshake n _ _ :: l => n ∈ att /\ in_order att freed l
  | MFree n _ :: l => in_order att (n :: freed) l
  end.

End Server.

Arguments conn_fd {Session} _.
Arguments conn_ssl {Session} _.
Arguments conn_session {Session} _.
Arguments conn_read {Session} _.
Arguments conn_data {Session} _.
Arguments conn_write {Session} _.

(* ===================================================================== *)
(** * The whole of [main]                                                *)
(* ===================================================================== *)

(** The calls of [main] into the socket layer and into wolfSSL, in
    program order, with the value each one returns or is given.
    ([setsockopt], [memset], [printf] and [fprintf] are left out.) *)
Inductive Call :=
| CSocket (fd : Z)
| CBind (r : Z)
| CListen (r : Z)
| CInit
| CCtxNew (ctx : ptr)
| CUseCertificate (r : Z)
| CUsePrivateKey (r : Z)
| CLoadVerify (r : Z)
| CSetVerify (ctx : ptr)
| CSetEccSignCb (ctx : ptr)
| CAccept (fd : Z)
| CNew (ssl : ptr)
| CSetFd (ssl : ptr) (fd : Z)
| CSetEccSignCtx (ssl : ptr) (ctx : ptr)
| CHandshake (ssl : ptr) (ret err : Z)
| CRead (ssl : ptr) (r : Z)
| CWrite (ssl : ptr) (r : Z)
| CShutdown (ssl : ptr)
| CFree (ssl : ptr)
| CClose (fd : Z)
| CCtxFree (ctx : ptr)
| CCleanup.

(** What the environment answers while [main] sets the server up: the
    results of [socket], [bind], [listen], [wolfSSL_CTX_new],
    [wolfSSL_CTX_use_certificate_file], [wolfSSL_CTX_use_PrivateKey_file]
    and [wolfSSL_CTX_load_verify_locations]. *)
Record Setup := {
  su_socket : Z;
  su_bind   : Z;
  su_listen : Z;
  su_ctx    : ptr;
  su_cert   : Z;
  su_key    : Z;
  su_ca     : Z
}.

(** How one round of the loop ends: at its last line, with the
    [shutdown] flag and the callback context as they are then; at a
    [goto exit], with [ret], [connd] and [ssl]; or never, in the
    handshake loop. *)
Inductive Round {ecc_key : Type} :=
| Served (shutdown : bool) (myCtx : PkCbInfo (ecc_key := ecc_key))
| Failed (ret : Z) (connd : Z) (ssl : ptr)
| Stuck.
Arguments Round ecc_key : clear implicits.

(** How the loop ends: at the [exit:] label with [ret], [connd] and
    [ssl], blocked in [accept()], or in a handshake loop. *)
Inductive LoopEnd :=
| AtExit (ret : Z) (connd : Z) (ssl : ptr)
| Blocked
| Spinning.

Section Main.

Context {E : ErrorCodes}.
Context {ecc_key : Type}.

Variable Session : Type.
Variable wolfSSL_accept : Session * PkCbInfo (ecc_key := ecc_key) -> Z * (Session * PkCbInfo (ecc_key := ecc_key)).
Variable wolfSSL_get_error : Session -> Z -> Z.
Variable WOLFSSL_SUCCESS : Z.

(** [SOCKET_INVALID], from wolfSSL's headers. *)
Variable SOCKET_INVALID : Z.

Variable myCtx_addr : ptr.
Variable zero_key : ecc_key.

(** Lines 220 to 305: the calls made, the value of [ctx], and [Some ret]
    when the code jumps to [exit:] with [ret]. *)
Definition configure (su : Setup) : list Call * ptr * option Z :=
  let log := [CSocket (su_socket su)] in
  if su_socket su =? -1 then (log, NULL, Some (-1))
  else
    let log := log ++ [CBind (su_bind su)] in
    if su_bind su =? -1 then (log, NULL, Some (-1))
    else
      let log := log ++ [CListen (su_listen su)] in
      if su_listen su =? -1 then (log, NULL, Some (-1))
      else
        let ctx := su_ctx su in
        let log := log ++ [CInit; CCtxNew ctx] in
        if ctx =? NULL then (log, ctx, Some (-1))
        else
          let log := log ++ [CUseCertificate (su_cert su)] in
          if negb (su_cert su =? WOLFSSL_SUCCESS) then (log, ctx, Some (su_cert su))
          else
            let log := log ++ [CUsePrivateKey (su_key su)] in
            if negb (su_key su =? WOLFSSL_SUCCESS) then (log, ctx, Some (su_key su))
            else
              let log := log ++ [CLoadVerify (su_ca su)] in
              if negb (su_ca su =? WOLFSSL_SUCCESS) then (log, ctx, Some (su_ca su))
              else (log ++ [CSetVerify ctx; CSetEccSignCb ctx], ctx, None).

(** One round of [while (!shutdown)], lines 313 to 388, for the client
    [c]: [ssl] is the value the variable has when the round starts. *)
Definition round (fuel : nat) (c : Conn Session) (ssl : ptr)
    (myCtx : PkCbInfo (ecc_key := ecc_key)) : Round ecc_key * list Call :=
  let connd := conn_fd c in
  if connd =? -1 then (Failed (-1) connd ssl, [CAccept connd])
  else
    let ssl := conn_ssl c in
    if ssl =? NULL then (Failed (-1) connd ssl, [CAccept connd; CNew ssl])
    else
      let log := [CAccept connd; CNew ssl; CSetFd ssl connd;
                  CSetEccSignCtx ssl myCtx_addr] in
      match establish Session wolfSSL_accept wolfSSL_get_error WOLFSSL_SUCCESS
              fuel (conn_session c, myCtx) with
      | None => (Stuck, log)
      | Some (inl (ret, err)) => (Failed ret connd ssl, log ++ [CHandshake ssl ret err])
      | Some (inr (s, myCtx)) =>
          let log := log ++ [CHandshake ssl WOLFSSL_SUCCESS
                               (wolfSSL_get_error s WOLFSSL_SUCCESS);
                             CRead ssl (conn_read c)] in
          if conn_read c =? -1 then (Failed (-1) connd ssl, log)
          else
            let shutdown := String.prefix "shutdown" (conn_data c) in
            let log := log ++ [CWrite ssl (conn_write c)] in
            if negb (conn_write c =? reply_len) then (Failed (conn_write c) connd ssl, log)
            else (Served shutdown myCtx,
                  log ++ [CShutdown ssl; CFree ssl; CClose connd])
      end.

(** The loop, lines 312 to 391.  After a round that ran to its end,
    [connd] is [SOCKET_INVALID] and [ssl] still is the session of that
    round. *)
Fixpoint rounds (fuel : nat) (conns : list (Conn Session)) (ssl : ptr)
    (myCtx : PkCbInfo (ecc_key := ecc_key)) : LoopEnd * list Call :=
  match conns with
  | [] => (Blocked, [])
  | c :: rest =>
      match round fuel c ssl myCtx with
      | (Served true _, log) => (AtExit 0 SOCKET_INVALID (conn_ssl c), log)
      | (Served false myCtx, log) =>
          let '(e, log') := rounds fuel rest (conn_ssl c) myCtx in
          (e, log ++ log')
      | (Failed ret connd ssl, log) => (AtExit ret connd ssl, log)
      | (Stuck, log) => (Spinning, log)
      end
  end.

(** The [exit:] label, lines 393 to 404. *)
Definition cleanup (sockfd connd : Z) (ctx ssl : ptr) : list Call :=
  (if ssl =? NULL then [] else [CFree ssl])
  ++ (if connd =? SOCKET_INVALID then [] else [CClose connd])
  ++ (if sockfd =? SOCKET_INVALID then [] else [CClose sockfd])
  ++ (if ctx =? NULL then [] else [CCtxFree ctx])
  ++ [CCleanup].

(** [main]: how it ends and the calls it has made. *)
Definition run_main (su : Setup) (fuel : nat) (conns : list (Conn Session))
  : Exit * list Call :=
  let myCtx := {| keyFile := Some KEY_FILE; key := zero_key; state := 0 |} in
  match configure su with
  | (log, ctx, Some ret) =>
      (Exited ret, log ++ cleanup (su_socket su) SOCKET_INVALID ctx NULL)
  | (log, ctx, None) =>
      match rounds fuel conns NULL myCtx with
      | (AtExit ret connd ssl, log') =>
          (Exited ret, log ++ log' ++ cleanup (su_socket su) connd ctx ssl)
      | (Blocked, log') => (Waiting, log ++ log')
      | (Spinning, log') => (Retrying, log ++ log')
      end
  end.

(** The context after the clients [conns] have all been served without
    a shutdown command; [None] when one of them is not. *)
Fixpoint served_all (fuel : nat) (conns : list (Conn Session)) (ssl : ptr)
    (myCtx : PkCbInfo (ecc_key := ecc_key)) : option (PkCbInfo (ecc_key := ecc_key)) :=
  match conns with
  | [] => Some myCtx
  | c :: rest =>
      match fst (round fuel c ssl myCtx) with
      | Served false myCtx => served_all fuel rest (conn_ssl c) myCtx
      | _ => None
      end
  end.

End Main.

(** The descriptors passed to [close], those returned by [accept], and
    the sessions and contexts created and freed, in order. *)
Definition closes (log : list Call) : list Z :=
  omap (fun e => match e with CClose fd => Some fd | _ => None end) log.

Definition accepts (log : list Call) : list Z :=
  omap (fun e => match e with CAccept fd => Some fd | _ => None end) log.

Definition session_frees (log : list Call) : list ptr :=
  omap (fun e => match e with CFree s => Some s | _ => None end) log.

Definition is_accept (e : Call) : bool :=
  match e with CAccept _ => true | _ => false end.

Definition ctx_frees (log : list Call) : list ptr :=
  omap (fun e => match e with CCtxFree c => Some c | _ => None end) log.

(** The calls made for one client, inside the loop. *)
Definition round_call (e : Call) : Prop :=
  match e with
  | CAccept _ | CNew _ | CSetFd _ _ | CSetEccSignCtx _ _ | CHandshake _ _ _
  | CRead _ _ | CWrite _ _ | CShutdown _ | CFree _ | CClose _ => True
  | _ => False
  end.

(** The calls made before the loop. *)
Definition setup_call (e : Call) : Prop :=
  match e with
  | CSocket _ | CBind _ | CListen _ | CInit | CCtxNew _ | CUseCertificate _
  | CUsePrivateKey _ | CLoadVerify _ | CSetVerify _ | CSetEccSignCb _ => True
  | _ => False
  end.

(** The contexts that [wolfSSL_CTX_new] has created. *)
Definition ctx_news (log : list Call) : list ptr :=
  omap (fun e => match e with
                 | CCtxNew c => if c =? NULL then None else Some c
                 | _ => None
                 end) log.

(** How many calls of a log pass a test. *)
Definition tally (p : Call -> bool) (log : list Call) : nat :=
  length (List.filter p log).

Definition is_init (e : Call) : bool :=
  match e with CInit => true | _ => false end.

Definition is_cleanup (e : Call) : bool :=
  match e with CCleanup => true | _ => false end.

(** Whether the set-up gets as far as [wolfSSL_Init]: [socket], [bind]
    and [listen] have succeeded. *)
Definition listening (su : Setup) : bool :=
  negb ((su_socket su =? -1) || (su_bind su =? -1) || (su_listen su =? -1)).

(* ===================================================================== *)
(** * A small concrete instance, to run the model                        *)
(* ===================================================================== *)

Module Toy.

(** Life cycle of a key object. *)
Inductive toy_key :=
| KeyZero
| KeyInit
| KeyLoaded (der : list byte)
| KeyFreed.

(** A stand-in for wolfCrypt: a PEM file is a dash followed by the DER
    bytes; decoding needs at least one byte; the signature is the digest
    followed by the low byte of the generator's handle. *)
#[local] Instance toy_lib : WolfCrypt toy_key := {|
  wc_KeyPemToDer pem pemSz buffSz :=
    match pem with
    | "-"%byte :: der => (Z.of_nat (length der), der)
    | _ => (-162, [])
    end;
  wc_ecc_init k := (0, KeyInit);
  wc_EccPrivateKeyDecode der idx k inSz :=
    match der with
    | [] => (-140, k)
    | _ => (0, KeyLoaded der)
    end;
  wc_ecc_sign_hash input inSz out outSz rng k :=
    (0, input ++ [default "000"%byte (Byte.of_N (Z.to_N (rng `mod` 256)))], inSz + 1);
  wc_ecc_free k := KeyFreed;
  wolfSSL_GetRNG ssl := ssl + 8
|}.

#[local] Existing Instance wolfssl_codes.

(** The bytes of a short file. *)
Definition bytes_file (d : list byte) (readable : bool) : File :=
  {| f_len := N.of_nat (length d);
     f_byte := fun i => default "000"%byte (d !! Z.to_nat i);
     f_read_ok := readable |}.

Definition pem : list byte := ["-"; "k"; "e"; "y"]%byte.

(** A world with a well-formed key file and an empty heap. *)
Definition world0 : World :=
  {| fs := {[ KEY_FILE := bytes_file pem true ]};
     heap := ∅; next_addr := 4096; malloc_ok := fun _ => true;
     n_malloc := 0; trace := [] |}.

(** The context [main] builds: zeroed, then [keyFile = KEY_FILE]. *)
Definition myCtx0 : PkCbInfo (ecc_key := toy_key) :=
  {| keyFile := Some KEY_FILE; key := KeyZero; state := 0 |}.

(** A context in state [st] for the key file [path]. *)
Definition ctx_at (path : string) (st : Z) : PkCbInfo (ecc_key := toy_key) :=
  {| keyFile := Some path; key := KeyZero; state := st |}.

Definition digest : list byte := ["d"; "g"]%byte.

(** The key buffer of the engine: wolfSSL keeps the DER key of the
    session in a [DerBuffer], one heap block whose first 16 bytes here
    are the header; the [key] argument of the callback points behind the
    header, inside the block. *)
Definition der_block : ptr := 8192.
Definition engine_key : ptr := der_block + 16.

(** A world whose heap holds the [DerBuffer] of the engine, with the
    files [files]. *)
Definition world_with (files : gmap string File) : World :=
  {| fs := files;
     heap := {[ der_block := {| b_size := 16 + 3; b_data := [] |} ]};
     next_addr := 16384; malloc_ok := fun _ => true;
     n_malloc := 0; trace := [] |}.

(** A key file that can be opened but not read back. *)
Definition unreadable : File := bytes_file pem false.

(** A key file that is not PEM. *)
Definition not_pem : File := bytes_file ["x"; "y"; "z"]%byte true.

(** A file of 4 GiB and one byte. *)
Definition huge : File :=
  {| f_len := 4294967297; f_byte := fun _ => "k"%byte; f_read_ok := true |}.

(** A stand-in for the handshake engine: the session carries the world
    and the last error; a handshake needs one signature, asked of
    [myEccSign] (compiled with [WOLFSSL_ASYNC_CRYPT]) on the attached
    context, and [wolfSSL_accept] fails with the callback's code when the
    callback does not return 0. *)
Definition ToySession : Type := World * Z.

Definition toy_accept (s : ToySession * PkCbInfo (ecc_key := toy_key))
  : Z * (ToySession * PkCbInfo (ecc_key := toy_key)) :=
  let '((w, _), ctx) := s in
  match myEccSign true 100 digest 2 [] 72 NULL 0 ctx w with
  | Ok (r, _, _, ctx') w' =>
      if r =? 0 then (1, ((w', 0), ctx')) else (-1, ((w', r), ctx'))
  | Crash _ w' => (-1, ((w', -1), ctx))
  end.

Definition toy_get_error (s : ToySession) (ret : Z) : Z := snd s.

(** A client that connects, is read from and written to without error. *)
Definition client (fd : Z) (ssl : ptr) (data : string) : Conn ToySession :=
  {| conn_fd := fd; conn_ssl := ssl; conn_session := (world0, 0);
     conn_read := Z.of_nat (String.length data); conn_data := data;
     conn_write := reply_len |}.

Definition toy_main (fuel : nat) (conns : list (Conn ToySession)) :=
  main ToySession toy_accept toy_get_error 1 1000 KeyZero fuel conns.

End Toy.

(** The toy engine behind the whole of [main]: [WOLFSSL_SUCCESS] is 1,
    [SOCKET_INVALID] is -1, and [&myCtx] is 1000. *)
Module ToyServer.

Import Toy.
#[local] Existing Instance wolfssl_codes.
#[local] Existing Instance toy_lib.

Definition toy_run := run_main ToySession toy_accept toy_get_error 1 (-1) 1000 KeyZero.
Definition toy_round := round ToySession toy_accept toy_get_error 1 1000.
Definition toy_served := served_all ToySession toy_accept toy_get_error 1 1000.

(** A set-up in which every call succeeds. *)
Definition toy_setup : Setup :=
  {| su_socket := 3; su_bind := 0; su_listen := 0; su_ctx := 500;
     su_cert := 1; su_key := 1; su_ca := 1 |}.

(** The callback context when [main] starts, and after a handshake. *)
Definition toy_ctx : PkCbInfo (ecc_key := toy_key) :=
  {| keyFile := Some KEY_FILE; key := KeyZero; state := 0 |}.
Definition toy_ctx_used : PkCbInfo (ecc_key := toy_key) :=
  {| keyFile := Some KEY_FILE; key := KeyFreed; state := 0 |}.

End ToyServer.

(* ===================================================================== *)
(** * Predicates on runs                                                 *)
(* ===================================================================== *)

(** [emits P m]: whatever the outcome, a run of [m] only appends events,
    and each of them satisfies [P]. *)
Definition emits {A} (P : Event -> Prop) (m : M A) : Prop :=
  forall w, exists evs, trace (final (m w)) = trace w ++ evs /\ Forall P evs.

(** Events of the key loader: no library call but the PEM conversion. *)
Definition loader_event (e : Event) : Prop :=
  match e with
  | EvLib (CallKeyPemToDer _) => True
  | EvLib _ => False
  | _ => True
  end.

(** [occurs e m w]: the run of [m] from [w] appends events among which
    is [e]. *)
Definition occurs {A} (e : Event) (m : M A) (w : World) : Prop :=
  exists evs, trace (final (m w)) = trace w ++ evs /\ e ∈ evs.

(** The wolfCrypt primitives called by the callback never answer
    [WC_PENDING_E] themselves: the key they work on is set up by
    [wc_ecc_init], without an asynchronous device. *)
Definition lib_never_pending {E : ErrorCodes} {ecc_key : Type} (L : WolfCrypt ecc_key) : Prop :=
  (forall pem a b, fst (wc_KeyPemToDer pem a b) <> WC_PENDING_E)
  /\ (forall k, fst (wc_ecc_init k) <> WC_PENDING_E)
  /\ (forall d i k n, fst (wc_EccPrivateKeyDecode d i k n) <> WC_PENDING_E)
  /\ (forall i n o s g k, fst (fst (wc_ecc_sign_hash i n o s g k)) <> WC_PENDING_E).

(** Events of a run of the callback for session [ssl] on digest [input]:
    no random generator is created, the generator asked for is the one of
    [ssl], and a signature is computed with that generator. *)
Definition session_rng_event {ecc_key : Type} {L : WolfCrypt ecc_key}
    (ssl : ptr) (input : list byte) (inSz : Z) (out : list byte) (outSz : Z)
    (e : Event) : Prop :=
  match e with
  | EvLib CallInitRng => False
  | EvLib (CallGetRNG s rng) => s = ssl /\ rng = wolfSSL_GetRNG ssl
  | EvLib (CallEccSignHash rng r) =>
      rng = wolfSSL_GetRNG ssl
      /\ exists k, r = fst (fst (wc_ecc_sign_hash input inSz out outSz (wolfSSL_GetRNG ssl) k))
  | _ => True
  end.

(** The world once the callback has printed its first line, where
    [load_key_file] starts on the real path. *)
Definition entered (w : World) : World :=
  set_trace (trace w ++ [EvPrintf "PK ECC Sign: inSz %u, keySz %u"]) w.

(** The addresses from the allocator's next one on are not in use. *)
Definition heap_fresh (w : World) : Prop :=
  forall p, Z.pos (next_addr w) <= p -> heap w !! p = None.

(** How many events of a trace pass a test. *)
Definition count (p : Event -> bool) (t : list Event) : nat :=
  length (List.filter p t).

(** A file that is opened, a file that is closed. *)
Definition is_open (e : Event) : bool :=
  match e with EvFopen _ true => true | _ => false end.

Definition is_close (e : Event) : bool :=
  match e with EvFclose => true | _ => false end.

(** The world [w] after [k] more calls of [malloc], with the heap [h],
    the next address [na] and the events [evs] added. *)
Definition later (w : World) (h : gmap Z Block) (na : positive) (k : nat)
    (evs : list Event) : World :=
  {| fs := fs w; heap := h; next_addr := na; malloc_ok := malloc_ok w;
     n_malloc := (k + n_malloc w)%nat; trace := trace w ++ evs |}.

(* ===================================================================== *)
(** * Reasoning about runs                                               *)
(* ===================================================================== *)

Lemma bind_Ok_inv {A B} (m : M A) (k : A -> M B) w b w' :
  bind m k w = Ok b w' -> exists a w1, m w = Ok a w1 /\ k a w1 = Ok b w'.
Proof. unfold bind. destruct (m w); [eauto | discriminate]. Qed.

(** Splits a run [bind m k w = Ok _ _] into the run of [m], named [Hm]
    with its result [a], and the run of the continuation, left in [H]. *)
Tactic Notation "inv_bind" hyp(H) "as" simple_intropattern(a) ident(Hm) :=
  let w1 := fresh "w" in
  apply bind_Ok_inv in H; destruct H as (a & w1 & Hm & H).

Lemma ret_Ok_inv {A} (a b : A) w w' : ret a w = Ok b w' -> a = b /\ w = w'.
Proof. unfold ret. intros [= -> ->]. done. Qed.

(** Ends a run: [ret a w = Ok b w']. *)
Ltac inv_ret H :=
  let Hw := fresh "Hw" in
  apply ret_Ok_inv in H as [H Hw]; simplify_eq H; intros; subst.

Lemma emits_weaken {A} (P Q : Event -> Prop) (m : M A) :
  (forall e, P e -> Q e) -> emits P m -> emits Q m.
Proof.
  intros HPQ Hm w. destruct (Hm w) as (evs & -> & Hevs).
  exists evs. split; [done |]. eapply Forall_impl; eauto.
Qed.

Lemma emits_ret {A} P (a : A) : emits P (ret a).
Proof. intros w. exists []. simpl. by rewrite app_nil_r. Qed.

Lemma emits_bind {A B} P (m : M A) (k : A -> M B) :
  emits P m -> (forall a, emits P (k a)) -> emits P (bind m k).
Proof.
  intros Hm Hk w. unfold bind. destruct (Hm w) as (e1 & H1 & HP1).
  destruct (m w) as [a w1 | f w1]; simpl in *.
  - destruct (Hk a w1) as (e2 & H2 & HP2).
    exists (e1 ++ e2). rewrite H2, H1, app_assoc. split; [done |].
    by apply Forall_app.
  - by exists e1.
Qed.

Lemma emits_emit P e : P e -> emits P (emit e).
Proof. intros He w. exists [e]. simpl. split; [done |]. by constructor. Qed.

Lemma emits_fopen P path : (forall ok, P (EvFopen path ok)) -> emits P (fopen path).
Proof. intros He w. eexists [_]. simpl. split; [done |]. by constructor. Qed.

Lemma emits_malloc P n : (forall p, P (EvMalloc n p)) -> emits P (malloc n).
Proof.
  intros He w. unfold malloc. destruct (malloc_ok w (n_malloc w)); simpl;
    eexists [_]; (split; [done |]); by constructor.
Qed.

Lemma emits_free P p : P (EvFree p) -> emits P (free p).
Proof.
  intros He w. unfold free. exists [EvFree p].
  split; [| by constructor].
  destruct (p =? NULL); [done |]. by destruct (heap w !! p).
Qed.

Lemma emits_load_block P p : emits P (load_block p).
Proof.
  intros w. exists []. unfold load_block. rewrite app_nil_r.
  by destruct (heap w !! p).
Qed.

Lemma emits_store_block P p d : emits P (store_block p d).
Proof.
  intros w. exists []. unfold store_block. rewrite app_nil_r.
  by destruct (heap w !! p).
Qed.

Lemma emits_fread P p n f : (forall ok, P (EvFread n ok)) -> emits P (fread p n f).
Proof.
  intros He. unfold fread. destruct (f_read_ok f && (n <=? ftell f)).
  - apply emits_bind; [apply emits_store_block | intros _].
    apply emits_bind; [by apply emits_emit | intros _; apply emits_ret].
  - apply emits_bind; [by apply emits_emit | intros _; apply emits_ret].
Qed.

(** Decomposes an [emits] goal along the structure of the program. *)
Ltac emits_step :=
  lazymatch goal with
  | |- emits _ (bind _ _) => apply emits_bind; [| intros ?]
  | |- emits _ (ret _) => apply emits_ret
  | |- emits _ (printf _) => apply emits_emit
  | |- emits _ (lib _) => apply emits_emit
  | |- emits _ fclose => apply emits_emit
  | |- emits _ (emit _) => apply emits_emit
  | |- emits _ (fopen _) => apply emits_fopen; intros ?
  | |- emits _ (malloc _) => apply emits_malloc; intros ?
  | |- emits _ (free _) => apply emits_free
  | |- emits _ (load_block _) => apply emits_load_block
  | |- emits _ (store_block _ _) => apply emits_store_block
  | |- emits _ (fread _ _ _) => apply emits_fread; intros ?
  | |- emits _ (if ?b then _ else _) => destruct b
  | |- emits _ (match ?x with Some _ => _ | None => _ end) => destruct x
  | |- emits _ (let '(_, _) := ?x in _) => destruct x
  | |- emits _ (match ?x with (_, _) => _ end) => destruct x
  end.

(** Membership in a list written out. *)
Ltac in_list := solve [repeat constructor].

(** A statement whose events are immediate, followed by the rest. *)
Ltac emits_seq :=
  apply emits_bind; [solve [repeat emits_step; done] | intros ?].

Section Runs.

Context {E : ErrorCodes}.
Context {ecc_key : Type} {L : WolfCrypt ecc_key}.

Lemma load_file_emits fname buf bufLen :
  emits (fun e => is_crypto e = false /\ frees [e] = []) (load_file fname buf bufLen).
Proof.
  unfold load_file. destruct fname, buf, bufLen; repeat emits_step; done.
Qed.

Lemma load_key_file_emits fname derBuf derLen :
  emits loader_event (load_key_file fname derBuf derLen).
Proof.
  unfold load_key_file. emits_step.
  - eapply emits_weaken; [| apply load_file_emits].
    intros [] [? ?]; done.
  - destruct a as [[r buf] bufLen]. repeat emits_step; done.
Qed.

End Runs.

(** ** Events and return codes of the loader and of the callback *)

Lemma final_bind_Ok {A B} (m : M A) (k : A -> M B) w a w1 :
  m w = Ok a w1 -> final (bind m k w) = final (k a w1).
Proof. unfold bind. by intros ->. Qed.

Lemma occurs_bind_l {A B} e (m : M A) (k : A -> M B) w :
  occurs e m w -> (forall a, emits (fun _ => True) (k a)) -> occurs e (bind m k) w.
Proof.
  intros (evs & Ht & He) Hk. unfold occurs, bind.
  destruct (m w) as [a w1 | f w1]; simpl in *.
  - destruct (Hk a w1) as (evs' & Ht' & _).
    exists (evs ++ evs'). rewrite Ht', Ht, app_assoc. split; [done |].
    apply elem_of_app. by left.
  - by exists evs.
Qed.

Lemma occurs_bind_r {A B} e (m : M A) (k : A -> M B) w a w1 :
  m w = Ok a w1 -> emits (fun _ => True) m -> occurs e (k a) w1 ->
  occurs e (bind m k) w.
Proof.
  intros Hm He (evs & Ht & Hin). unfold occurs.
  rewrite (final_bind_Ok _ _ _ _ _ Hm), Ht.
  destruct (He w) as (evs0 & Ht0 & _). rewrite Hm in Ht0. simpl in Ht0.
  exists (evs0 ++ evs). rewrite Ht0, app_assoc. split; [done |].
  apply elem_of_app. by right.
Qed.

Section StateMachine.

Context {E : ErrorCodes}.
Context {ecc_key : Type} {L : WolfCrypt ecc_key}.

Lemma myEccSign_emits async ssl input inSz out outSz key_ keySz (cb : PkCbInfo) :
  emits (session_rng_event ssl input inSz out outSz)
        (myEccSign async ssl input inSz out outSz key_ keySz cb).
Proof.
  unfold myEccSign. emits_seq.
  destruct (async && (state cb =? 0)).
  { repeat emits_step; done. }
  apply emits_bind.
  { eapply emits_weaken; [| apply load_key_file_emits].
    intros [| | | | | | []]; simpl; done. }
  intros [[r keyBuf] keySz'].
  apply emits_bind; [| intros [[[? ?] ?] ?]; repeat emits_step; done].
  destruct (r =? 0); [| emits_step].
  destruct (wc_ecc_init (key cb)) as [r1 k1].
  emits_seq.
  destruct (r1 =? 0); [| emits_step].
  emits_seq.
  destruct (wc_EccPrivateKeyDecode _ 0 k1 keySz') as [r2 k2].
  emits_seq.
  apply emits_bind; [| intros [[? ?] ?]; repeat emits_step; done].
  destruct (r2 =? 0); [| emits_step].
  emits_seq. emits_seq.
  destruct (wc_ecc_sign_hash input inSz out outSz (wolfSSL_GetRNG ssl) k2)
    as [[r3 o3] s3] eqn:Hsign.
  apply emits_bind; [| intros _; emits_step].
  apply emits_emit. simpl. split; [done |]. exists k2. by rewrite Hsign.
Qed.

Lemma myEccSign_emits_any async ssl input inSz out outSz key_ keySz (cb : PkCbInfo) :
  emits (fun _ => True) (myEccSign async ssl input inSz out outSz key_ keySz cb).
Proof. eapply emits_weaken; [| apply myEccSign_emits]. done. Qed.

(** The return codes of [load_file]. *)
Lemma load_file_ret fname buf bufLen w r b l w' :
  load_file fname buf bufLen w = Ok (r, b, l) w' ->
  r ∈ [0; -1; BAD_FUNC_ARG; BAD_PATH_ERROR; MEMORY_E; BUFFER_E].
Proof.
  unfold load_file. intros H.
  destruct fname as [path |], buf as [b0 |], bufLen as [l0 |];
    try (inv_ret H; in_list).
  inv_bind H as [f |] Hopen.
  - inv_bind H as res Hbody. inv_bind H as ? Hclose. inv_ret H.
    destruct (0 <? to_int (ftell f)).
    + inv_bind Hbody as p Hmalloc. destruct (p =? NULL).
      * inv_bind Hbody as ? Hp. inv_ret Hbody. in_list.
      * inv_bind Hbody as readLen Hread. inv_ret Hbody.
        destruct (0 <? readLen); in_list.
    + inv_ret Hbody. in_list.
  - inv_bind H as ? Hp. inv_ret H. in_list.
Qed.

(** The return codes of [load_key_file]. *)
Lemma load_key_file_ret fname derBuf derLen w r d l w' :
  load_key_file fname derBuf derLen w = Ok (r, d, l) w' ->
  r ∈ [0; -1; BAD_FUNC_ARG; BAD_PATH_ERROR; MEMORY_E; BUFFER_E]
  \/ exists pem a b, r = fst (wc_KeyPemToDer pem a b).
Proof.
  unfold load_key_file. intros H.
  inv_bind H as [[r0 buf] bufLen] Hload.
  apply load_file_ret in Hload.
  destruct (negb (r0 =? 0)).
  { inv_ret H. by left. }
  inv_bind H as p Hmalloc. destruct (p =? NULL).
  { inv_bind H as ? Hfree. inv_ret H. left. in_list. }
  inv_bind H as pem Hpem.
  destruct (wc_KeyPemToDer pem _ _) as [r1 der] eqn:Hconv.
  inv_bind H as ? Hstore. inv_bind H as ? Hlib. destruct (r1 <? 0).
  - inv_bind H as ? Hf1. inv_bind H as ? Hf2. inv_ret H.
    right. do 3 eexists. by rewrite Hconv.
  - inv_bind H as ? Hf1. inv_ret H. left. in_list.
Qed.

End StateMachine.

(** ** Outcomes of [load_file] *)

Section Loader.

Context {E : ErrorCodes}.

Lemma to_int_small z : 0 <= z < 2 ^ 31 -> to_int z = z.
Proof. intros Hz. unfold to_int. rewrite Z.mod_small; lia. Qed.

(** A file that cannot be opened: [BAD_PATH_ERROR]. *)
Lemma load_file_not_found path b l w :
  fs w !! path = None ->
  load_file (Some path) (Some b) (Some l) w
  = Ok (BAD_PATH_ERROR, Some NULL, Some 0)
       (set_trace (trace w ++ [EvFopen path false; EvPrintf "Error loading %s"]) w).
Proof.
  intros Hfs. unfold load_file, bind, fopen, printf, emit, ret. rewrite Hfs. simpl.
  by rewrite <- app_assoc.
Qed.

(** A file of length 0: [BUFFER_E]. *)
Lemma load_file_empty path b l w f :
  fs w !! path = Some f -> f_len f = 0%N ->
  load_file (Some path) (Some b) (Some l) w
  = Ok (BUFFER_E, Some NULL, Some 0)
       (set_trace (trace w ++ [EvFopen path true; EvFclose]) w).
Proof.
  intros Hfs Hlen. unfold load_file, bind, fopen, fclose, emit, ret, ftell.
  rewrite Hfs, Hlen. simpl. by rewrite <- app_assoc.
Qed.

Lemma to_int_le z : 0 <= z -> to_int z <= z.
Proof.
  intros Hz. unfold to_int.
  pose proof (Z.mod_le (z + 2 ^ 31) (2 ^ 32)). lia.
Qed.

Lemma length_file_prefix f n : length (file_prefix f n) = Z.to_nat n.
Proof. unfold file_prefix. by rewrite length_fmap, length_seqZ. Qed.

(** A file whose length is positive as an [int] and whose bytes cannot
    be read back: -1, and the buffer allocated for it is handed over. *)
Lemma load_file_read_failure path b l w f :
  fs w !! path = Some f -> 0 < to_int (ftell f) ->
  malloc_ok w (n_malloc w) = true -> f_read_ok f = false ->
  exists w',
    load_file (Some path) (Some b) (Some l) w
    = Ok (-1, Some (Z.pos (next_addr w)), Some (to_int (ftell f))) w'
    /\ heap w' = <[Z.pos (next_addr w) := {| b_size := to_int (ftell f); b_data := [] |}]>
                   (heap w).
Proof.
  intros Hfs Hlen%Z.ltb_lt Hmalloc Hread.
  unfold load_file, bind, fopen, fclose, fread, malloc, emit, ret, set_trace.
  rewrite Hfs. simpl. rewrite Hlen. simpl. rewrite Hmalloc. simpl.
  rewrite Hread. simpl. by eexists.
Qed.

(** A file whose length is positive as an [int] and that is read back:
    0, with as many bytes of the file in the buffer as that [int] says. *)
Lemma load_file_reads_int_length path b l w f :
  fs w !! path = Some f -> 0 < to_int (ftell f) ->
  malloc_ok w (n_malloc w) = true -> f_read_ok f = true ->
  exists w',
    load_file (Some path) (Some b) (Some l) w
    = Ok (0, Some (Z.pos (next_addr w)), Some (to_int (ftell f))) w'
    /\ heap w' !! Z.pos (next_addr w)
       = Some {| b_size := to_int (ftell f);
                 b_data := file_prefix f (to_int (ftell f)) |}.
Proof.
  intros Hfs Hlen Hmalloc Hread.
  assert ((to_int (ftell f) <=? ftell f) = true) as Hle.
  { apply Z.leb_le, to_int_le. unfold ftell. lia. }
  apply Z.ltb_lt in Hlen.
  unfold load_file, bind, fopen, fclose, fread, store_block, malloc, emit, ret,
    set_trace, set_heap.
  rewrite Hfs. simpl. rewrite Hlen. simpl. rewrite Hmalloc. simpl.
  rewrite Hread, Hle. unfold bind. simpl. rewrite lookup_insert_eq. simpl.
  eexists. split; [reflexivity |]. simpl. by rewrite lookup_insert_eq.
Qed.

(** A file shorter than 2^31 bytes that is read back: 0, with all the
    bytes of the file in the buffer. *)
Lemma load_file_whole_file path b l w f :
  fs w !! path = Some f -> (0 < f_len f < 2 ^ 31)%N ->
  malloc_ok w (n_malloc w) = true -> f_read_ok f = true ->
  exists w',
    load_file (Some path) (Some b) (Some l) w
    = Ok (0, Some (Z.pos (next_addr w)), Some (Z.of_N (f_len f))) w'
    /\ heap w' !! Z.pos (next_addr w)
       = Some {| b_size := Z.of_N (f_len f); b_data := file_contents f |}.
Proof.
  intros Hfs Hlen Hmalloc Hread.
  assert (to_int (ftell f) = Z.of_N (f_len f)) as Hint
    by (unfold ftell; apply to_int_small; lia).
  destruct (load_file_reads_int_length path b l w f) as (w' & Hrun & Hheap);
    [done | unfold ftell in *; lia | done | done |].
  rewrite Hint in *. by exists w'.
Qed.

End Loader.

(** ** Effect of the statements on the heap *)

Lemma bind_Ok_run {A B} (m : M A) (k : A -> M B) w a w1 :
  m w = Ok a w1 -> bind m k w = k a w1.
Proof. unfold bind. by intros ->. Qed.

Lemma emit_heap e w u w1 :
  emit e w = Ok u w1 -> heap w1 = heap w /\ next_addr w1 = next_addr w.
Proof. by intros [= _ <-]. Qed.

Lemma fopen_heap path w r w1 :
  fopen path w = Ok r w1 -> heap w1 = heap w /\ next_addr w1 = next_addr w.
Proof. by intros [= _ <-]. Qed.

Lemma malloc_heap n w p w1 :
  malloc n w = Ok p w1 ->
  (p = NULL /\ heap w1 = heap w /\ next_addr w1 = next_addr w)
  \/ (p = Z.pos (next_addr w)
      /\ heap w1 = <[p := {| b_size := n; b_data := [] |}]> (heap w)
      /\ next_addr w1 = (next_addr w + Z.to_pos n)%positive).
Proof.
  unfold malloc. destruct (malloc_ok w (n_malloc w)); intros [= <- <-]; simpl.
  - by right.
  - by left.
Qed.

Lemma free_heap p w u w1 :
  free p w = Ok u w1 ->
  next_addr w1 = next_addr w
  /\ ((p = NULL /\ heap w1 = heap w)
      \/ (is_Some (heap w !! p) /\ heap w1 = delete p (heap w))).
Proof.
  unfold free. destruct (p =? NULL) eqn:Hp.
  - intros [= <- <-]. apply Z.eqb_eq in Hp. split; [done |]. by left.
  - destruct (heap w !! p) eqn:Hlive; [| done].
    intros [= <- <-]. split; [done |]. right. by split; [eexists |].
Qed.

Lemma store_block_heap p d w u w1 :
  store_block p d w = Ok u w1 ->
  next_addr w1 = next_addr w
  /\ exists b, heap w !! p = Some b
       /\ heap w1 = <[p := {| b_size := b_size b; b_data := d |}]> (heap w).
Proof.
  unfold store_block. destruct (heap w !! p) as [b |] eqn:Hlive; [| done].
  intros [= <- <-]. split; [done |]. by exists b.
Qed.

Lemma load_block_heap p w d w1 :
  load_block p w = Ok d w1 -> w1 = w /\ exists b, heap w !! p = Some b /\ d = b_data b.
Proof.
  unfold load_block. destruct (heap w !! p) as [b |] eqn:Hlive; [| done].
  intros [= <- <-]. split; [done |]. by exists b.
Qed.

Lemma fread_heap p n f w r w1 :
  fread p n f w = Ok r w1 ->
  next_addr w1 = next_addr w
  /\ (heap w1 = heap w \/ exists b, heap w1 = <[p := b]> (heap w)).
Proof.
  unfold fread. destruct (f_read_ok f && (n <=? ftell f)); intros H.
  - inv_bind H as ? Hstore. inv_bind H as ? Hemit. inv_ret H.
    apply store_block_heap in Hstore as (Hn & b & _ & Hh).
    apply emit_heap in Hemit as [Hh' Hn']. split; [congruence |].
    right. eexists. rewrite Hh'. exact Hh.
  - inv_bind H as ? Hemit. inv_ret H.
    apply emit_heap in Hemit as [Hh' Hn']. split; [done |]. by left.
Qed.

Section Release.

Context {E : ErrorCodes}.
Context {ecc_key : Type} {L : WolfCrypt ecc_key}.

Lemma codes_nonzero :
  error_codes_ok E ->
  BAD_FUNC_ARG <> 0 /\ BAD_PATH_ERROR <> 0 /\ MEMORY_E <> 0 /\ BUFFER_E <> 0.
Proof. intros [Hneg _]. rewrite !Forall_cons in Hneg. lia. Qed.

(** When [load_file] returns 0 its buffer is one new block, at the
    address that was the allocator's next one. *)
Lemma load_file_success fname buf bufLen w ob ol w1 :
  error_codes_ok E ->
  load_file fname buf bufLen w = Ok (0, ob, ol) w1 ->
  exists blk,
    ob = Some (Z.pos (next_addr w))
    /\ heap w1 = <[Z.pos (next_addr w) := blk]> (heap w)
    /\ (next_addr w < next_addr w1)%positive.
Proof.
  intros (Hbfa & Hbpe & Hme & Hbe)%codes_nonzero H. unfold load_file in H.
  destruct fname as [path |], buf as [b0 |], bufLen as [l0 |];
    try (by inv_ret H).
  inv_bind H as [f |] Hopen; apply fopen_heap in Hopen as [Hh0 Hn0].
  - inv_bind H as res Hbody. inv_bind H as ? Hclose. inv_ret H.
    apply emit_heap in Hclose as [-> ->].
    destruct (0 <? to_int (ftell f)); [| by inv_ret Hbody].
    inv_bind Hbody as p Hmalloc.
    apply malloc_heap in Hmalloc as [(-> & _) | (-> & Hh1 & Hn1)].
    { simpl in Hbody. inv_bind Hbody as ? Hp. by inv_ret Hbody. }
    simpl in Hbody. inv_bind Hbody as readLen Hread.
    apply fread_heap in Hread as [Hn2 Hh2]. inv_ret Hbody.
    rewrite Hn0 in *. rewrite Hh0 in *.
    destruct Hh2 as [Hh2 | [b Hh2]]; eexists;
      (split; [done |]); (split; [| lia]);
      rewrite Hh2, Hh1, ?insert_insert_eq; done.
  - inv_bind H as ? Hp. by inv_ret H.
Qed.

(** When [load_key_file] returns 0, all that has changed in the heap is
    the DER buffer it hands over: one new block, not [NULL]. *)
Lemma load_key_file_success fname derBuf derLen w d l w1 :
  error_codes_ok E -> heap_fresh w ->
  load_key_file fname derBuf derLen w = Ok (0, d, l) w1 ->
  exists q blk,
    d = Z.pos q /\ (next_addr w < q)%positive
    /\ heap w1 = <[d := blk]> (heap w).
Proof.
  intros Hcodes Hfresh H. pose proof (codes_nonzero Hcodes) as (_ & _ & Hme & _).
  unfold load_key_file in H.
  inv_bind H as [[r0 buf] bufLen] Hload.
  destruct (r0 =? 0) eqn:Hr0; simpl in H; [| inv_ret H; by apply Z.eqb_neq in Hr0].
  apply Z.eqb_eq in Hr0 as ->.
  apply load_file_success in Hload as (blk & -> & Hh0 & Hn0); [| done].
  simpl in H. inv_bind H as p Hmalloc.
  apply malloc_heap in Hmalloc as [(-> & _) | (-> & Hh1 & Hn1)].
  { simpl in H. inv_bind H as ? Hf. by inv_ret H. }
  simpl in H. inv_bind H as pem Hpem.
  apply load_block_heap in Hpem as [-> _].
  destruct (wc_KeyPemToDer pem _ _) as [r1 der].
  inv_bind H as ? Hstore. apply store_block_heap in Hstore as (Hn2 & b & _ & Hh2).
  inv_bind H as ? Hlib. apply emit_heap in Hlib as [Hh3 Hn3].
  destruct (r1 <? 0) eqn:Hr1.
  { inv_bind H as ? Hf1. inv_bind H as ? Hf2. inv_ret H. lia. }
  inv_bind H as ? Hf1. inv_ret H.
  apply free_heap in Hf1 as [_ [[[=] _] | [_ Hh4]]].
  exists (next_addr w0), {| b_size := b_size b; b_data := der |}.
  split; [done |]. split; [done |].
  rewrite Hh4, Hh3, Hh2, Hh1, Hh0, insert_insert_eq.
  rewrite delete_insert_ne by lia.
  rewrite delete_insert_id; [done |]. apply Hfresh. lia.
Qed.

(** Once [load_key_file] has returned 0, the callback returns, whatever
    the outcome of the decoding and of the signature: it has freed the
    DER buffer, so that the heap is what it was before the call, and the
    key object is the one [wc_ecc_init] left when that failed, and has
    been through [wc_ecc_free] otherwise. *)
Lemma myEccSign_releases_loaded_key async ssl input inSz out outSz key_ keySz
    (cb : PkCbInfo) w d l w1 :
  error_codes_ok E -> heap_fresh w ->
  async && (state cb =? 0) = false ->
  load_key_file (keyFile cb) key_ keySz (entered w) = Ok (0, d, l) w1 ->
  exists r o sz cb' w',
    myEccSign async ssl input inSz out outSz key_ keySz cb w = Ok (r, o, sz, cb') w'
    /\ heap w' = heap w
    /\ (key cb' = snd (wc_ecc_init (key cb)) \/ exists k, key cb' = wc_ecc_free k).
Proof.
  intros Hcodes Hfresh Hcond Hload.
  destruct (load_key_file_success _ _ _ (entered w) _ _ _ Hcodes Hfresh Hload)
    as (q & blk & -> & Hq & Hh1).
  assert (heap w !! Z.pos q = None) as Hnew by (apply Hfresh; simpl in *; lia).
  assert (heap w1 !! Z.pos q = Some blk) as Hlive by (by rewrite Hh1, lookup_insert_eq).
  assert (delete (Z.pos q) (heap w1) = heap w) as Hdel
    by (by rewrite Hh1, delete_insert_id).
  unfold myEccSign.
  rewrite (bind_Ok_run _ _ w tt (entered w)) by done.
  rewrite Hcond, (bind_Ok_run _ _ _ _ _ Hload). simpl.
  destruct (wc_ecc_init (key cb)) as [ri ki]. simpl.
  unfold bind, lib, printf, emit, load_block, free, ret, set_trace, set_heap. simpl.
  destruct (ri =? 0); simpl; rewrite ?Hlive; simpl.
  - destruct (wc_EccPrivateKeyDecode (b_data blk) 0 ki l) as [rd kd]. simpl.
    destruct (rd =? 0); simpl.
    + destruct (wc_ecc_sign_hash input inSz out outSz (wolfSSL_GetRNG ssl) kd)
        as [[rs os] ss]. simpl. rewrite Hlive. simpl.
      do 5 eexists. split; [reflexivity |]. simpl. split; [done |]. right. by eexists.
    + rewrite Hlive. simpl.
      do 5 eexists. split; [reflexivity |]. simpl. split; [done |]. right. by eexists.
  - do 5 eexists. split; [reflexivity |]. simpl. split; [done |]. by left.
Qed.

End Release.

(* ===================================================================== *)
(** * The pending/retry state machine of the callback                    *)
(* ===================================================================== *)

Lemma elem_of_lib_calls c evs : c ∈ lib_calls evs <-> EvLib c ∈ evs.
Proof.
  unfold lib_calls. rewrite list_elem_of_omap. split.
  - intros ([] & Hin & Heq); simplify_eq. done.
  - intros Hin. by exists (EvLib c).
Qed.

Lemma frees_app t1 t2 : frees (t1 ++ t2) = frees t1 ++ frees t2.
Proof. apply omap_app. Qed.

Lemma pending_distinct (E : ErrorCodes) :
  error_codes_ok E ->
  WC_PENDING_E ∉ [0; -1; BAD_FUNC_ARG; BAD_PATH_ERROR; MEMORY_E; BUFFER_E].
Proof.
  intros [Hneg Hnd].
  rewrite !Forall_cons in Hneg. rewrite !NoDup_cons in Hnd.
  rewrite !elem_of_cons in *. intuition lia.
Qed.

Section Claims.

Context {E : ErrorCodes}.
Context {ecc_key : Type} {L : WolfCrypt ecc_key}.

(** A call that takes the real path (no simulation, or the state is not
    0) does not answer [WC_PENDING_E]. *)
Lemma myEccSign_completing_ret async ssl input inSz out outSz key_ keySz
    (cb : PkCbInfo) w r o sz cb' w' :
  error_codes_ok E -> lib_never_pending L ->
  async && (state cb =? 0) = false ->
  myEccSign async ssl input inSz out outSz key_ keySz cb w = Ok (r, o, sz, cb') w' ->
  r <> WC_PENDING_E.
Proof.
  intros Hcodes (Hpem & Hinit & Hdec & Hsign) Hcond H.
  apply pending_distinct in Hcodes.
  unfold myEccSign in H. inv_bind H as ? Hp. rewrite Hcond in H.
  inv_bind H as [[r0 keyBuf] keySz'] Hload.
  inv_bind H as [[[r1 o1] s1] k1] Hbody.
  inv_bind H as ? Hfree. inv_bind H as ? Hp2. inv_ret H.
  apply load_key_file_ret in Hload.
  destruct (r0 =? 0) eqn:Hr0.
  - destruct (wc_ecc_init (key cb)) as [ri ki] eqn:Hi.
    inv_bind Hbody as ? Hl1.
    destruct (ri =? 0).
    + inv_bind Hbody as der Hder.
      destruct (wc_EccPrivateKeyDecode der 0 ki keySz') as [rd kd] eqn:Hd.
      inv_bind Hbody as ? Hl2.
      inv_bind Hbody as [[r3 o3] s3] Hin.
      inv_bind Hbody as ? Hl3. inv_ret Hbody.
      destruct (rd =? 0).
      * inv_bind Hin as ? Hl4. inv_bind Hin as ? Hl5.
        destruct (wc_ecc_sign_hash input inSz out outSz (wolfSSL_GetRNG ssl) kd)
          as [[rs os] ss] eqn:Hs.
        inv_bind Hin as ? Hl6. inv_ret Hin.
        specialize (Hsign input inSz out outSz (wolfSSL_GetRNG ssl) kd).
        by rewrite Hs in Hsign.
      * inv_ret Hin. specialize (Hdec der 0 ki keySz'). by rewrite Hd in Hdec.
    + inv_ret Hbody. specialize (Hinit (key cb)). by rewrite Hi in Hinit.
  - inv_ret Hbody. destruct Hload as [Hin | (pem & a & b & ->)]; [| apply Hpem].
    intros ->. done.
Qed.

(** A call that answers [WC_PENDING_E] took the simulation branch. *)
Lemma myEccSign_pending_inv async ssl input inSz out outSz key_ keySz
    (cb : PkCbInfo) w o sz cb' w' :
  error_codes_ok E -> lib_never_pending L ->
  myEccSign async ssl input inSz out outSz key_ keySz cb w
    = Ok (WC_PENDING_E, o, sz, cb') w' ->
  async = true /\ state cb = 0
  /\ cb' = {| keyFile := keyFile cb; key := key cb; state := 1 |}.
Proof.
  intros Hcodes Hlib H.
  destruct (async && (state cb =? 0)) eqn:Hcond.
  - apply andb_true_iff in Hcond as [-> Hst]. apply Z.eqb_eq in Hst.
    unfold myEccSign in H. inv_bind H as ? Hp. simpl in H.
    rewrite Hst in H. simpl in H. inv_bind H as ? Hp2. inv_ret H. done.
  - by eapply myEccSign_completing_ret in H.
Qed.

(** The state a call leaves behind when it returns something other than
    [WC_PENDING_E]. *)
Lemma myEccSign_state async ssl input inSz out outSz key_ keySz
    (cb : PkCbInfo) w r o sz cb' w' :
  myEccSign async ssl input inSz out outSz key_ keySz cb w = Ok (r, o, sz, cb') w' ->
  r <> WC_PENDING_E ->
  state cb' = (if async then 0 else state cb) /\ keyFile cb' = keyFile cb.
Proof.
  unfold myEccSign. intros H Hr.
  inv_bind H as ? Hp.
  destruct (async && (state cb =? 0)).
  - inv_bind H as ? Hp2. inv_ret H. done.
  - inv_bind H as [[r0 keyBuf] keySz'] Hload.
    inv_bind H as [[[r1 o1] s1] k1] Hbody.
    inv_bind H as ? Hfree. inv_bind H as ? Hp2. inv_ret H. done.
Qed.

(** A call on the real path tries to open the key file. *)
Lemma myEccSign_opens_key_file async ssl input inSz out outSz key_ keySz
    (cb : PkCbInfo) path w :
  async && (state cb =? 0) = false ->
  keyFile cb = Some path ->
  exists ok, occurs (EvFopen path ok)
               (myEccSign async ssl input inSz out outSz key_ keySz cb) w.
Proof.
  intros Hcond Hpath. eexists. unfold myEccSign. rewrite Hcond, Hpath.
  eapply occurs_bind_r; [reflexivity | by apply emits_emit |].
  apply occurs_bind_l.
  - unfold load_key_file. apply occurs_bind_l.
    + unfold load_file. apply occurs_bind_l.
      * eexists [_]. split; [reflexivity |]. apply list_elem_of_singleton. reflexivity.
      * intros [f |]; repeat emits_step; done.
    + intros [[r buf] bufLen]. repeat emits_step; done.
  - intros [[r keyBuf] keySz']. apply emits_bind.
    + repeat emits_step; done.
    + intros [[[? ?] ?] ?]. repeat emits_step; done.
Qed.

(** C1. In a build with [WOLFSSL_ASYNC_CRYPT], a call of the sign
    callback on a context whose state is 0 (Idle) returns [WC_PENDING_E]
    at once and leaves the state at 1 (Pending): the output buffer, the
    key object and the file name are untouched, the world differs only by
    two [printf] lines, so no file is opened or read, nothing is
    allocated or freed and no wolfCrypt function is called. *)
Theorem myEccSign_idle_returns_pending ssl input inSz out outSz key_ keySz
    (cb : PkCbInfo) w :
  state cb = 0 ->
  let evs := [EvPrintf "PK ECC Sign: inSz %u, keySz %u";
              EvPrintf "PK ECC Sign: Async Simulate"] in
  myEccSign true ssl input inSz out outSz key_ keySz cb w
    = Ok (WC_PENDING_E, out, outSz,
          {| keyFile := keyFile cb; key := key cb; state := 1 |})
         (set_trace (trace w ++ evs) w)
  /\ Forall (fun e => is_file_access e = false /\ is_crypto e = false) evs.
Proof.
  intros Hst evs. split.
  - unfold myEccSign, bind, printf, emit, ret. simpl.
    rewrite Hst. simpl. by rewrite <- app_assoc.
  - repeat constructor.
Qed.

(** In a build without [WOLFSSL_ASYNC_CRYPT] no statement of the
    callback writes the state: it is on return what it was on entry. *)
Lemma myEccSign_state_kept_without_async ssl input inSz out outSz key_ keySz
    (cb : PkCbInfo) w r o sz cb' w' :
  myEccSign false ssl input inSz out outSz key_ keySz cb w = Ok (r, o, sz, cb') w' ->
  state cb' = state cb.
Proof.
  unfold myEccSign. intros H. inv_bind H as ? Hp. simpl in H.
  inv_bind H as [[r0 keyBuf] keySz'] Hload.
  inv_bind H as [[[r1 o1] s1] k1] Hbody.
  inv_bind H as ? Hfree. inv_bind H as ? Hp2. inv_ret H. done.
Qed.


(** What a call leaves in the output buffer: what was there, or the
    result of [wc_ecc_sign_hash] with the generator of the session. *)
Lemma myEccSign_output async ssl input inSz out outSz key_ keySz
    (cb : PkCbInfo) w r o sz cb' w' :
  myEccSign async ssl input inSz out outSz key_ keySz cb w = Ok (r, o, sz, cb') w' ->
  (o = out /\ sz = outSz)
  \/ exists k, (r, o, sz) = wc_ecc_sign_hash input inSz out outSz (wolfSSL_GetRNG ssl) k.
Proof.
  unfold myEccSign. intros H. inv_bind H as ? Hp.
  destruct (async && (state cb =? 0)).
  { inv_bind H as ? Hp2. inv_ret H. by left. }
  inv_bind H as [[r0 keyBuf] keySz'] Hload.
  inv_bind H as [[[r1 o1] s1] k1] Hbody.
  inv_bind H as ? Hfree. inv_bind H as ? Hp2. inv_ret H.
  destruct (r0 =? 0); [| inv_ret Hbody; by left].
  destruct (wc_ecc_init (key cb)) as [ri ki].
  inv_bind Hbody as ? Hl1.
  destruct (ri =? 0); [| inv_ret Hbody; by left].
  inv_bind Hbody as der Hder.
  destruct (wc_EccPrivateKeyDecode der 0 ki keySz') as [rd kd].
  inv_bind Hbody as ? Hl2.
  inv_bind Hbody as [[r3 o3] s3] Hin.
  inv_bind Hbody as ? Hl3. inv_ret Hbody.
  destruct (rd =? 0); [| inv_ret Hin; by left].
  inv_bind Hin as ? Hl4. inv_bind Hin as ? Hl5.
  destruct (wc_ecc_sign_hash input inSz out outSz (wolfSSL_GetRNG ssl) kd)
    as [[rs os] ss] eqn:Hs.
  inv_bind Hin as ? Hl6. inv_ret Hin.
  right. exists kd. by rewrite Hs.
Qed.

(** Whatever the outcome of a call of the callback for session [ssl],
    among the events it adds there is no creation of a random generator,
    every generator it asks for is the one of [ssl], and every call of
    [wc_ecc_sign_hash] is made with that generator; when the call
    returns, the output buffer is as it was or holds the result of
    [wc_ecc_sign_hash] with that generator. *)
Lemma myEccSign_rng_events async ssl input inSz out outSz key_ keySz
    (cb : PkCbInfo) w :
  let run := myEccSign async ssl input inSz out outSz key_ keySz cb w in
  (exists evs,
     trace (final run) = trace w ++ evs
     /\ (CallInitRng ∉ lib_calls evs)
     /\ (forall s rng, CallGetRNG s rng ∈ lib_calls evs ->
           s = ssl /\ rng = wolfSSL_GetRNG ssl)
     /\ (forall rng r, CallEccSignHash rng r ∈ lib_calls evs ->
           rng = wolfSSL_GetRNG ssl
           /\ exists k, r = fst (fst (wc_ecc_sign_hash input inSz out outSz
                                        (wolfSSL_GetRNG ssl) k))))
  /\ (forall r o sz cb' w',
        run = Ok (r, o, sz, cb') w' ->
        (o = out /\ sz = outSz)
        \/ exists k, (r, o, sz)
                     = wc_ecc_sign_hash input inSz out outSz (wolfSSL_GetRNG ssl) k).
Proof.
  intros run. split; [| intros r o sz cb' w'; apply myEccSign_output].
  destruct (myEccSign_emits async ssl input inSz out outSz key_ keySz cb w)
    as (evs & Ht & Hall).
  exists evs. split; [done |].
  rewrite Forall_forall in Hall.
  split; [| split].
  - intros Hin%elem_of_lib_calls. by apply Hall in Hin.
  - intros s rng Hin%elem_of_lib_calls. by apply Hall in Hin.
  - intros rng r Hin%elem_of_lib_calls. by apply Hall in Hin.
Qed.

End Claims.

(* ===================================================================== *)
(** * Ownership of the key material                                      *)
(* ===================================================================== *)

Lemma frees_nil_of_Forall evs :
  Forall (fun e => is_crypto e = false /\ frees [e] = []) evs -> frees evs = [].
Proof.
  induction 1 as [| e evs [_ He] _ IH]; [done |].
  change (e :: evs) with ([e] ++ evs). by rewrite frees_app, He, IH.
Qed.

Section Ownership.

Context {E : ErrorCodes}.
Context {ecc_key : Type} {L : WolfCrypt ecc_key}.

(** [load_file] does not free anything. *)
Lemma load_file_frees fname buf bufLen w :
  frees (trace (final (load_file fname buf bufLen w))) = frees (trace w).
Proof.
  destruct (load_file_emits fname buf bufLen w) as (evs & -> & Hevs).
  by rewrite frees_app, (frees_nil_of_Forall _ Hevs), app_nil_r.
Qed.

(** When [load_file] fails, [load_key_file] returns its code and leaves
    [*derBuf] and [*derLen] as they were. *)
Lemma load_key_file_load_failure fname derBuf derLen w r b l w1 :
  load_file fname (Some NULL) (Some 0) w = Ok (r, b, l) w1 ->
  r <> 0 ->
  load_key_file fname derBuf derLen w = Ok (r, derBuf, derLen) w1.
Proof.
  intros Hload Hr%Z.eqb_neq. unfold load_key_file, bind.
  rewrite Hload. simpl. by rewrite Hr.
Qed.

(** C10, as amended.  In a call on the real path, when [load_file]
    fails (the return code [r] is not 0), [load_key_file] returns that
    code before it assigns [*derBuf]: [keyBuf] is still the [key]
    argument of the caller, and it is the one pointer the callback passes
    to [free], on its way out. *)
Theorem myEccSign_frees_caller_key async ssl input inSz out outSz key_ keySz
    (cb : PkCbInfo) w r b l w1 :
  async && (state cb =? 0) = false ->
  load_file (keyFile cb) (Some NULL) (Some 0) (entered w) = Ok (r, b, l) w1 ->
  r <> 0 ->
  load_key_file (keyFile cb) key_ keySz (entered w) = Ok (r, key_, keySz) w1
  /\ frees (trace (final (myEccSign async ssl input inSz out outSz key_ keySz cb w)))
     = frees (trace w) ++ [key_].
Proof.
  intros Hcond Hload Hr.
  assert ((r =? 0) = false) as Hr0 by (by apply Z.eqb_neq).
  pose proof (load_key_file_load_failure _ key_ keySz _ _ _ _ _ Hload Hr) as Hkey.
  split; [done |].
  assert (frees (trace w1) = frees (trace w)) as Hw1.
  { pose proof (load_file_frees (keyFile cb) (Some NULL) (Some 0) (entered w)) as Hf.
    rewrite Hload in Hf. simpl in Hf. rewrite Hf, frees_app. simpl.
    by rewrite app_nil_r. }
  unfold myEccSign.
  rewrite (final_bind_Ok _ _ w tt (entered w)) by done.
  rewrite Hcond.
  rewrite (final_bind_Ok _ _ _ _ _ Hkey).
  rewrite Hr0.
  rewrite (final_bind_Ok _ _ w1 (r, out, outSz, key cb) w1) by done.
  unfold bind, free.
  destruct (key_ =? NULL); [| destruct (heap w1 !! key_)]; simpl;
    rewrite ?frees_app, Hw1; simpl; by rewrite ?app_nil_r.
Qed.

(** The whole of the path taken when the key file cannot be opened:
    the callback passes the [key] pointer of its caller to [free].  It
    returns [BAD_PATH_ERROR], with the state reset in a build with
    [WOLFSSL_ASYNC_CRYPT], when that pointer is [NULL] or the start of a
    live block (which it then has released); on any other pointer the
    call ends in [free]. *)
Lemma myEccSign_missing_key_file async ssl input inSz out outSz key_ keySz
    (cb : PkCbInfo) path w :
  error_codes_ok E ->
  async && (state cb =? 0) = false ->
  keyFile cb = Some path ->
  fs w !! path = None ->
  match myEccSign async ssl input inSz out outSz key_ keySz cb w with
  | Ok (r, o, sz, cb') w' =>
      r = BAD_PATH_ERROR /\ o = out /\ sz = outSz
      /\ state cb' = (if async then 0 else state cb)
      /\ (key_ = NULL /\ heap w' = heap w
          \/ is_Some (heap w !! key_) /\ heap w' = delete key_ (heap w))
  | Crash f w' => f = InvalidFree key_ /\ key_ <> NULL /\ heap w !! key_ = None
  end.
Proof.
  intros (_ & Hbpe & _)%codes_nonzero Hcond Hpath Hfs.
  pose proof (load_file_not_found path NULL 0 (entered w) Hfs) as Hload.
  pose proof (load_key_file_load_failure _ key_ keySz _ _ _ _ _ Hload Hbpe) as Hkey.
  apply Z.eqb_neq in Hbpe.
  unfold myEccSign.
  rewrite (bind_Ok_run _ _ w tt (entered w)) by done.
  rewrite Hcond, Hpath, (bind_Ok_run _ _ _ _ _ Hkey), Hbpe.
  unfold bind, free, ret, printf, emit, set_trace, set_heap. simpl.
  destruct (key_ =? NULL) eqn:Hnull; simpl.
  - apply Z.eqb_eq in Hnull. split_and!; try done. by left.
  - apply Z.eqb_neq in Hnull.
    destruct (heap w !! key_) eqn:Hlive; simpl.
    + split_and!; try done. right. by split; [eexists |].
    + done.
Qed.

(** The path taken when the key file is opened but cannot be read
    back, for a caller that passes no key ([NULL]): the callback returns
    -1 and the buffer that [load_file] allocated is still in the heap. *)
Lemma myEccSign_read_failure_leaks async ssl input inSz out outSz keySz
    (cb : PkCbInfo) path w f :
  async && (state cb =? 0) = false ->
  keyFile cb = Some path ->
  fs w !! path = Some f -> 0 < to_int (ftell f) ->
  malloc_ok w (n_malloc w) = true -> f_read_ok f = false ->
  exists cb' w',
    myEccSign async ssl input inSz out outSz NULL keySz cb w = Ok (-1, out, outSz, cb') w'
    /\ heap w' = <[Z.pos (next_addr w) := {| b_size := to_int (ftell f); b_data := [] |}]>
                   (heap w).
Proof.
  intros Hcond Hpath Hfs Hlen Hmalloc Hread.
  destruct (load_file_read_failure path NULL 0 (entered w) f Hfs Hlen Hmalloc Hread)
    as (w1 & Hload & Hheap).
  pose proof (load_key_file_load_failure _ NULL keySz _ _ _ _ _ Hload ltac:(done)) as Hkey.
  unfold myEccSign.
  rewrite (bind_Ok_run _ _ w tt (entered w)) by done.
  rewrite Hcond, Hpath, (bind_Ok_run _ _ _ _ _ Hkey).
  unfold bind, free, ret, printf, emit, set_trace, set_heap. simpl.
  do 2 eexists. split; [reflexivity |]. exact Hheap.
Qed.

End Ownership.

Section Concrete.

Import Toy.
#[local] Existing Instance wolfssl_codes.
#[local] Existing Instance toy_lib.

Lemma wolfssl_codes_ok : error_codes_ok wolfssl_codes.
Proof.
  split.
  - repeat constructor; simpl; lia.
  - simpl. rewrite !NoDup_cons, !elem_of_cons, !elem_of_nil.
    repeat split; try lia. apply NoDup_nil_2.
Qed.

Lemma toy_lib_never_pending : lib_never_pending toy_lib.
Proof.
  repeat split; simpl.
  - intros pem a b. destruct pem as [| [] ?]; simpl; lia.
  - lia.
  - intros d i k n. destruct d; simpl; lia.
  - lia.
Qed.

(** C1, at the context of [main] before the first signature. *)
Lemma myEccSign_idle_returns_pending_witness :
  state myCtx0 = 0
  /\ myEccSign true 100 digest 2 [] 72 NULL 0 myCtx0 world0
     = Ok (WC_PENDING_E, [], 72,
           {| keyFile := keyFile myCtx0; key := key myCtx0; state := 1 |})
          (set_trace (trace world0 ++
             [EvPrintf "PK ECC Sign: inSz %u, keySz %u";
              EvPrintf "PK ECC Sign: Async Simulate"]) world0).
Proof.
  split; [reflexivity |].
  apply (myEccSign_idle_returns_pending 100 digest 2 [] 72 NULL 0 myCtx0 world0).
  reflexivity.
Defined.


(** C4 (defect).  The key file does not exist, the context is in state
    1 and [key] is the key buffer of the engine: [load_key_file] fails
    with [BAD_PATH_ERROR] and leaves [keyBuf] as it was, and the callback
    passes the pointer of the engine to [free].  It is not the start of a
    heap block: the call ends in undefined behaviour, before the state is
    reset and before anything is returned. *)
Theorem myEccSign_missing_key_file_invalid_free :
  let w := world_with ∅ in
  fs w !! "/nonexistent" = None
  /\ myEccSign true 100 digest 2 [] 72 engine_key 3 (ctx_at "/nonexistent" 1) w
     = Crash (InvalidFree engine_key)
         (set_trace [EvPrintf "PK ECC Sign: inSz %u, keySz %u";
                     EvFopen "/nonexistent" false;
                     EvPrintf "Error loading %s";
                     EvFree engine_key] w).
Proof. split; [reflexivity | vm_compute; reflexivity]. Qed.

(** The same call when [key] is the start of a heap block of the engine:
    the callback returns [BAD_PATH_ERROR] and that block is gone. *)
Lemma myEccSign_missing_key_file_releases_engine_block :
  let w := world_with ∅ in
  exists o sz cb' w',
    myEccSign true 100 digest 2 [] 72 der_block 3 (ctx_at "/nonexistent" 1) w
      = Ok (BAD_PATH_ERROR, o, sz, cb') w'
    /\ is_Some (heap w !! der_block)
    /\ heap w' !! der_block = None.
Proof.
  do 4 eexists. split; [vm_compute; reflexivity |].
  split; [by eexists | reflexivity].
Qed.

(** C5 (defect).  The key file can be opened but not read: [load_file]
    returns -1 with its buffer allocated, [load_key_file] returns without
    freeing it, and the callback frees only [keyBuf] (here [NULL]).  The
    block allocated for the file is still live when the callback has
    returned. *)
Theorem myEccSign_read_failure_leaks_buffer :
  let w := world_with {[ KEY_FILE := unreadable ]} in
  exists o sz cb' w',
    myEccSign true 100 digest 2 [] 72 NULL 0 (ctx_at KEY_FILE 1) w
      = Ok (-1, o, sz, cb') w'
    /\ frees (trace w') = [NULL]
    /\ heap w !! 16384 = None
    /\ heap w' !! 16384 = Some {| b_size := 4; b_data := [] |}.
Proof.
  do 4 eexists. split; [vm_compute; reflexivity |].
  repeat split; reflexivity.
Qed.

(** On a key file that is not PEM the DER buffer is freed twice, by
    [load_key_file] and by the callback. *)
Lemma myEccSign_bad_pem_double_free :
  let w := world_with {[ KEY_FILE := not_pem ]} in
  exists w',
    myEccSign true 100 digest 2 [] 72 NULL 0 (ctx_at KEY_FILE 1) w
      = Crash (InvalidFree 16387) w'
    /\ frees (trace w') = [16384; 16387; 16387].
Proof. eexists. split; [vm_compute; reflexivity | reflexivity]. Qed.

(** C6 (defect).  On a file of 2^32 + 1 bytes the length is cut to 1 by
    the conversion to [int]: [load_file] returns 0 with a buffer of one
    byte. *)
Theorem load_file_truncates_long_file :
  let w := world_with {[ "big" := huge ]} in
  exists w',
    load_file (Some "big") (Some NULL) (Some 0) w = Ok (0, Some 16384, Some 1) w'
    /\ heap w' !! 16384 = Some {| b_size := 1; b_data := ["k"%byte] |}
    /\ f_len huge = 4294967297%N.
Proof. eexists. split; [vm_compute; reflexivity |]. split; reflexivity. Qed.

(** C10, as stated, fails when [load_key_file] fails after it has
    allocated the DER buffer: on a key file that is not PEM it returns an
    error with [keyBuf] set to the DER buffer it has just freed, and the
    pointer the callback passes to [free] on its way out is that one, not
    the [key] argument. *)
Lemma load_key_file_failure_reassigns_keyBuf :
  let w := world_with {[ KEY_FILE := not_pem ]} in
  let cb := ctx_at KEY_FILE 1 in
  exists r d l w1 w',
    load_key_file (keyFile cb) engine_key 3 (entered w) = Ok (r, d, l) w1
    /\ r <> 0
    /\ d <> engine_key
    /\ myEccSign true 100 digest 2 [] 72 engine_key 3 cb w = Crash (InvalidFree d) w'
    /\ last (frees (trace w')) = Some d.
Proof.
  do 5 eexists. split; [vm_compute; reflexivity |].
  split; [done |]. split; [done |].
  split; [vm_compute; reflexivity | reflexivity].
Qed.

(** C10 as amended, at a key file that does not exist. *)
Lemma myEccSign_frees_caller_key_witness :
  let w := world_with ∅ in
  let cb := ctx_at "/nonexistent" 1 in
  exists w1,
    load_file (keyFile cb) (Some NULL) (Some 0) (entered w)
      = Ok (BAD_PATH_ERROR, Some NULL, Some 0) w1
    /\ load_key_file (keyFile cb) engine_key 3 (entered w)
       = Ok (BAD_PATH_ERROR, engine_key, 3) w1
    /\ frees (trace (final (myEccSign true 100 digest 2 [] 72 engine_key 3 cb w)))
       = frees (trace w) ++ [engine_key].
Proof.
  intros w cb. eexists.
  assert (BAD_PATH_ERROR <> 0) as Hr by done.
  assert (true && (state cb =? 0) = false) as Hcond by reflexivity.
  split; [vm_compute; reflexivity |].
  refine (myEccSign_frees_caller_key true 100 digest 2 [] 72 engine_key 3 cb w
            BAD_PATH_ERROR (Some NULL) (Some 0) _ Hcond _ Hr).
  vm_compute. reflexivity.
Defined.

End Concrete.

(* ===================================================================== *)
(** * The handshake loop and the callback context of [main]              *)
(* ===================================================================== *)

Section ServerClaims.

Context {E : ErrorCodes}.
Context {ecc_key : Type}.
Variable Session : Type.
Variable wolfSSL_accept : Session * PkCbInfo (ecc_key := ecc_key) -> Z * (Session * PkCbInfo (ecc_key := ecc_key)).
Variable wolfSSL_get_error : Session -> Z -> Z.
Variable WOLFSSL_SUCCESS : Z.
Variable myCtx_addr : ptr.
Variable zero_key : ecc_key.

#[local] Abbreviation session_after := (session_after Session wolfSSL_accept).
#[local] Abbreviation attempt := (attempt Session wolfSSL_accept wolfSSL_get_error).
#[local] Abbreviation attempt_err := (attempt_err Session wolfSSL_accept wolfSSL_get_error).
#[local] Abbreviation accept_loop := (accept_loop Session wolfSSL_accept wolfSSL_get_error).
#[local] Abbreviation establish := (establish Session wolfSSL_accept wolfSSL_get_error WOLFSSL_SUCCESS).
#[local] Abbreviation serve := (serve Session wolfSSL_accept wolfSSL_get_error WOLFSSL_SUCCESS myCtx_addr).
#[local] Abbreviation in_order' := (in_order myCtx_addr).
#[local] Abbreviation main := (main Session wolfSSL_accept wolfSSL_get_error WOLFSSL_SUCCESS myCtx_addr zero_key).

Lemma session_after_shift n s :
  session_after n (snd (wolfSSL_accept s)) = session_after (S n) s.
Proof. induction n as [| n IH]; [done |]. simpl in *. by rewrite IH. Qed.

Lemma attempt_shift n s : attempt n (snd (wolfSSL_accept s)) = attempt (S n) s.
Proof. unfold attempt. by rewrite session_after_shift. Qed.

Lemma attempt_0 s :
  attempt 0 s = (fst (wolfSSL_accept s),
                 wolfSSL_get_error (fst (snd (wolfSSL_accept s))) (fst (wolfSSL_accept s)),
                 snd (wolfSSL_accept s)).
Proof. unfold attempt. simpl. by destruct (wolfSSL_accept s). Qed.

Lemma accept_loop_S fuel s :
  accept_loop (S fuel) s =
  let ret := fst (wolfSSL_accept s) in
  let s' := snd (wolfSSL_accept s) in
  let err := wolfSSL_get_error (fst s') ret in
  if err =? WC_PENDING_E then accept_loop fuel s' else Some (ret, err, s').
Proof. simpl. by destruct (wolfSSL_accept s). Qed.

(** The loop is left by call number [n] exactly when that is the first
    call whose error is not [WC_PENDING_E]. *)
Lemma accept_loop_spec fuel s ret err s' :
  accept_loop fuel s = Some (ret, err, s') <->
  exists n, (n < fuel)%nat
    /\ (forall i, (i < n)%nat -> attempt_err i s = WC_PENDING_E)
    /\ attempt n s = (ret, err, s')
    /\ err <> WC_PENDING_E.
Proof.
  revert s. induction fuel as [| fuel IH]; intros s.
  { simpl. split; [done | intros (n & Hn & _); lia]. }
  rewrite accept_loop_S. cbv zeta.
  pose proof (attempt_0 s) as H0.
  destruct (wolfSSL_get_error (fst (snd (wolfSSL_accept s))) (fst (wolfSSL_accept s))
              =? WC_PENDING_E) eqn:Herr.
  - apply Z.eqb_eq in Herr. rewrite IH. split.
    + intros (n & Hn & Hpend & Hatt & Hne).
      exists (S n). split; [lia |]. split; [| by rewrite <- attempt_shift].
      intros [| i] Hi.
      * unfold attempt_err. by rewrite H0.
      * unfold attempt_err. rewrite <- attempt_shift. apply Hpend. lia.
    + intros ([| n] & Hn & Hpend & Hatt & Hne).
      * rewrite H0 in Hatt. by simplify_eq.
      * exists n. split; [lia |]. split; [| by rewrite attempt_shift].
        intros i Hi. unfold attempt_err. rewrite attempt_shift. apply Hpend. lia.
  - apply Z.eqb_neq in Herr. split.
    + intros [= <- <- <-]. exists 0%nat. split; [lia |]. split; [intros; lia |].
      by rewrite H0.
    + intros ([| n] & Hn & Hpend & Hatt & Hne).
      * rewrite H0 in Hatt. by f_equal.
      * specialize (Hpend 0%nat ltac:(lia)). unfold attempt_err in Hpend.
        rewrite H0 in Hpend. done.
Qed.

(** C7. The loop around [wolfSSL_accept] is left with the outcome of
    call number [n] exactly when every earlier call on the session ended
    with error [WC_PENDING_E] and call [n] did not: a pending call is
    followed by another call on the session as the previous one left it.
    The connection is given up only with an error other than
    [WC_PENDING_E], on a return value other than [WOLFSSL_SUCCESS]. *)
Theorem accept_loop_retries_while_pending fuel s :
  (forall ret err s',
     accept_loop fuel s = Some (ret, err, s') <->
     exists n, (n < fuel)%nat
       /\ (forall i, (i < n)%nat -> attempt_err i s = WC_PENDING_E)
       /\ attempt n s = (ret, err, s')
       /\ err <> WC_PENDING_E)
  /\ (forall ret err,
        establish fuel s = Some (inl (ret, err)) ->
        err <> WC_PENDING_E /\ ret <> WOLFSSL_SUCCESS).
Proof.
  split; [intros; apply accept_loop_spec |].
  intros ret err. unfold establish.
  destruct (accept_loop fuel s) as [[[ret0 err0] s0] |] eqn:Hloop; [| done].
  apply accept_loop_spec in Hloop as (n & _ & _ & _ & Hne).
  destruct (ret0 =? WOLFSSL_SUCCESS) eqn:Hret; simpl; [done |].
  intros [= <- <-]. by apply Z.eqb_neq in Hret.
Qed.

Lemma in_order_mono att att' freed freed' l :
  att ⊆ att' -> freed ⊆ freed' -> in_order' att freed l -> in_order' att' freed' l.
Proof.
  revert att att' freed freed'.
  induction l as [| e l IH]; intros att att' freed freed' Ha Hf H; [done |].
  assert (forall (n : nat) (s s' : list nat), s ⊆ s' -> n :: s ⊆ n :: s') as Hcons.
  { intros n s s' Hs x Hx. apply elem_of_cons in Hx as [-> | Hx];
      [apply list_elem_of_here | by apply list_elem_of_further, Hs]. }
  destruct e; simpl in *; try done.
  - destruct H as [Hm H]. split; [intros m Hn; by apply Hf, Hm | by eapply IH].
  - by eapply IH.
  - destruct H as [-> H]. split; [done |]. eapply IH; [| | exact H]; auto.
  - destruct H as [Hin H]. split; [by apply Ha | by eapply IH].
  - eapply IH; [| | exact H]; auto.
Qed.

Lemma in_order_handshake att freed l1 l2 n ret err :
  in_order' att freed (l1 ++ MHandshake n ret err :: l2) ->
  n ∈ att \/ exists ssl, MSetEccSignCtx n ssl myCtx_addr ∈ l1.
Proof.
  revert att freed. induction l1 as [| e l1 IH]; intros att freed H; simpl in H.
  { left. by destruct H. }
  assert (forall e' : MainEvent,
            (exists ssl, MSetEccSignCtx n ssl myCtx_addr ∈ l1) ->
            exists ssl, MSetEccSignCtx n ssl myCtx_addr ∈ e' :: l1) as Hfurther.
  { intros e' [ssl Hin]. exists ssl. by apply list_elem_of_further. }
  destruct e; simpl in H; try done.
  - destruct H as [_ H]. destruct (IH _ _ H); auto.
  - destruct (IH _ _ H); auto.
  - destruct H as [-> H]. destruct (IH _ _ H) as [Hin | Hin]; [| auto].
    apply elem_of_cons in Hin as [-> | Hin]; [| by left].
    right. exists ssl. apply list_elem_of_here.
  - destruct H as [_ H]. destruct (IH _ _ H); auto.
  - destruct (IH _ _ H); auto.
Qed.

Lemma in_order_accept att freed l1 l2 n fd :
  in_order' att freed (l1 ++ MAccepted (S n) fd :: l2) ->
  n ∈ freed \/ exists ssl, MFree n ssl ∈ l1.
Proof.
  revert att freed. induction l1 as [| e l1 IH]; intros att freed H; simpl in H.
  { left. destruct H as [H _]. by apply H. }
  assert (forall e' : MainEvent,
            (exists ssl, MFree n ssl ∈ l1) -> exists ssl, MFree n ssl ∈ e' :: l1)
    as Hfurther.
  { intros e' [ssl Hin]. exists ssl. by apply list_elem_of_further. }
  destruct e; simpl in H; try done.
  - destruct H as [_ H]. destruct (IH _ _ H); auto.
  - destruct (IH _ _ H); auto.
  - destruct H as [_ H]. destruct (IH _ _ H); auto.
  - destruct H as [_ H]. destruct (IH _ _ H); auto.
  - destruct (IH _ _ H) as [Hin | Hin]; [| auto].
    apply elem_of_cons in Hin as [-> | Hin]; [| by left].
    right. exists ssl. apply list_elem_of_here.
Qed.

(** Closes the description of a log that ends with the events [evs]. *)
Ltac close_log evs :=
  exists evs; rewrite <- ?app_assoc; simpl;
  (split; [by rewrite ?app_nil_r |]); (split; [done |]);
  split;
  [ intros ? ? Hin;
    repeat (apply elem_of_cons in Hin as [Hin | Hin]; [by simplify_eq |]);
    by apply elem_of_nil in Hin
  | intros freed Hfreed; repeat split; solve [done | in_list] ].

(** What the loop of [main] adds to the log. *)
Lemma serve_log fuel conns : forall n myCtx log,
  exists evs,
    snd (serve fuel n conns myCtx log) = log ++ evs
    /\ created evs = []
    /\ (forall k ctx, (k, ctx) ∈ attached evs -> ctx = myCtx_addr)
    /\ (forall freed, (forall m, n = S m -> m ∈ freed) -> in_order' [] freed evs).
Proof.
  induction conns as [| c rest IH]; intros n myCtx log; simpl.
  { close_log (@nil MainEvent). }
  destruct (conn_fd c =? -1).
  { close_log (@nil MainEvent). }
  destruct (conn_ssl c =? NULL).
  { close_log [MAccepted n (conn_fd c)]. }
  pose (pre := [MAccepted n (conn_fd c); MNew n (conn_ssl c);
                MSetEccSignCtx n (conn_ssl c) myCtx_addr]).
  destruct (establish fuel (conn_session c, myCtx)) as [[[ret err] | [s myCtx']] |].
  - close_log (pre ++ [MHandshake n ret err]).
  - pose (hs := MHandshake n WOLFSSL_SUCCESS (wolfSSL_get_error s WOLFSSL_SUCCESS)).
    destruct (conn_read c =? -1).
    { close_log (pre ++ [hs]). }
    destruct (negb (conn_write c =? reply_len)).
    { close_log (pre ++ [hs]). }
    destruct (String.prefix "shutdown" (conn_data c)).
    { close_log (pre ++ [hs; MFree n (conn_ssl c)]). }
    destruct (IH (S n) myCtx'
                ((((log ++ [MAccepted n (conn_fd c)]) ++
                   [MNew n (conn_ssl c); MSetEccSignCtx n (conn_ssl c) myCtx_addr]) ++
                  [hs]) ++ [MFree n (conn_ssl c)]))
      as (evs & Hlog & Hcre & Hctx & Hord).
    exists (pre ++ [hs; MFree n (conn_ssl c)] ++ evs).
    subst pre hs. rewrite Hlog, <- !app_assoc. simpl.
    split; [done |]. split; [done |]. split.
    + intros k ctx Hin. apply elem_of_cons in Hin as [[= _ ->] | Hin]; [done |].
      by eapply Hctx.
    + intros freed Hfreed. split; [done |]. split; [done |].
      split; [apply list_elem_of_here |].
      eapply (in_order_mono [] _ (n :: freed)); [| done |].
      * intros x Hx. by apply elem_of_nil in Hx.
      * apply Hord. intros m [= <-]. apply list_elem_of_here.
  - close_log pre.
Qed.

(** C9, as amended.  [main] creates one callback context, once and
    before the first connection is accepted; the context attached to
    the session of a connection is always that one object, and it is
    attached before the handshake of the connection; a connection is
    accepted only after the session of the previous one has been freed,
    so that the context serves one connection at a time. *)
Theorem main_attaches_one_context fuel conns :
  let log := snd (main fuel conns) in
  (exists rest, log = MCtxInit myCtx_addr :: rest /\ created rest = [])
  /\ (forall n ctx, (n, ctx) ∈ attached log -> ctx = myCtx_addr)
  /\ (forall l1 l2 n ret err,
        log = l1 ++ MHandshake n ret err :: l2 ->
        exists ssl, MSetEccSignCtx n ssl myCtx_addr ∈ l1)
  /\ (forall l1 l2 n fd,
        log = l1 ++ MAccepted (S n) fd :: l2 ->
        exists ssl, MFree n ssl ∈ l1).
Proof.
  intros log. subst log. unfold main.
  destruct (serve_log fuel conns 0%nat
              {| keyFile := Some KEY_FILE; key := zero_key; state := 0 |}
              [MCtxInit myCtx_addr]) as (evs & -> & Hcre & Hctx & Hord).
  specialize (Hord [] ltac:(done)).
  simpl. split; [by exists evs |]. split; [exact Hctx |]. split.
  - intros [| e l1] l2 n ret err Heq; [done |].
    injection Heq as <- ->.
    apply in_order_handshake in Hord as [Hin | [ssl Hin]].
    + by apply elem_of_nil in Hin.
    + exists ssl. by apply list_elem_of_further.
  - intros [| e l1] l2 n fd Heq; [done |].
    injection Heq as <- ->.
    apply in_order_accept in Hord as [Hin | [ssl Hin]].
    + by apply elem_of_nil in Hin.
    + exists ssl. by apply list_elem_of_further.
Qed.

End ServerClaims.

Section ConcreteServer.

Import Toy.
#[local] Existing Instance wolfssl_codes.
#[local] Existing Instance toy_lib.

(** C7, on the stand-in engine: the first call of [wolfSSL_accept] ends
    with [WC_PENDING_E] (the callback simulates the deferred signature),
    the second completes the handshake, and the loop is left then. *)
Lemma accept_loop_retries_while_pending_witness :
  let s := ((world0, 0), myCtx0) in
  attempt_err ToySession toy_accept toy_get_error 0 s = WC_PENDING_E
  /\ exists s',
       attempt ToySession toy_accept toy_get_error 1 s = (1, 0, s')
       /\ accept_loop ToySession toy_accept toy_get_error 5 s = Some (1, 0, s').
Proof.
  intros s.
  assert (attempt_err ToySession toy_accept toy_get_error 0 s = WC_PENDING_E)
    as H0 by (vm_compute; reflexivity).
  split; [exact H0 |]. eexists.
  assert (0 <> WC_PENDING_E) as Hne by done.
  split; [vm_compute; reflexivity |].
  apply (proj1 (accept_loop_retries_while_pending
                  ToySession toy_accept toy_get_error 1 5%nat s)).
  exists 1%nat. split; [lia |]. split.
  - intros i Hi. assert (i = 0%nat) as -> by lia. exact H0.
  - split; [vm_compute; reflexivity | exact Hne].
Defined.

(** C9, as stated, fails: two clients are served one after the other,
    and the context attached to the session of the second is the object
    attached to the session of the first; one context was created. *)
Lemma main_shares_context_across_connections :
  let log := snd (toy_main 5 [client 4 500 "hello"; client 5 600 "shutdown"]) in
  attached log = [(0%nat, 1000); (1%nat, 1000)]
  /\ created log = [1000]
  /\ ~ (forall i j a b, (i, a) ∈ attached log -> (j, b) ∈ attached log ->
          i <> j -> a <> b).
Proof.
  intros log.
  assert (attached log = [(0%nat, 1000); (1%nat, 1000)]) as Ha
    by (vm_compute; reflexivity).
  split; [exact Ha |]. split; [vm_compute; reflexivity |].
  intros Hall. rewrite Ha in Hall.
  apply (Hall 0%nat 1%nat 1000 1000); [in_list | in_list | done | done].
Qed.

(** C9 as amended, at the same two clients. *)
Lemma main_attaches_one_context_witness :
  let log := snd (toy_main 5 [client 4 500 "hello"; client 5 600 "shutdown"]) in
  (exists rest, log = MCtxInit 1000 :: rest /\ created rest = [])
  /\ (forall n ctx, (n, ctx) ∈ attached log -> ctx = 1000)
  /\ (forall l1 l2 n ret err,
        log = l1 ++ MHandshake n ret err :: l2 ->
        exists ssl, MSetEccSignCtx n ssl 1000 ∈ l1)
  /\ (forall l1 l2 n fd,
        log = l1 ++ MAccepted (S n) fd :: l2 ->
        exists ssl, MFree n ssl ∈ l1).
Proof.
  exact (main_attaches_one_context ToySession toy_accept toy_get_error 1 1000 KeyZero
           5%nat [client 4 500 "hello"; client 5 600 "shutdown"]).
Defined.

(** A handshake that fails after the callback has run leaves in the
    context of [main] what the callback has written: here the key file
    holds no key, [wc_EccPrivateKeyDecode] fails, and the key object is
    the one [wc_ecc_free] has left. *)
Lemma main_context_after_failed_handshake :
  let w := {| fs := {[ KEY_FILE := bytes_file ["-"]%byte true ]};
              heap := ∅; next_addr := 4096; malloc_ok := fun _ => true;
              n_malloc := 0; trace := [] |} in
  let c := {| conn_fd := 4; conn_ssl := 500; conn_session := (w, 0);
              conn_read := 5; conn_data := "hello"; conn_write := reply_len |} in
  fst (toy_main 5 [c])
  = (Exited (-1), {| keyFile := Some KEY_FILE; key := KeyFreed; state := 0 |}).
Proof. vm_compute. reflexivity. Qed.

End ConcreteServer.

(* ===================================================================== *)
(** * Further properties of the key loader                               *)
(* ===================================================================== *)

(** Settles one equivalence between a return code and its cause. *)
Ltac solve_cause :=
  split;
  [ intros ?; first [ lia | (eexists; split_and!; first [done | lia]) ]
  | first [ intros (? & ? & ?); simplify_eq; first [done | lia | (destruct_and?; first [congruence | lia])]
          | intros ?; first [done | lia | congruence] ] ].

Section LoaderMore.

Context {E : ErrorCodes}.

(** [load_file] on non-[NULL] arguments, path by path. *)
Lemma load_file_cases path b l w :
  load_file (Some path) (Some b) (Some l) w =
  match fs w !! path with
  | None =>
      Ok (BAD_PATH_ERROR, Some NULL, Some 0)
         (set_trace (trace w ++ [EvFopen path false; EvPrintf "Error loading %s"]) w)
  | Some f =>
      let n := to_int (ftell f) in
      let p := Z.pos (next_addr w) in
      if 0 <? n then
        if malloc_ok w (n_malloc w) then
          if f_read_ok f then
            Ok (0, Some p, Some n)
               {| fs := fs w;
                  heap := <[p := {| b_size := n; b_data := file_prefix f n |}]> (heap w);
                  next_addr := (next_addr w + Z.to_pos n)%positive;
                  malloc_ok := malloc_ok w;
                  n_malloc := S (n_malloc w);
                  trace := trace w ++ [EvFopen path true; EvMalloc n p;
                                       EvFread n true; EvFclose] |}
          else
            Ok (-1, Some p, Some n)
               {| fs := fs w;
                  heap := <[p := {| b_size := n; b_data := [] |}]> (heap w);
                  next_addr := (next_addr w + Z.to_pos n)%positive;
                  malloc_ok := malloc_ok w;
                  n_malloc := S (n_malloc w);
                  trace := trace w ++ [EvFopen path true; EvMalloc n p;
                                       EvFread n false; EvFclose] |}
        else
          Ok (MEMORY_E, Some NULL, Some n)
             {| fs := fs w; heap := heap w; next_addr := next_addr w;
                malloc_ok := malloc_ok w;
                n_malloc := S (n_malloc w);
                trace := trace w ++ [EvFopen path true; EvMalloc n NULL;
                                     EvPrintf "Error allocating %lu bytes"; EvFclose] |}
      else
        Ok (BUFFER_E, Some NULL, Some 0)
           (set_trace (trace w ++ [EvFopen path true; EvFclose]) w)
  end.
Proof.
  unfold load_file, bind, fopen, fclose, printf, emit, ret, set_trace.
  destruct (fs w !! path) as [f |] eqn:Hfs; simpl.
  2: { by rewrite <- app_assoc. }
  destruct (0 <? to_int (ftell f)) eqn:Hlen; simpl.
  2: { by rewrite <- app_assoc. }
  unfold malloc. simpl.
  destruct (malloc_ok w (n_malloc w)) eqn:Hmalloc; simpl.
  2: { by rewrite <- !app_assoc. }
  unfold fread.
  assert ((to_int (ftell f) <=? ftell f) = true) as Hle.
  { apply Z.leb_le, to_int_le. unfold ftell. lia. }
  rewrite Hle, andb_true_r.
  destruct (f_read_ok f); unfold bind, store_block, emit, ret, set_trace, set_heap; simpl.
  - rewrite lookup_insert_eq. simpl. rewrite insert_insert_eq.
    by rewrite <- !app_assoc.
  - by rewrite <- !app_assoc.
Qed.

Lemma to_int_range z : - 2 ^ 31 <= to_int z < 2 ^ 31.
Proof. unfold to_int. pose proof (Z.mod_pos_bound (z + 2 ^ 31) (2 ^ 32)). lia. Qed.

Lemma to_int_nonpos z :
  to_int z <= 0 <-> z `mod` 2 ^ 32 = 0 \/ 2 ^ 31 <= z `mod` 2 ^ 32.
Proof.
  unfold to_int.
  pose proof (Z.mod_pos_bound z (2 ^ 32) ltac:(lia)) as Hm.
  rewrite (Z.div_mod z (2 ^ 32)) at 1 by lia.
  destruct (Z_lt_dec (z `mod` 2 ^ 32) (2 ^ 31)) as [Hlt | Hge].
  - replace (2 ^ 32 * (z `div` 2 ^ 32) + z `mod` 2 ^ 32 + 2 ^ 31)
      with (z `mod` 2 ^ 32 + 2 ^ 31 + (z `div` 2 ^ 32) * 2 ^ 32) by lia.
    rewrite Z.mod_add by lia. rewrite Z.mod_small by lia. lia.
  - replace (2 ^ 32 * (z `div` 2 ^ 32) + z `mod` 2 ^ 32 + 2 ^ 31)
      with (z `mod` 2 ^ 32 - 2 ^ 31 + (z `div` 2 ^ 32 + 1) * 2 ^ 32) by lia.
    rewrite Z.mod_add by lia. rewrite Z.mod_small by lia. lia.
Qed.

(** The allocator keeps its invariant: after [malloc], no block lies at
    or above the next address. *)
Lemma heap_fresh_alloc w n blk :
  heap_fresh w ->
  heap w !! Z.pos (next_addr w) = None
  /\ forall p, Z.pos (next_addr w + Z.to_pos n) <= p ->
       <[Z.pos (next_addr w) := blk]> (heap w) !! p = None.
Proof.
  intros Hfresh. split; [apply Hfresh; lia |].
  intros p Hp. rewrite lookup_insert_ne by lia. apply Hfresh. lia.
Qed.

(** X1. On a heap that respects the allocator's invariant (no block at
    or above the next address), and whatever its arguments, [load_file]
    returns: it never reads, writes or frees a block that is not live.
    It frees nothing.  The heap afterwards is the heap before, or the
    heap before with one more block: the one handed over in [*buf], at
    an address that held no block before the call, so that no block of
    the caller is lost or overwritten.  The invariant holds again
    afterwards. *)
Theorem load_file_is_memory_safe fname buf bufLen w :
  heap_fresh w ->
  exists r ob ol w',
    load_file fname buf bufLen w = Ok (r, ob, ol) w'
    /\ frees (trace w') = frees (trace w)
    /\ (heap w' = heap w
        \/ exists p blk,
             ob = Some p /\ heap w !! p = None
             /\ heap w' = <[p := blk]> (heap w))
    /\ (forall q blk, heap w !! q = Some blk -> heap w' !! q = Some blk)
    /\ heap_fresh w'.
Proof.
  intros Hfresh.
  destruct fname as [path |], buf as [b |], bufLen as [l |];
    try (do 4 eexists; split; [reflexivity |]; split_and!; by auto).
  rewrite load_file_cases.
  destruct (fs w !! path) as [f |]; simpl.
  2: { do 4 eexists. split; [reflexivity |]. simpl. rewrite frees_app. simpl.
       rewrite app_nil_r. split_and!; by auto. }
  destruct (0 <? to_int (ftell f)).
  2: { do 4 eexists. split; [reflexivity |]. simpl. rewrite frees_app. simpl.
       rewrite app_nil_r. split_and!; by auto. }
  destruct (malloc_ok w (n_malloc w)).
  2: { do 4 eexists. split; [reflexivity |]. simpl. rewrite frees_app. simpl.
       rewrite app_nil_r. split_and!; by auto. }
  destruct (f_read_ok f);
    (do 4 eexists; split; [reflexivity |]; simpl; rewrite frees_app; simpl;
     rewrite app_nil_r;
     match goal with
     | |- context [<[_ := ?blk]> (heap w)] =>
         destruct (heap_fresh_alloc w (to_int (ftell f)) blk Hfresh) as [Hnew Hrest]
     end;
     split_and!;
     [ done
     | right; do 2 eexists; split_and!; done
     | intros q blk' Hq; rewrite lookup_insert_ne; [done | by intros <-; rewrite Hnew in Hq]
     | exact Hrest ]).
Qed.

Lemma codes_distinct :
  error_codes_ok E ->
  BAD_FUNC_ARG < 0 /\ BAD_PATH_ERROR < 0 /\ MEMORY_E < 0 /\ BUFFER_E < 0
  /\ BAD_PATH_ERROR <> -1 /\ MEMORY_E <> -1 /\ BUFFER_E <> -1
  /\ BAD_PATH_ERROR <> MEMORY_E /\ BAD_PATH_ERROR <> BUFFER_E /\ MEMORY_E <> BUFFER_E.
Proof.
  intros [Hneg Hnd]. rewrite !Forall_cons in Hneg.
  rewrite !NoDup_cons, !elem_of_cons, !elem_of_nil in Hnd.
  destruct Hneg as (Ha & Hb & Hc & Hd & He & _).
  destruct Hnd as (H1 & H2 & H3 & H4 & H5 & _).
  split_and!; try done; intros Heq; rewrite ?Heq in *; tauto.
Qed.

(** X2. On non-[NULL] arguments the return code of [load_file] names the
    cause: [BAD_PATH_ERROR] exactly when the file cannot be opened,
    [BUFFER_E] exactly when its length is not positive as an [int],
    [MEMORY_E] exactly when the allocation fails, -1 exactly when the
    read fails, and 0 exactly when none of these happens. *)
Theorem load_file_code_names_cause path b l w r ob ol w' :
  error_codes_ok E ->
  load_file (Some path) (Some b) (Some l) w = Ok (r, ob, ol) w' ->
  (r = BAD_PATH_ERROR <-> fs w !! path = None)
  /\ (r = BUFFER_E <->
      exists f, fs w !! path = Some f /\ to_int (ftell f) <= 0)
  /\ (r = MEMORY_E <->
      exists f, fs w !! path = Some f /\ 0 < to_int (ftell f)
                /\ malloc_ok w (n_malloc w) = false)
  /\ (r = -1 <->
      exists f, fs w !! path = Some f /\ 0 < to_int (ftell f)
                /\ malloc_ok w (n_malloc w) = true /\ f_read_ok f = false)
  /\ (r = 0 <->
      exists f, fs w !! path = Some f /\ 0 < to_int (ftell f)
                /\ malloc_ok w (n_malloc w) = true /\ f_read_ok f = true).
Proof.
  intros (? & ? & ? & ? & ? & ? & ? & ? & ? & ?)%codes_distinct.
  rewrite load_file_cases.
  destruct (fs w !! path) as [f |] eqn:Hfs; simpl.
  2: { intros [= <- <- <- <-]. split_and!; solve_cause. }
  destruct (0 <? to_int (ftell f)) eqn:Hlen;
    [apply Z.ltb_lt in Hlen | apply Z.ltb_ge in Hlen].
  2: { intros [= <- <- <- <-]. split_and!; solve_cause. }
  destruct (malloc_ok w (n_malloc w)) eqn:Hmalloc.
  2: { intros [= <- <- <- <-]. split_and!; solve_cause. }
  destruct (f_read_ok f) eqn:Hread; intros [= <- <- <- <-];
    split_and!; solve_cause.
Qed.

(** X3. [load_file] closes the file exactly when it has opened it: among
    the events of a call there is at most one successful [fopen], and as
    many [fclose] as successful [fopen]. *)
Theorem load_file_closes_what_it_opens fname buf bufLen w :
  exists evs,
    trace (final (load_file fname buf bufLen w)) = trace w ++ evs
    /\ count is_close evs = count is_open evs
    /\ (count is_open evs <= 1)%nat.
Proof.
  destruct fname as [path |], buf as [b |], bufLen as [l |];
    try (exists []; simpl; rewrite app_nil_r; split_and!; by auto).
  rewrite load_file_cases.
  destruct (fs w !! path) as [f |]; simpl.
  2: { eexists. split; [reflexivity |]. split; cbv; lia. }
  destruct (0 <? to_int (ftell f)), (malloc_ok w (n_malloc w)), (f_read_ok f);
    eexists; (split; [reflexivity |]); split; cbv; lia.
Qed.

(** X4. When [load_file] returns 0, the length [*bufLen] is the length of
    the file as an [int], between 1 and 2^31 - 1 and not above the length
    of the file, and the block [*buf] holds exactly that many bytes: the
    first [*bufLen] bytes of the file, which are all its bytes when the
    file is shorter than 2^31 bytes. *)
Theorem load_file_success_is_int_prefix fname buf bufLen w ob ol w' :
  error_codes_ok E ->
  load_file fname buf bufLen w = Ok (0, ob, ol) w' ->
  exists path f n,
    fname = Some path /\ fs w !! path = Some f
    /\ n = to_int (ftell f) /\ 0 < n < 2 ^ 31 /\ n <= ftell f
    /\ ob = Some (Z.pos (next_addr w)) /\ ol = Some n
    /\ heap w' !! Z.pos (next_addr w)
       = Some {| b_size := n; b_data := file_prefix f n |}
    /\ Z.of_nat (length (file_prefix f n)) = n
    /\ (ftell f < 2 ^ 31 -> file_prefix f n = file_contents f).
Proof.
  intros (Hbfa & Hbpe & Hme & Hbe)%codes_nonzero H.
  destruct fname as [path |], buf as [b |], bufLen as [l |];
    try (by inv_ret H).
  rewrite load_file_cases in H.
  destruct (fs w !! path) as [f |] eqn:Hfs; simpl in H; [| by simplify_eq].
  destruct (0 <? to_int (ftell f)) eqn:Hlen; [| by simplify_eq].
  apply Z.ltb_lt in Hlen.
  destruct (malloc_ok w (n_malloc w)); [| by simplify_eq].
  destruct (f_read_ok f); [| by simplify_eq].
  injection H as <- <- <-.
  pose proof (to_int_range (ftell f)).
  assert (0 <= ftell f) by (unfold ftell; lia).
  pose proof (to_int_le (ftell f) ltac:(done)).
  exists path, f, (to_int (ftell f)). simpl.
  split_and!; try done; try lia.
  - by rewrite lookup_insert_eq.
  - rewrite length_file_prefix. lia.
  - intros Hsmall. unfold file_contents.
    by rewrite to_int_small by (unfold ftell in *; lia).
Qed.

(** X5. A file whose length, modulo 2^32, is 0 or at least 2^31 (an
    empty file, or one of 2 GiB up to 4 GiB - 1) is answered [BUFFER_E]:
    nothing is allocated or read, [*buf] is [NULL] and [*bufLen] is 0,
    and the file is closed. *)
Theorem load_file_rejects_nonpositive_int_length path b l w f :
  fs w !! path = Some f ->
  ftell f `mod` 2 ^ 32 = 0 \/ 2 ^ 31 <= ftell f `mod` 2 ^ 32 ->
  load_file (Some path) (Some b) (Some l) w
  = Ok (BUFFER_E, Some NULL, Some 0)
       (set_trace (trace w ++ [EvFopen path true; EvFclose]) w).
Proof.
  intros Hfs Hlen%to_int_nonpos. rewrite load_file_cases, Hfs. simpl.
  by destruct (0 <? to_int (ftell f)) eqn:Hpos; [apply Z.ltb_lt in Hpos; lia |].
Qed.

(** X6. After a call of [load_file] on non-[NULL] arguments, [*buf] is a
    live block exactly when the code is 0 or -1, and is [NULL] on every
    other code: after a failed read the block allocated for the file is
    still handed to the caller. *)
Theorem load_file_hands_over_block path b l w r ob ol w' :
  error_codes_ok E ->
  load_file (Some path) (Some b) (Some l) w = Ok (r, ob, ol) w' ->
  (r = 0 \/ r = -1 ->
   ob = Some (Z.pos (next_addr w)) /\ is_Some (heap w' !! Z.pos (next_addr w)))
  /\ (r <> 0 -> r <> -1 -> ob = Some NULL /\ heap w' = heap w).
Proof.
  intros (? & ? & ? & ? & ? & ? & ? & ? & ? & ?)%codes_distinct.
  rewrite load_file_cases.
  destruct (fs w !! path) as [f |] eqn:Hfs; simpl.
  2: { intros [= <- <- <- <-]. split; [intros [? | ?]; lia | done]. }
  destruct (0 <? to_int (ftell f)).
  2: { intros [= <- <- <- <-]. split; [intros [? | ?]; lia | done]. }
  destruct (malloc_ok w (n_malloc w)).
  2: { intros [= <- <- <- <-]. split; [intros [? | ?]; lia | done]. }
  destruct (f_read_ok f); intros [= <- <- <- <-]; simpl;
    (split; [intros _; split; [done |]; rewrite lookup_insert_eq; by eexists | done]).
Qed.

End LoaderMore.

Section LoaderMoreConcrete.

Import Toy.
#[local] Existing Instance wolfssl_codes.

(** X1, at the key file of [Toy.world0]. *)
Lemma load_file_is_memory_safe_witness :
  let w := world0 in
  heap_fresh w
  /\ exists r ob ol w',
       load_file (Some KEY_FILE) (Some NULL) (Some 0) w = Ok (r, ob, ol) w'
       /\ frees (trace w') = frees (trace w)
       /\ (heap w' = heap w
           \/ exists p blk,
                ob = Some p /\ heap w !! p = None
                /\ heap w' = <[p := blk]> (heap w))
       /\ (forall q blk, heap w !! q = Some blk -> heap w' !! q = Some blk)
       /\ heap_fresh w'.
Proof.
  intros w.
  assert (heap_fresh w) as Hfresh by (intros p _; reflexivity).
  split; [exact Hfresh |].
  exact (load_file_is_memory_safe (Some KEY_FILE) (Some NULL) (Some 0) w Hfresh).
Defined.

(** X2, at the key file of [Toy.world0]. *)
Lemma load_file_code_names_cause_witness :
  let w := world0 in
  let w' := final (load_file (Some KEY_FILE) (Some NULL) (Some 0) w) in
  error_codes_ok wolfssl_codes
  /\ load_file (Some KEY_FILE) (Some NULL) (Some 0) w = Ok (0, Some 4096, Some 4) w'
  /\ (0 = BAD_PATH_ERROR <-> fs w !! KEY_FILE = None)
  /\ (0 = BUFFER_E <->
      exists f, fs w !! KEY_FILE = Some f /\ to_int (ftell f) <= 0)
  /\ (0 = MEMORY_E <->
      exists f, fs w !! KEY_FILE = Some f /\ 0 < to_int (ftell f)
                /\ malloc_ok w (n_malloc w) = false)
  /\ (0 = -1 <->
      exists f, fs w !! KEY_FILE = Some f /\ 0 < to_int (ftell f)
                /\ malloc_ok w (n_malloc w) = true /\ f_read_ok f = false)
  /\ (0 = 0 <->
      exists f, fs w !! KEY_FILE = Some f /\ 0 < to_int (ftell f)
                /\ malloc_ok w (n_malloc w) = true /\ f_read_ok f = true).
Proof.
  intros w w'.
  assert (load_file (Some KEY_FILE) (Some NULL) (Some 0) w
          = Ok (0, Some 4096, Some 4) w') as H by (vm_compute; reflexivity).
  split; [exact wolfssl_codes_ok |]. split; [exact H |].
  exact (load_file_code_names_cause KEY_FILE NULL 0 w 0 (Some 4096) (Some 4) w'
           wolfssl_codes_ok H).
Defined.

(** X4, at the key file of [Toy.world0]: four bytes, all of them. *)
Lemma load_file_success_is_int_prefix_witness :
  let w := world0 in
  let w' := final (load_file (Some KEY_FILE) (Some NULL) (Some 0) w) in
  error_codes_ok wolfssl_codes
  /\ load_file (Some KEY_FILE) (Some NULL) (Some 0) w = Ok (0, Some 4096, Some 4) w'
  /\ exists path f n,
       Some KEY_FILE = Some path /\ fs w !! path = Some f
       /\ n = to_int (ftell f) /\ 0 < n < 2 ^ 31 /\ n <= ftell f
       /\ Some 4096 = Some (Z.pos (next_addr w)) /\ Some 4 = Some n
       /\ heap w' !! Z.pos (next_addr w)
          = Some {| b_size := n; b_data := file_prefix f n |}
       /\ Z.of_nat (length (file_prefix f n)) = n
       /\ (ftell f < 2 ^ 31 -> file_prefix f n = file_contents f).
Proof.
  intros w w'.
  assert (load_file (Some KEY_FILE) (Some NULL) (Some 0) w
          = Ok (0, Some 4096, Some 4) w') as H by (vm_compute; reflexivity).
  split; [exact wolfssl_codes_ok |]. split; [exact H |].
  exact (load_file_success_is_int_prefix (Some KEY_FILE) (Some NULL) (Some 0) w
           (Some 4096) (Some 4) w' wolfssl_codes_ok H).
Defined.

(** X5, at a file of 3 GiB. *)
Lemma load_file_rejects_nonpositive_int_length_witness :
  let f := {| f_len := 3221225472; f_byte := fun _ => "k"%byte; f_read_ok := true |} in
  let w := world_with {[ KEY_FILE := f ]} in
  fs w !! KEY_FILE = Some f
  /\ (ftell f `mod` 2 ^ 32 = 0 \/ 2 ^ 31 <= ftell f `mod` 2 ^ 32)
  /\ load_file (Some KEY_FILE) (Some NULL) (Some 0) w
     = Ok (BUFFER_E, Some NULL, Some 0)
          (set_trace (trace w ++ [EvFopen KEY_FILE true; EvFclose]) w).
Proof.
  intros f w.
  assert (fs w !! KEY_FILE = Some f) as H1 by reflexivity.
  assert (ftell f `mod` 2 ^ 32 = 0 \/ 2 ^ 31 <= ftell f `mod` 2 ^ 32) as H2
    by (right; vm_compute; discriminate).
  split; [exact H1 |]. split; [exact H2 |].
  exact (load_file_rejects_nonpositive_int_length KEY_FILE NULL 0 w f H1 H2).
Defined.

(** X6, at a key file that cannot be read back. *)
Lemma load_file_hands_over_block_witness :
  let w := world_with {[ KEY_FILE := unreadable ]} in
  let w' := final (load_file (Some KEY_FILE) (Some NULL) (Some 0) w) in
  error_codes_ok wolfssl_codes
  /\ load_file (Some KEY_FILE) (Some NULL) (Some 0) w = Ok (-1, Some 16384, Some 4) w'
  /\ (-1 = 0 \/ -1 = -1 ->
      Some 16384 = Some (Z.pos (next_addr w))
      /\ is_Some (heap w' !! Z.pos (next_addr w)))
  /\ (-1 <> 0 -> -1 <> -1 -> Some 16384 = Some NULL /\ heap w' = heap w).
Proof.
  intros w w'.
  assert (load_file (Some KEY_FILE) (Some NULL) (Some 0) w
          = Ok (-1, Some 16384, Some 4) w') as H by (vm_compute; reflexivity).
  split; [exact wolfssl_codes_ok |]. split; [exact H |].
  exact (load_file_hands_over_block KEY_FILE NULL 0 w (-1) (Some 16384) (Some 4) w'
           wolfssl_codes_ok H).
Defined.

End LoaderMoreConcrete.
(* ===================================================================== *)
(** * Further properties of [load_key_file]                              *)
(* ===================================================================== *)

Section KeyFileMore.

Context {E : ErrorCodes}.
Context {ecc_key : Type} {L : WolfCrypt ecc_key}.

(** [load_key_file] without a file name. *)
Lemma load_key_file_null dB dL w :
  error_codes_ok E ->
  load_key_file None dB dL w = Ok (BAD_FUNC_ARG, dB, dL) w.
Proof.
  intros (Hbfa & _)%codes_nonzero. apply Z.eqb_neq in Hbfa.
  unfold load_key_file, load_file, bind, ret. simpl. by rewrite Hbfa.
Qed.

(** [load_key_file] on a file name, path by path. *)
Lemma load_key_file_cases path dB dL w :
  error_codes_ok E ->
  load_key_file (Some path) dB dL w =
  match fs w !! path with
  | None =>
      Ok (BAD_PATH_ERROR, dB, dL)
         (later w (heap w) (next_addr w) 0
            [EvFopen path false; EvPrintf "Error loading %s"])
  | Some f =>
      let n := to_int (ftell f) in
      let p := Z.pos (next_addr w) in
      let na := (next_addr w + Z.to_pos n)%positive in
      if 0 <? n then
        if malloc_ok w (n_malloc w) then
          if f_read_ok f then
            let pem := file_prefix f n in
            let h1 := <[p := {| b_size := n; b_data := pem |}]> (heap w) in
            if malloc_ok w (S (n_malloc w)) then
              let d := Z.pos na in
              let r := fst (wc_KeyPemToDer pem (to_word32 n) (to_word32 n)) in
              let der := snd (wc_KeyPemToDer pem (to_word32 n) (to_word32 n)) in
              let h2 := <[d := {| b_size := n; b_data := der |}]> h1 in
              let evs := [EvFopen path true; EvMalloc n p; EvFread n true; EvFclose;
                          EvMalloc n d; EvLib (CallKeyPemToDer r); EvFree p] in
              if r <? 0 then
                Ok (r, d, dL)
                   (later w (delete d (delete p h2)) (na + Z.to_pos n) 2
                      (evs ++ [EvFree d]))
              else
                Ok (0, d, to_word32 r)
                   (later w (delete p h2) (na + Z.to_pos n) 2 evs)
            else
              Ok (MEMORY_E, NULL, dL)
                 (later w (delete p h1) na 2
                    [EvFopen path true; EvMalloc n p; EvFread n true; EvFclose;
                     EvMalloc n NULL; EvFree p])
          else
            Ok (-1, dB, dL)
               (later w (<[p := {| b_size := n; b_data := [] |}]> (heap w)) na 1
                  [EvFopen path true; EvMalloc n p; EvFread n false; EvFclose])
        else
          Ok (MEMORY_E, dB, dL)
             (later w (heap w) (next_addr w) 1
                [EvFopen path true; EvMalloc n NULL;
                 EvPrintf "Error allocating %lu bytes"; EvFclose])
      else
        Ok (BUFFER_E, dB, dL)
           (later w (heap w) (next_addr w) 0 [EvFopen path true; EvFclose])
  end.
Proof.
  intros (Hbfa & Hbpe & Hme & Hbe)%codes_nonzero.
  apply Z.eqb_neq in Hbpe, Hme, Hbe.
  unfold load_key_file, bind at 1. rewrite load_file_cases.
  destruct (fs w !! path) as [f |] eqn:Hfs; simpl.
  2: { by rewrite Hbpe. }
  destruct (0 <? to_int (ftell f)) eqn:Hlen; simpl.
  2: { by rewrite Hbe. }
  destruct (malloc_ok w (n_malloc w)) eqn:Hm1; simpl.
  2: { by rewrite Hme. }
  destruct (f_read_ok f) eqn:Hread; simpl.
  2: { done. }
  unfold bind, malloc at 1. simpl.
  destruct (malloc_ok w (S (n_malloc w))) eqn:Hm2; simpl.
  - assert (Z.pos (next_addr w + Z.to_pos (to_int (ftell f))) <> Z.pos (next_addr w))
      as Hne by lia.
    unfold load_block. simpl.
    rewrite lookup_insert_ne, lookup_insert_eq by done. simpl.
    destruct (wc_KeyPemToDer _ _ _) as [r der]. simpl.
    unfold store_block, lib, emit, free, ret, set_trace, set_heap. simpl.
    rewrite lookup_insert_eq. simpl. rewrite insert_insert_eq.
    destruct (r <? 0); simpl.
    + rewrite lookup_insert_ne, lookup_insert_eq by done. simpl.
      rewrite lookup_delete_ne, lookup_insert_eq by done. simpl.
      unfold later. simpl. by rewrite <- !app_assoc.
    + rewrite lookup_insert_ne, lookup_insert_eq by done. simpl.
      unfold later. simpl. by rewrite <- !app_assoc.
  - unfold free, ret, set_trace, set_heap. simpl.
    rewrite lookup_insert_eq. simpl.
    unfold later. simpl. by rewrite <- !app_assoc.
Qed.

(** Releasing the two blocks of a call gives back a fresh heap. *)
Lemma delete_fresh_1 (h : gmap Z Block) p a :
  h !! p = None -> delete p (<[p := a]> h) = h.
Proof. intros Hp. by rewrite delete_insert_id. Qed.

Lemma delete_fresh_2 (h : gmap Z Block) p d a b :
  h !! p = None -> d <> p ->
  delete p (<[d := b]> (<[p := a]> h)) = <[d := b]> h.
Proof.
  intros Hp Hne. rewrite delete_insert_ne by done. by rewrite delete_insert_id.
Qed.

Lemma fresh_next w : heap_fresh w -> heap w !! Z.pos (next_addr w) = None.
Proof. intros Hf. apply Hf. lia. Qed.

Lemma fresh_after w n :
  heap_fresh w -> heap w !! Z.pos (next_addr w + n) = None.
Proof. intros Hf. apply Hf. lia. Qed.

(** X7. [load_key_file] returns on every input, without touching a dead
    block, and leaves the file system as it is.  When it fails, [*derLen]
    is not written and the heap is the heap before the call, with one
    exception: after a failed read (code -1) the block allocated for the
    file stays allocated. *)
Theorem load_key_file_failure_restores_heap fname dB dL w :
  error_codes_ok E -> heap_fresh w ->
  exists r d l w',
    load_key_file fname dB dL w = Ok (r, d, l) w'
    /\ fs w' = fs w
    /\ (r <> 0 ->
        l = dL
        /\ (heap w' = heap w
            \/ exists path f,
                 fname = Some path /\ fs w !! path = Some f
                 /\ f_read_ok f = false /\ r = -1
                 /\ heap w' = <[Z.pos (next_addr w) :=
                                  {| b_size := to_int (ftell f); b_data := [] |}]> (heap w))).
Proof.
  intros Hcodes Hfresh.
  pose proof (fresh_next w Hfresh) as Hp.
  destruct fname as [path |].
  2: { rewrite load_key_file_null by done. do 4 eexists. by auto. }
  rewrite load_key_file_cases by done.
  destruct (fs w !! path) as [f |] eqn:Hfs; simpl.
  2: { do 4 eexists. by auto. }
  destruct (0 <? to_int (ftell f)); [| do 4 eexists; by auto].
  destruct (malloc_ok w (n_malloc w)); [| do 4 eexists; by auto].
  destruct (f_read_ok f) eqn:Hread.
  2: { do 4 eexists. split_and!; [done .. |]. intros _. split; [done |].
       right. by exists path, f. }
  destruct (malloc_ok w (S (n_malloc w))).
  2: { do 4 eexists. split_and!; [done .. |]. intros _. split; [done |].
       left. simpl. by apply delete_fresh_1. }
  assert (Z.pos (next_addr w + Z.to_pos (to_int (ftell f))) <> Z.pos (next_addr w))
    as Hne by lia.
  destruct (fst (wc_KeyPemToDer _ _ _) <? 0).
  - do 4 eexists. split_and!; [done .. |]. intros _. split; [done |].
    left. simpl. rewrite delete_fresh_2 by done.
    apply delete_fresh_1, fresh_after, Hfresh.
  - do 4 eexists. split_and!; [done .. |]. by intros [].
Qed.

(** X8. When [load_key_file] returns 0, the key file exists, [*derBuf]
    is a new block that holds the DER bytes [wc_KeyPemToDer] made of the
    file's bytes (the first [(int)length] ones), [*derLen] is the
    converter's result, which is not negative, and the buffer of the PEM
    text has been released: the heap is the heap before the call plus
    the DER block. *)
Theorem load_key_file_success_holds_der fname dB dL w d l w' :
  error_codes_ok E -> heap_fresh w ->
  load_key_file fname dB dL w = Ok (0, d, l) w' ->
  exists path f,
    fname = Some path /\ fs w !! path = Some f
    /\ let n := to_int (ftell f) in
       let conv := wc_KeyPemToDer (file_prefix f n) (to_word32 n) (to_word32 n) in
       0 < n /\ 0 <= fst conv /\ l = to_word32 (fst conv)
       /\ d = Z.pos (next_addr w + Z.to_pos n)
       /\ heap w !! d = None
       /\ heap w' = <[d := {| b_size := n; b_data := snd conv |}]> (heap w)
       /\ frees (trace w') = frees (trace w) ++ [Z.pos (next_addr w)].
Proof.
  intros Hcodes Hfresh.
  pose proof (fresh_next w Hfresh) as Hp.
  pose proof (codes_nonzero Hcodes) as (Hbfa & Hbpe & Hme & Hbe).
  destruct fname as [path |].
  2: { rewrite load_key_file_null by done. intros [= ? _ _ _]. done. }
  rewrite load_key_file_cases by done.
  destruct (fs w !! path) as [f |] eqn:Hfs; simpl.
  2: { intros [= ? _ _ _]. done. }
  destruct (0 <? to_int (ftell f)) eqn:Hlen; [| intros [= ? _ _ _]; done].
  apply Z.ltb_lt in Hlen.
  destruct (malloc_ok w (n_malloc w)); [| intros [= ? _ _ _]; done].
  destruct (f_read_ok f); [| intros [= _ _ _]].
  destruct (malloc_ok w (S (n_malloc w))); [| intros [= ? _ _ _]; done].
  assert (Z.pos (next_addr w + Z.to_pos (to_int (ftell f))) <> Z.pos (next_addr w))
    as Hne by lia.
  destruct (fst (wc_KeyPemToDer _ _ _) <? 0) eqn:Hconv.
  { apply Z.ltb_lt in Hconv. intros [= Hz _ _ _]. lia. }
  apply Z.ltb_ge in Hconv. intros [= <- <- <-].
  exists path, f. split_and!; try done.
  - by apply fresh_after.
  - simpl. by apply delete_fresh_2.
  - simpl. rewrite frees_app. simpl. done.
Qed.

(** X9. After a failed call, [*derBuf] never owns memory.  It is what the
    caller had put there (when [load_file] failed), or [NULL] (when the
    DER buffer could not be allocated), or a pointer that
    [load_key_file] has itself freed last (when the conversion failed),
    which is then not a live block. *)
Theorem load_key_file_failure_pointer fname dB dL w r d l w' :
  error_codes_ok E ->
  load_key_file fname dB dL w = Ok (r, d, l) w' ->
  r <> 0 ->
  (d = dB /\ frees (trace w') = frees (trace w))
  \/ (d = NULL /\ r = MEMORY_E)
  \/ (d <> NULL /\ r < 0 /\ heap w' !! d = None
      /\ exists ps, frees (trace w') = frees (trace w) ++ ps ++ [d]).
Proof.
  intros Hcodes.
  destruct fname as [path |].
  2: { rewrite load_key_file_null by done. intros [= <- <- <- <-] _. by left. }
  rewrite load_key_file_cases by done.
  destruct (fs w !! path) as [f |] eqn:Hfs; simpl.
  2: { intros [= <- <- <- <-] _. left. simpl. rewrite frees_app. simpl.
       by rewrite app_nil_r. }
  destruct (0 <? to_int (ftell f)).
  2: { intros [= <- <- <- <-] _. left. simpl. rewrite frees_app. simpl.
       by rewrite app_nil_r. }
  destruct (malloc_ok w (n_malloc w)).
  2: { intros [= <- <- <- <-] _. left. simpl. rewrite frees_app. simpl.
       by rewrite app_nil_r. }
  destruct (f_read_ok f).
  2: { intros [= <- <- <- <-] _. left. simpl. rewrite frees_app. simpl.
       by rewrite app_nil_r. }
  destruct (malloc_ok w (S (n_malloc w))).
  2: { intros [= <- <- <- <-] _. right. by left. }
  destruct (fst (wc_KeyPemToDer _ _ _) <? 0) eqn:Hconv.
  2: { by intros [= <- <- <- <-] []. }
  apply Z.ltb_lt in Hconv. intros [= <- <- <- <-] _. right. right.
  split_and!; try done.
  - simpl. by rewrite lookup_delete_eq.
  - exists [Z.pos (next_addr w)]. simpl. rewrite frees_app. simpl. done.
Qed.

End KeyFileMore.

Section KeyFileMoreConcrete.

Import Toy.
#[local] Existing Instance wolfssl_codes.
#[local] Existing Instance toy_lib.

Lemma world0_fresh : heap_fresh world0.
Proof. intros p _. apply lookup_empty. Qed.

Lemma world_with_fresh files : heap_fresh (world_with files).
Proof.
  intros p Hp. simpl in *. apply lookup_singleton_ne. unfold der_block. lia.
Qed.

(** X7, at a key file that cannot be read back: the file's block stays. *)
Lemma load_key_file_failure_restores_heap_witness :
  let w := world_with {[ KEY_FILE := unreadable ]} in
  error_codes_ok wolfssl_codes /\ heap_fresh w
  /\ exists r d l w',
       load_key_file (Some KEY_FILE) engine_key 3 w = Ok (r, d, l) w'
       /\ fs w' = fs w
       /\ (r <> 0 ->
           l = 3
           /\ (heap w' = heap w
               \/ exists path f,
                    Some KEY_FILE = Some path /\ fs w !! path = Some f
                    /\ f_read_ok f = false /\ r = -1
                    /\ heap w' = <[Z.pos (next_addr w) :=
                                     {| b_size := to_int (ftell f); b_data := [] |}]> (heap w))).
Proof.
  intros w.
  assert (heap_fresh w) as Hfresh by exact (world_with_fresh _).
  split; [exact wolfssl_codes_ok |]. split; [exact Hfresh |].
  exact (load_key_file_failure_restores_heap (Some KEY_FILE) engine_key 3 w
           wolfssl_codes_ok Hfresh).
Defined.

(** X8, at the key file of [Toy.world0]: the DER bytes are the three
    bytes after the dash. *)
Lemma load_key_file_success_holds_der_witness :
  let w := world0 in
  let w' := final (load_key_file (Some KEY_FILE) NULL 0 w) in
  error_codes_ok wolfssl_codes /\ heap_fresh w
  /\ load_key_file (Some KEY_FILE) NULL 0 w = Ok (0, 4100, 3) w'
  /\ exists path f,
       Some KEY_FILE = Some path /\ fs w !! path = Some f
       /\ let n := to_int (ftell f) in
          let conv := wc_KeyPemToDer (file_prefix f n) (to_word32 n) (to_word32 n) in
          0 < n /\ 0 <= fst conv /\ 3 = to_word32 (fst conv)
          /\ 4100 = Z.pos (next_addr w + Z.to_pos n)
          /\ heap w !! 4100 = None
          /\ heap w' = <[4100 := {| b_size := n; b_data := snd conv |}]> (heap w)
          /\ frees (trace w') = frees (trace w) ++ [Z.pos (next_addr w)].
Proof.
  intros w w'.
  assert (load_key_file (Some KEY_FILE) NULL 0 w = Ok (0, 4100, 3) w') as H
    by (vm_compute; reflexivity).
  split; [exact wolfssl_codes_ok |]. split; [exact world0_fresh |].
  split; [exact H |].
  exact (load_key_file_success_holds_der (Some KEY_FILE) NULL 0 w 4100 3 w'
           wolfssl_codes_ok world0_fresh H).
Defined.

(** X9, at a key file that is not PEM: [*derBuf] is left dangling. *)
Lemma load_key_file_failure_pointer_witness :
  let w := world_with {[ KEY_FILE := not_pem ]} in
  let w' := final (load_key_file (Some KEY_FILE) engine_key 3 w) in
  error_codes_ok wolfssl_codes
  /\ load_key_file (Some KEY_FILE) engine_key 3 w = Ok (-162, 16387, 3) w'
  /\ -162 <> 0
  /\ ((16387 = engine_key /\ frees (trace w') = frees (trace w))
      \/ (16387 = NULL /\ -162 = MEMORY_E)
      \/ (16387 <> NULL /\ -162 < 0 /\ heap w' !! 16387 = None
          /\ exists ps, frees (trace w') = frees (trace w) ++ ps ++ [16387])).
Proof.
  intros w w'.
  assert (load_key_file (Some KEY_FILE) engine_key 3 w = Ok (-162, 16387, 3) w') as H
    by (vm_compute; reflexivity).
  assert (-162 <> 0) as Hr by lia.
  split; [exact wolfssl_codes_ok |]. split; [exact H |]. split; [exact Hr |].
  exact (load_key_file_failure_pointer (Some KEY_FILE) engine_key 3 w (-162) 16387 3 w'
           wolfssl_codes_ok H Hr).
Defined.

End KeyFileMoreConcrete.

(* ===================================================================== *)
(** * Further properties of the callback                                 *)
(* ===================================================================== *)

Section CallbackMore.

Context {E : ErrorCodes}.
Context {ecc_key : Type} {L : WolfCrypt ecc_key}.

Lemma pending_negative : error_codes_ok E -> WC_PENDING_E < 0.
Proof. intros [Hneg _]. rewrite !Forall_cons in Hneg. tauto. Qed.

(** The simulated asynchronous answer. *)
Lemma myEccSign_simulates async ssl input inSz out outSz key_ keySz (cb : PkCbInfo) w :
  async && (state cb =? 0) = true ->
  myEccSign async ssl input inSz out outSz key_ keySz cb w
  = Ok (WC_PENDING_E, out, outSz,
        {| keyFile := keyFile cb; key := key cb; state := state cb + 1 |})
       (later w (heap w) (next_addr w) 0
          [EvPrintf "PK ECC Sign: inSz %u, keySz %u";
           EvPrintf "PK ECC Sign: Async Simulate"]).
Proof.
  intros Hcond. unfold myEccSign. rewrite Hcond.
  unfold bind, printf, emit, ret, set_trace, later. simpl.
  by rewrite <- app_assoc.
Qed.

(** The callback after a failed [load_key_file]: [free(keyBuf)], the
    last line, and the code of the loader. *)
Lemma myEccSign_load_failed async ssl input inSz out outSz key_ keySz
    (cb : PkCbInfo) w r d l w1 :
  async && (state cb =? 0) = false ->
  load_key_file (keyFile cb) key_ keySz (entered w) = Ok (r, d, l) w1 ->
  r <> 0 ->
  myEccSign async ssl input inSz out outSz key_ keySz cb w
  = (free d ;;;
     printf "PK ECC Sign: ret %d outSz %u" ;;;
     ret (r, out, outSz,
          {| keyFile := keyFile cb; key := key cb;
             state := if async then 0 else state cb |})) w1.
Proof.
  intros Hcond Hload Hr%Z.eqb_neq. unfold myEccSign.
  rewrite (bind_Ok_run _ _ w tt (entered w)) by done.
  rewrite Hcond, (bind_Ok_run _ _ _ _ _ Hload). simpl.
  rewrite Hr. reflexivity.
Qed.

(** The callback after [load_key_file] has returned 0 with a live DER
    block: the three outcomes of the wolfCrypt calls. *)
Lemma myEccSign_loaded async ssl input inSz out outSz key_ keySz
    (cb : PkCbInfo) w d l w1 blk :
  async && (state cb =? 0) = false ->
  load_key_file (keyFile cb) key_ keySz (entered w) = Ok (0, d, l) w1 ->
  heap w1 !! d = Some blk -> d <> NULL ->
  myEccSign async ssl input inSz out outSz key_ keySz cb w
  = let ri := fst (wc_ecc_init (key cb)) in
    let ki := snd (wc_ecc_init (key cb)) in
    let dec := wc_EccPrivateKeyDecode (b_data blk) 0 ki l in
    let rng := wolfSSL_GetRNG ssl in
    let sg := wc_ecc_sign_hash input inSz out outSz rng (snd dec) in
    let st := if async then 0 else state cb in
    let fin evs := later w1 (delete d (heap w1)) (next_addr w1) 0
                     (evs ++ [EvFree d; EvPrintf "PK ECC Sign: ret %d outSz %u"]) in
    if ri =? 0 then
      if fst dec =? 0 then
        Ok (fst (fst sg), snd (fst sg), snd sg,
            {| keyFile := keyFile cb; key := wc_ecc_free (snd dec); state := st |})
           (fin [EvLib (CallEccInit ri); EvLib (CallEccPrivateKeyDecode (fst dec));
                 EvLib (CallGetRNG ssl rng); EvPrintf "PK ECC Sign: Curve ID %d";
                 EvLib (CallEccSignHash rng (fst (fst sg))); EvLib CallEccFree])
      else
        Ok (fst dec, out, outSz,
            {| keyFile := keyFile cb; key := wc_ecc_free (snd dec); state := st |})
           (fin [EvLib (CallEccInit ri); EvLib (CallEccPrivateKeyDecode (fst dec));
                 EvLib CallEccFree])
    else
      Ok (ri, out, outSz, {| keyFile := keyFile cb; key := ki; state := st |})
         (fin [EvLib (CallEccInit ri)]).
Proof.
  intros Hcond Hload Hlive Hd%Z.eqb_neq. unfold myEccSign.
  rewrite (bind_Ok_run _ _ w tt (entered w)) by done.
  rewrite Hcond, (bind_Ok_run _ _ _ _ _ Hload). simpl.
  destruct (wc_ecc_init (key cb)) as [ri ki]. simpl.
  unfold bind, lib, printf, emit, load_block, free, ret, set_trace, set_heap, later. simpl.
  destruct (ri =? 0); simpl; rewrite ?Hlive, ?Hd; simpl.
  - destruct (wc_EccPrivateKeyDecode (b_data blk) 0 ki l) as [rd kd]. simpl.
    destruct (rd =? 0); simpl.
    + destruct (wc_ecc_sign_hash input inSz out outSz (wolfSSL_GetRNG ssl) kd)
        as [[rs os] ss]. simpl. rewrite ?Hlive, ?Hd. simpl.
      by rewrite <- !app_assoc.
    + rewrite ?Hlive, ?Hd. simpl. by rewrite <- !app_assoc.
  - by rewrite <- !app_assoc.
Qed.

(** The end of the callback after a failed load, whatever the pointer. *)
Lemma free_tail_crash {A} d msg (x : A) w1 flt w' :
  (free d ;;; printf msg ;;; ret x) w1 = Crash flt w' ->
  flt = InvalidFree d /\ d <> NULL /\ heap w1 !! d = None
  /\ w' = set_trace (trace w1 ++ [EvFree d]) w1.
Proof.
  unfold bind, free, printf, emit, ret.
  destruct (d =? NULL) eqn:Hd; [done |]. apply Z.eqb_neq in Hd.
  destruct (heap w1 !! d) eqn:Hlive; [done |].
  by intros [= <- <-].
Qed.

Lemma free_tail_trace {A} d msg (x : A) w1 :
  exists evs,
    trace (final ((free d ;;; printf msg ;;; ret x) w1)) = trace w1 ++ EvFree d :: evs
    /\ lib_calls evs = [].
Proof.
  unfold bind, free, printf, emit, ret.
  destruct (d =? NULL); simpl.
  { exists [EvPrintf msg]. by rewrite <- app_assoc. }
  destruct (heap w1 !! d); simpl.
  - exists [EvPrintf msg]. by rewrite <- app_assoc.
  - by exists [].
Qed.

Lemma lib_calls_app t1 t2 : lib_calls (t1 ++ t2) = lib_calls t1 ++ lib_calls t2.
Proof. apply omap_app. Qed.

(** The four ways [load_key_file] ends: [load_file] failed, the DER
    buffer could not be allocated, the conversion failed, or the key is
    loaded. *)
Lemma load_key_file_outcomes fname dB dL w :
  error_codes_ok E ->
  exists r d l w1 evs,
    load_key_file fname dB dL w = Ok (r, d, l) w1
    /\ trace w1 = trace w ++ evs
    /\ ((r <> 0 /\ d = dB /\ heap w1 !! d = heap w1 !! dB /\ lib_calls evs = [])
        \/ (r <> 0 /\ d = NULL /\ lib_calls evs = [])
        \/ (r < 0 /\ EvFree d ∈ evs /\ lib_calls evs = [CallKeyPemToDer r])
        \/ (r = 0 /\ d <> NULL /\ is_Some (heap w1 !! d)
            /\ exists rc, 0 <= rc /\ lib_calls evs = [CallKeyPemToDer rc])).
Proof.
  intros Hcodes.
  pose proof (codes_nonzero Hcodes) as (Hbfa & Hbpe & Hme & Hbe).
  destruct fname as [path |].
  2: { rewrite load_key_file_null by done. exists BAD_FUNC_ARG, dB, dL, w, [].
       rewrite app_nil_r. split_and!; try done. by left. }
  rewrite load_key_file_cases by done.
  destruct (fs w !! path) as [f |] eqn:Hfs; simpl.
  2: { do 5 eexists. split_and!; [done .. |]. by left. }
  destruct (0 <? to_int (ftell f)); [| do 5 eexists; split_and!; [done .. |]; by left].
  destruct (malloc_ok w (n_malloc w)); [| do 5 eexists; split_and!; [done .. |]; by left].
  destruct (f_read_ok f); [| do 5 eexists; split_and!; [done .. |]; left; split_and!; try done; lia].
  destruct (malloc_ok w (S (n_malloc w))).
  2: { do 5 eexists. split_and!; [done .. |]. right. by left. }
  assert (Z.pos (next_addr w + Z.to_pos (to_int (ftell f))) <> Z.pos (next_addr w))
    as Hne by lia.
  destruct (fst (wc_KeyPemToDer _ _ _) <? 0) eqn:Hconv.
  - apply Z.ltb_lt in Hconv.
    do 5 eexists. split_and!; [done .. |]. right. right. left.
    split_and!; [done | in_list | done].
  - apply Z.ltb_ge in Hconv.
    do 5 eexists. split_and!; [done .. |]. right. right. right.
    split_and!; try done.
    + simpl. rewrite lookup_delete_ne, lookup_insert_eq by done. by eexists.
    + by eexists.
Qed.

(** X10. When the key file can be read but [wc_KeyPemToDer] rejects its
    content, the callback frees the DER buffer twice: [load_key_file]
    has released it before it returns, and [free(keyBuf)] releases it
    again.  The run stops there, in undefined behaviour. *)
Theorem myEccSign_conversion_failure_frees_twice async ssl input inSz out outSz
    key_ keySz (cb : PkCbInfo) w path f :
  error_codes_ok E ->
  async && (state cb =? 0) = false ->
  keyFile cb = Some path -> fs w !! path = Some f ->
  0 < to_int (ftell f) -> f_read_ok f = true ->
  malloc_ok w (n_malloc w) = true -> malloc_ok w (S (n_malloc w)) = true ->
  fst (wc_KeyPemToDer (file_prefix f (to_int (ftell f)))
         (to_word32 (to_int (ftell f))) (to_word32 (to_int (ftell f)))) < 0 ->
  let d := Z.pos (next_addr w + Z.to_pos (to_int (ftell f))) in
  exists w',
    myEccSign async ssl input inSz out outSz key_ keySz cb w = Crash (InvalidFree d) w'
    /\ frees (trace w') = frees (trace w) ++ [Z.pos (next_addr w); d; d].
Proof.
  intros Hcodes Hcond Hkf Hfs Hlen%Z.ltb_lt Hread Hm1 Hm2 Hconv%Z.ltb_lt d.
  pose proof (load_key_file_cases path key_ keySz (entered w) Hcodes) as Hload.
  simpl in Hload. rewrite Hfs, Hlen, Hm1, Hread, Hm2 in Hload.
  cbv zeta in Hload. rewrite Hconv in Hload. rewrite <- Hkf in Hload.
  rewrite (myEccSign_load_failed _ _ _ _ _ _ _ _ _ _ _ _ _ _ Hcond Hload)
    by (apply Z.ltb_lt in Hconv; lia).
  unfold bind, free. simpl. rewrite lookup_delete_eq.
  eexists. split; [reflexivity |]. simpl.
  rewrite !frees_app. simpl. by rewrite <- !app_assoc.
Qed.

(** X11. The callback reads and writes live blocks only: the one fault
    it can run into is in its final [free(keyBuf)], and the pointer
    freed there is either the [key] argument of the caller or a pointer
    the callback has already freed during this call. *)
Theorem myEccSign_faults_only_by_free async ssl input inSz out outSz
    key_ keySz (cb : PkCbInfo) w flt w' :
  error_codes_ok E ->
  myEccSign async ssl input inSz out outSz key_ keySz cb w = Crash flt w' ->
  exists q evs,
    flt = InvalidFree q /\ q <> NULL /\ heap w' !! q = None
    /\ trace w' = trace w ++ evs ++ [EvFree q]
    /\ (q = key_ \/ EvFree q ∈ evs).
Proof.
  intros Hcodes H.
  destruct (async && (state cb =? 0)) eqn:Hcond.
  { by rewrite myEccSign_simulates in H. }
  destruct (load_key_file_outcomes (keyFile cb) key_ keySz (entered w) Hcodes)
    as (r & d & l & w1 & evs & Hload & Htr & Hcases).
  destruct Hcases as [(Hr & -> & _ & _) | [(Hr & -> & _) | [(Hr & Hin & _) | (-> & Hd & [blk Hlive] & _)]]].
  - rewrite (myEccSign_load_failed _ _ _ _ _ _ _ _ _ _ _ _ _ _ Hcond Hload Hr) in H.
    apply free_tail_crash in H as (-> & Hq & Hdead & ->).
    exists key_, (EvPrintf "PK ECC Sign: inSz %u, keySz %u" :: evs).
    split_and!; try done; [| by left].
    simpl. rewrite Htr. simpl. by rewrite <- !app_assoc.
  - rewrite (myEccSign_load_failed _ _ _ _ _ _ _ _ _ _ _ _ _ _ Hcond Hload Hr) in H.
    by apply free_tail_crash in H as (_ & ? & _).
  - rewrite (myEccSign_load_failed _ _ _ _ _ _ _ _ _ _ _ _ _ _ Hcond Hload) in H by lia.
    apply free_tail_crash in H as (-> & Hq & Hdead & ->).
    exists d, (EvPrintf "PK ECC Sign: inSz %u, keySz %u" :: evs).
    split_and!; try done.
    + simpl. rewrite Htr. simpl. by rewrite <- !app_assoc.
    + right. by apply list_elem_of_further.
  - rewrite (myEccSign_loaded _ _ _ _ _ _ _ _ _ _ _ _ _ _ Hcond Hload Hlive Hd) in H.
    cbv zeta in H.
    destruct (fst (wc_ecc_init (key cb)) =? 0);
      [destruct (fst (wc_EccPrivateKeyDecode _ _ _ _) =? 0) |]; done.
Qed.

Lemma free_tail_ok {A} d msg (x y : A) w1 w' :
  (free d ;;; printf msg ;;; ret x) w1 = Ok y w' -> y = x.
Proof.
  unfold bind, free, printf, emit, ret.
  destruct (d =? NULL); [by intros [= <- _] |].
  destruct (heap w1 !! d); [by intros [= <- _] | done].
Qed.

(** X12. When the callback returns 0, it has read the key file named in
    its context at this very call, converted its bytes to DER, set up and
    decoded the key with them, and [out] and [*outSz] are what
    [wc_ecc_sign_hash] made of the digest with that key and the
    generator of the session.  The key object is left freed, and both
    buffers have been released: the heap is as before the call. *)
Theorem myEccSign_zero_means_signed_with_file_key async ssl input inSz out outSz
    key_ keySz (cb : PkCbInfo) w o sz cb' w' :
  error_codes_ok E -> heap_fresh w ->
  myEccSign async ssl input inSz out outSz key_ keySz cb w = Ok (0, o, sz, cb') w' ->
  exists path f,
    keyFile cb = Some path /\ fs w !! path = Some f
    /\ let n := to_int (ftell f) in
       let conv := wc_KeyPemToDer (file_prefix f n) (to_word32 n) (to_word32 n) in
       let ini := wc_ecc_init (key cb) in
       let dec := wc_EccPrivateKeyDecode (snd conv) 0 (snd ini) (to_word32 (fst conv)) in
       0 <= fst conv /\ fst ini = 0 /\ fst dec = 0
       /\ wc_ecc_sign_hash input inSz out outSz (wolfSSL_GetRNG ssl) (snd dec) = (0, o, sz)
       /\ key cb' = wc_ecc_free (snd dec)
       /\ heap w' = heap w /\ fs w' = fs w.
Proof.
  intros Hcodes Hfresh H.
  pose proof (codes_nonzero Hcodes) as (Hbfa & Hbpe & Hme & Hbe).
  pose proof (pending_negative Hcodes) as Hpend.
  pose proof (fresh_next w Hfresh) as Hp.
  destruct (async && (state cb =? 0)) eqn:Hcond.
  { rewrite myEccSign_simulates in H by done. injection H as Hz _ _ _ _. lia. }
  destruct (keyFile cb) as [path |] eqn:Hkf.
  2: { pose proof (load_key_file_null key_ keySz (entered w) Hcodes) as Hload.
       rewrite <- Hkf in Hload.
       rewrite (myEccSign_load_failed _ _ _ _ _ _ _ _ _ _ _ _ _ _ Hcond Hload) in H by done.
       apply free_tail_ok in H. injection H as Hz _ _ _. congruence. }
  pose proof (load_key_file_cases path key_ keySz (entered w) Hcodes) as Hload.
  rewrite <- Hkf in Hload at 1. simpl in Hload.
  destruct (fs w !! path) as [f |] eqn:Hfs.
  2: { rewrite (myEccSign_load_failed _ _ _ _ _ _ _ _ _ _ _ _ _ _ Hcond Hload) in H by done.
       apply free_tail_ok in H. injection H as Hz _ _ _. congruence. }
  destruct (0 <? to_int (ftell f)) eqn:Hlen.
  2: { rewrite (myEccSign_load_failed _ _ _ _ _ _ _ _ _ _ _ _ _ _ Hcond Hload) in H by done.
       apply free_tail_ok in H. injection H as Hz _ _ _. congruence. }
  destruct (malloc_ok w (n_malloc w)).
  2: { rewrite (myEccSign_load_failed _ _ _ _ _ _ _ _ _ _ _ _ _ _ Hcond Hload) in H by done.
       apply free_tail_ok in H. injection H as Hz _ _ _. congruence. }
  destruct (f_read_ok f).
  2: { rewrite (myEccSign_load_failed _ _ _ _ _ _ _ _ _ _ _ _ _ _ Hcond Hload) in H by done.
       apply free_tail_ok in H. injection H as Hz _ _ _. done. }
  destruct (malloc_ok w (S (n_malloc w))).
  2: { rewrite (myEccSign_load_failed _ _ _ _ _ _ _ _ _ _ _ _ _ _ Hcond Hload) in H by done.
       apply free_tail_ok in H. injection H as Hz _ _ _. congruence. }
  cbv zeta in Hload.
  assert (Z.pos (next_addr w + Z.to_pos (to_int (ftell f))) <> Z.pos (next_addr w))
    as Hne by lia.
  destruct (fst (wc_KeyPemToDer _ _ _) <? 0) eqn:Hconv.
  { apply Z.ltb_lt in Hconv.
    rewrite (myEccSign_load_failed _ _ _ _ _ _ _ _ _ _ _ _ _ _ Hcond Hload) in H by lia.
    apply free_tail_ok in H. injection H as Hz _ _ _. lia. }
  apply Z.ltb_ge in Hconv.
  match type of Hload with
  | _ = Ok (_, ?d, _) ?w1 =>
      assert (exists blk, heap w1 !! d = Some blk
                          /\ b_data blk = snd (wc_KeyPemToDer
                               (file_prefix f (to_int (ftell f)))
                               (to_word32 (to_int (ftell f)))
                               (to_word32 (to_int (ftell f)))))
        as (blk & Hlive & Hdata)
        by (eexists; simpl; rewrite lookup_delete_ne, lookup_insert_eq by done; done)
  end.
  rewrite (myEccSign_loaded _ _ _ _ _ _ _ _ _ _ _ _ _ _ Hcond Hload Hlive) in H by done.
  rewrite Hdata in H.
  cbv zeta in H. simpl in H.
  exists path, f. split; [done |]. split; [done |]. cbv zeta.
  destruct (fst (wc_ecc_init (key cb)) =? 0) eqn:Hinit.
  2: { injection H as Hz _ _ _ _. apply Z.eqb_neq in Hinit. lia. }
  apply Z.eqb_eq in Hinit.
  destruct (fst (wc_EccPrivateKeyDecode _ _ _ _) =? 0) eqn:Hdec.
  2: { injection H as Hz _ _ _ _. apply Z.eqb_neq in Hdec. lia. }
  apply Z.eqb_eq in Hdec.
  injection H as Hr <- <- <- <-. simpl.
  split_and!; try done.
  - destruct (wc_ecc_sign_hash _ _ _ _ _ _) as [[rs os] ss]. simpl in *. by subst.
  - rewrite delete_fresh_2 by done. apply delete_fresh_1. by apply fresh_after.
Qed.

(** X13. The wolfCrypt calls of one run of the callback follow one
    protocol: none at all; or the PEM conversion alone, when it fails; or
    conversion and [wc_ecc_init], when that fails; or conversion, init,
    decoding and [wc_ecc_free], when decoding fails; or the full
    sequence with the session's generator and one [wc_ecc_sign_hash].
    So a key object that was initialised is always freed, exactly once,
    and nothing is signed with a key that did not decode. *)
Theorem myEccSign_library_protocol async ssl input inSz out outSz
    key_ keySz (cb : PkCbInfo) w :
  error_codes_ok E ->
  exists evs,
    trace (final (myEccSign async ssl input inSz out outSz key_ keySz cb w))
      = trace w ++ evs
    /\ (lib_calls evs = []
        \/ (exists rc, rc < 0 /\ lib_calls evs = [CallKeyPemToDer rc])
        \/ (exists rc ri, 0 <= rc /\ ri <> 0
              /\ lib_calls evs = [CallKeyPemToDer rc; CallEccInit ri])
        \/ (exists rc rd, 0 <= rc /\ rd <> 0
              /\ lib_calls evs = [CallKeyPemToDer rc; CallEccInit 0;
                                  CallEccPrivateKeyDecode rd; CallEccFree])
        \/ (exists rc rs, 0 <= rc
              /\ lib_calls evs = [CallKeyPemToDer rc; CallEccInit 0;
                                  CallEccPrivateKeyDecode 0;
                                  CallGetRNG ssl (wolfSSL_GetRNG ssl);
                                  CallEccSignHash (wolfSSL_GetRNG ssl) rs;
                                  CallEccFree])).
Proof.
  intros Hcodes.
  destruct (async && (state cb =? 0)) eqn:Hcond.
  { rewrite myEccSign_simulates by done. eexists. split; [reflexivity |]. by left. }
  destruct (load_key_file_outcomes (keyFile cb) key_ keySz (entered w) Hcodes)
    as (r & d & l & w1 & evs & Hload & Htr & Hcases).
  simpl in Htr.
  destruct Hcases as [(Hr & -> & _ & Hlib) | [(Hr & -> & Hlib) | [(Hr & Hin & Hlib) | (-> & Hd & [blk Hlive] & rc & Hrc & Hlib)]]].
  - rewrite (myEccSign_load_failed _ _ _ _ _ _ _ _ _ _ _ _ _ _ Hcond Hload Hr).
    match goal with
    | |- context [trace (final (?run w1))] =>
        match run with
        | (free ?q ;;; printf ?m ;;; ret ?x) =>
            destruct (free_tail_trace q m x w1) as (tl & Heq & Htl);
            change (trace (final (run w1))) with
              (trace (final ((free q ;;; printf m ;;; ret x) w1)));
            rewrite Heq
        end
    end.
    rewrite Htr, <- !app_assoc. eexists. split; [reflexivity |]. left.
    rewrite !lib_calls_app, Hlib. simpl. by rewrite Htl.
  - rewrite (myEccSign_load_failed _ _ _ _ _ _ _ _ _ _ _ _ _ _ Hcond Hload Hr).
    match goal with
    | |- context [trace (final (?run w1))] =>
        match run with
        | (free ?q ;;; printf ?m ;;; ret ?x) =>
            destruct (free_tail_trace q m x w1) as (tl & Heq & Htl);
            change (trace (final (run w1))) with
              (trace (final ((free q ;;; printf m ;;; ret x) w1)));
            rewrite Heq
        end
    end.
    rewrite Htr, <- !app_assoc. eexists. split; [reflexivity |]. left.
    rewrite !lib_calls_app, Hlib. simpl. by rewrite Htl.
  - rewrite (myEccSign_load_failed _ _ _ _ _ _ _ _ _ _ _ _ _ _ Hcond Hload) by lia.
    match goal with
    | |- context [trace (final (?run w1))] =>
        match run with
        | (free ?q ;;; printf ?m ;;; ret ?x) =>
            destruct (free_tail_trace q m x w1) as (tl & Heq & Htl);
            change (trace (final (run w1))) with
              (trace (final ((free q ;;; printf m ;;; ret x) w1)));
            rewrite Heq
        end
    end.
    rewrite Htr, <- !app_assoc. eexists. split; [reflexivity |]. right. left.
    exists r. split; [done |].
    rewrite !lib_calls_app, Hlib. simpl. by rewrite Htl.
  - rewrite (myEccSign_loaded _ _ _ _ _ _ _ _ _ _ _ _ _ _ Hcond Hload Hlive Hd).
    cbv zeta.
    destruct (fst (wc_ecc_init (key cb)) =? 0) eqn:Hinit.
    2: { apply Z.eqb_neq in Hinit. simpl. rewrite Htr, <- !app_assoc.
         eexists. split; [reflexivity |]. right. right. left.
         exists rc, (fst (wc_ecc_init (key cb))). split_and!; try done.
         rewrite !lib_calls_app, Hlib. done. }
    apply Z.eqb_eq in Hinit. rewrite Hinit.
    destruct (fst (wc_EccPrivateKeyDecode _ _ _ _) =? 0) eqn:Hdec.
    + apply Z.eqb_eq in Hdec. rewrite Hdec. simpl. rewrite Htr, <- !app_assoc.
      eexists. split; [reflexivity |]. do 4 right.
      eexists rc, _. split; [done |].
      rewrite !lib_calls_app, Hlib. done.
    + apply Z.eqb_neq in Hdec. simpl. rewrite Htr, <- !app_assoc.
      eexists. split; [reflexivity |]. do 3 right. left.
      eexists rc, _. split_and!; [done | exact Hdec |].
      rewrite !lib_calls_app, Hlib. done.
Qed.

End CallbackMore.

Section CallbackMoreConcrete.

Import Toy.
#[local] Existing Instance wolfssl_codes.
#[local] Existing Instance toy_lib.

(** X10, at a key file that is not PEM. *)
Lemma myEccSign_conversion_failure_frees_twice_witness :
  let w := world_with {[ KEY_FILE := not_pem ]} in
  let cb := ctx_at KEY_FILE 1 in
  let n := to_int (ftell not_pem) in
  error_codes_ok wolfssl_codes
  /\ true && (state cb =? 0) = false
  /\ keyFile cb = Some KEY_FILE /\ fs w !! KEY_FILE = Some not_pem
  /\ 0 < n /\ f_read_ok not_pem = true
  /\ malloc_ok w (n_malloc w) = true /\ malloc_ok w (S (n_malloc w)) = true
  /\ fst (wc_KeyPemToDer (file_prefix not_pem n) (to_word32 n) (to_word32 n)) < 0
  /\ let d := Z.pos (next_addr w + Z.to_pos n) in
     exists w',
       myEccSign true 100 digest 2 [] 72 engine_key 3 cb w = Crash (InvalidFree d) w'
       /\ frees (trace w') = frees (trace w) ++ [Z.pos (next_addr w); d; d].
Proof.
  intros w cb n.
  assert (true && (state cb =? 0) = false) as H1 by reflexivity.
  assert (keyFile cb = Some KEY_FILE) as H2 by reflexivity.
  assert (fs w !! KEY_FILE = Some not_pem) as H3 by reflexivity.
  assert (0 < n) as H4 by (vm_compute; reflexivity).
  assert (f_read_ok not_pem = true) as H5 by reflexivity.
  assert (malloc_ok w (n_malloc w) = true) as H6 by reflexivity.
  assert (malloc_ok w (S (n_malloc w)) = true) as H7 by reflexivity.
  assert (fst (wc_KeyPemToDer (file_prefix not_pem n) (to_word32 n) (to_word32 n)) < 0)
    as H8 by (vm_compute; reflexivity).
  split_and!; try assumption; [exact wolfssl_codes_ok |].
  exact (myEccSign_conversion_failure_frees_twice true 100 digest 2 [] 72 engine_key 3
           cb w KEY_FILE not_pem wolfssl_codes_ok H1 H2 H3 H4 H5 H6 H7 H8).
Defined.

(** X11, at a key file that does not exist: the fault is the [free] of
    the engine's key pointer. *)
Lemma myEccSign_faults_only_by_free_witness :
  let w := world_with ∅ in
  let cb := ctx_at "/nonexistent" 1 in
  let w' := final (myEccSign true 100 digest 2 [] 72 engine_key 3 cb w) in
  error_codes_ok wolfssl_codes
  /\ myEccSign true 100 digest 2 [] 72 engine_key 3 cb w
     = Crash (InvalidFree engine_key) w'
  /\ exists q evs,
       InvalidFree engine_key = InvalidFree q /\ q <> NULL /\ heap w' !! q = None
       /\ trace w' = trace w ++ evs ++ [EvFree q]
       /\ (q = engine_key \/ EvFree q ∈ evs).
Proof.
  intros w cb w'.
  assert (myEccSign true 100 digest 2 [] 72 engine_key 3 cb w
          = Crash (InvalidFree engine_key) w') as H by (vm_compute; reflexivity).
  split; [exact wolfssl_codes_ok |]. split; [exact H |].
  exact (myEccSign_faults_only_by_free true 100 digest 2 [] 72 engine_key 3 cb w
           (InvalidFree engine_key) w' wolfssl_codes_ok H).
Defined.

(** X12, at the second call for the context of [main]. *)
Lemma myEccSign_zero_means_signed_with_file_key_witness :
  let w := world0 in
  let cb := ctx_at KEY_FILE 1 in
  let cb' := {| keyFile := Some KEY_FILE; key := KeyFreed; state := 0 |} in
  let o := ["d"; "g"; "l"]%byte in
  let w' := final (myEccSign true 100 digest 2 [] 72 NULL 0 cb w) in
  error_codes_ok wolfssl_codes /\ heap_fresh w
  /\ myEccSign true 100 digest 2 [] 72 NULL 0 cb w = Ok (0, o, 3, cb') w'
  /\ exists path f,
       keyFile cb = Some path /\ fs w !! path = Some f
       /\ let n := to_int (ftell f) in
          let conv := wc_KeyPemToDer (file_prefix f n) (to_word32 n) (to_word32 n) in
          let ini := wc_ecc_init (key cb) in
          let dec := wc_EccPrivateKeyDecode (snd conv) 0 (snd ini) (to_word32 (fst conv)) in
          0 <= fst conv /\ fst ini = 0 /\ fst dec = 0
          /\ wc_ecc_sign_hash digest 2 [] 72 (wolfSSL_GetRNG 100) (snd dec) = (0, o, 3)
          /\ key cb' = wc_ecc_free (snd dec)
          /\ heap w' = heap w /\ fs w' = fs w.
Proof.
  intros w cb cb' o w'.
  assert (myEccSign true 100 digest 2 [] 72 NULL 0 cb w = Ok (0, o, 3, cb') w') as H
    by (vm_compute; reflexivity).
  split; [exact wolfssl_codes_ok |]. split; [exact world0_fresh |]. split; [exact H |].
  exact (myEccSign_zero_means_signed_with_file_key true 100 digest 2 [] 72 NULL 0 cb w
           o 3 cb' w' wolfssl_codes_ok world0_fresh H).
Defined.

(** X13, at the second call for the context of [main]. *)
Lemma myEccSign_library_protocol_witness :
  let w := world0 in
  let cb := ctx_at KEY_FILE 1 in
  error_codes_ok wolfssl_codes
  /\ exists evs,
       trace (final (myEccSign true 100 digest 2 [] 72 NULL 0 cb w)) = trace w ++ evs
       /\ (lib_calls evs = []
           \/ (exists rc, rc < 0 /\ lib_calls evs = [CallKeyPemToDer rc])
           \/ (exists rc ri, 0 <= rc /\ ri <> 0
                 /\ lib_calls evs = [CallKeyPemToDer rc; CallEccInit ri])
           \/ (exists rc rd, 0 <= rc /\ rd <> 0
                 /\ lib_calls evs = [CallKeyPemToDer rc; CallEccInit 0;
                                     CallEccPrivateKeyDecode rd; CallEccFree])
           \/ (exists rc rs, 0 <= rc
                 /\ lib_calls evs = [CallKeyPemToDer rc; CallEccInit 0;
                                     CallEccPrivateKeyDecode 0;
                                     CallGetRNG 100 (wolfSSL_GetRNG 100);
                                     CallEccSignHash (wolfSSL_GetRNG 100) rs;
                                     CallEccFree])).
Proof.
  intros w cb. split; [exact wolfssl_codes_ok |].
  exact (myEccSign_library_protocol true 100 digest 2 [] 72 NULL 0 cb w wolfssl_codes_ok).
Defined.

End CallbackMoreConcrete.

(* ===================================================================== *)
(** * Properties of [main] as a whole                                    *)
(* ===================================================================== *)

Section MainMore.

Context {E : ErrorCodes}.
Context {ecc_key : Type}.

Variable Session : Type.
Variable wolfSSL_accept : Session * PkCbInfo (ecc_key := ecc_key) -> Z * (Session * PkCbInfo (ecc_key := ecc_key)).
Variable wolfSSL_get_error : Session -> Z -> Z.
Variable WOLFSSL_SUCCESS : Z.
Variable SOCKET_INVALID : Z.
Variable myCtx_addr : ptr.
Variable zero_key : ecc_key.

Abbreviation round' := (round Session wolfSSL_accept wolfSSL_get_error WOLFSSL_SUCCESS myCtx_addr).
Abbreviation rounds' := (rounds Session wolfSSL_accept wolfSSL_get_error WOLFSSL_SUCCESS
                       SOCKET_INVALID myCtx_addr).
Abbreviation served_all' := (served_all Session wolfSSL_accept wolfSSL_get_error
                           WOLFSSL_SUCCESS myCtx_addr).
Abbreviation run_main' := (run_main Session wolfSSL_accept wolfSSL_get_error WOLFSSL_SUCCESS
                         SOCKET_INVALID myCtx_addr zero_key).
Abbreviation establish' := (establish Session wolfSSL_accept wolfSSL_get_error WOLFSSL_SUCCESS).
Abbreviation myCtx0 := {| keyFile := Some KEY_FILE; key := zero_key; state := 0 |}.

Lemma closes_app a b : closes (a ++ b) = closes a ++ closes b.
Proof. apply omap_app. Qed.

Lemma accepts_app a b : accepts (a ++ b) = accepts a ++ accepts b.
Proof. apply omap_app. Qed.

Lemma ctx_frees_app a b : ctx_frees (a ++ b) = ctx_frees a ++ ctx_frees b.
Proof. apply omap_app. Qed.

(** One round, outcome by outcome. *)
Lemma round_spec fuel c ssl myCtx :
  match round' fuel c ssl myCtx with
  | (Served sd myCtx', log) =>
      conn_fd c <> -1 /\ conn_ssl c <> NULL
      /\ sd = String.prefix "shutdown" (conn_data c)
      /\ (exists s, establish' fuel (conn_session c, myCtx) = Some (inr (s, myCtx')))
      /\ exists body,
           log = CAccept (conn_fd c) :: CNew (conn_ssl c) :: body
                 ++ [CShutdown (conn_ssl c); CFree (conn_ssl c); CClose (conn_fd c)]
           /\ closes body = [] /\ accepts body = []
  | (Failed ret connd s, log) =>
      connd = conn_fd c
      /\ closes log = [] /\ accepts log = [conn_fd c]
      /\ ((conn_fd c = -1 /\ s = ssl /\ ret = -1 /\ log = [CAccept (conn_fd c)])
          \/ (conn_fd c <> -1 /\ s = conn_ssl c
              /\ exists body, log = CAccept (conn_fd c) :: CNew (conn_ssl c) :: body))
  | (Stuck, log) => True
  end.
Proof.
  unfold round.
  destruct (conn_fd c =? -1) eqn:Hfd; [apply Z.eqb_eq in Hfd | apply Z.eqb_neq in Hfd].
  { split_and!; try done. rewrite Hfd. by left. }
  destruct (conn_ssl c =? NULL) eqn:Hssl; [apply Z.eqb_eq in Hssl | apply Z.eqb_neq in Hssl].
  { split_and!; try done. right. split_and!; try done. by eexists. }
  destruct (establish' fuel (conn_session c, myCtx)) as [[[ret err] | [s myCtx']] |]
    eqn:Hest; [| | done].
  { split_and!; try done. right. split_and!; try done. by eexists. }
  destruct (conn_read c =? -1).
  { split_and!; try done. right. split_and!; try done. by eexists. }
  destruct (negb (conn_write c =? reply_len)).
  { split_and!; try done. right. split_and!; try done. by eexists. }
  split_and!; try done; [by eexists |].
  eexists. split; [reflexivity | done].
Qed.

Lemma session_frees_app a b : session_frees (a ++ b) = session_frees a ++ session_frees b.
Proof. apply omap_app. Qed.

(** A round that is served does not look at the old value of [ssl]. *)
Lemma round_served_any_ssl fuel c ssl ssl' myCtx sd myCtx' :
  fst (round' fuel c ssl myCtx) = Served sd myCtx' ->
  round' fuel c ssl' myCtx = round' fuel c ssl myCtx.
Proof. unfold round. by destruct (conn_fd c =? -1). Qed.

(** What a served round adds to the log. *)
Lemma round_served_log fuel c ssl myCtx sd myCtx' :
  fst (round' fuel c ssl myCtx) = Served sd myCtx' ->
  conn_fd c <> -1 /\ conn_ssl c <> NULL
  /\ sd = String.prefix "shutdown" (conn_data c)
  /\ session_frees (snd (round' fuel c ssl myCtx)) = [conn_ssl c]
  /\ accepts (snd (round' fuel c ssl myCtx)) = [conn_fd c]
  /\ closes (snd (round' fuel c ssl myCtx)) = [conn_fd c]
  /\ Forall round_call (snd (round' fuel c ssl myCtx))
  /\ exists body, snd (round' fuel c ssl myCtx)
                  = body ++ [CShutdown (conn_ssl c); CFree (conn_ssl c); CClose (conn_fd c)].
Proof.
  unfold round.
  destruct (conn_fd c =? -1) eqn:Hfd; [done | apply Z.eqb_neq in Hfd].
  destruct (conn_ssl c =? NULL) eqn:Hssl; [done | apply Z.eqb_neq in Hssl].
  destruct (establish' fuel (conn_session c, myCtx)) as [[[ret err] | [s myCtx1]] |];
    [done | | done].
  destruct (conn_read c =? -1); [done |].
  destruct (negb (conn_write c =? reply_len)); [done |].
  simpl. intros [= <- <-]. split_and!; try done.
  - repeat constructor.
  - by eexists [_; _; _; _; _; _; _].
Qed.

(** What a failed round adds to the log. *)
Lemma round_failed_log fuel c ssl myCtx ret connd s :
  fst (round' fuel c ssl myCtx) = Failed ret connd s ->
  connd = conn_fd c
  /\ session_frees (snd (round' fuel c ssl myCtx)) = []
  /\ accepts (snd (round' fuel c ssl myCtx)) = [conn_fd c]
  /\ closes (snd (round' fuel c ssl myCtx)) = []
  /\ Forall round_call (snd (round' fuel c ssl myCtx))
  /\ (conn_fd c = -1 -> s = ssl /\ ret = -1).
Proof.
  unfold round.
  destruct (conn_fd c =? -1) eqn:Hfd; [apply Z.eqb_eq in Hfd | apply Z.eqb_neq in Hfd].
  { simpl. intros [= <- <- <-]. split_and!; try done. repeat constructor. }
  destruct (conn_ssl c =? NULL) eqn:Hssl.
  { simpl. intros [= <- <- <-]. split_and!; try done. repeat constructor. }
  destruct (establish' fuel (conn_session c, myCtx)) as [[[ret' err] | [s' myCtx1]] |];
    [| | done].
  { simpl. intros [= <- <- <-]. split_and!; try done. repeat constructor. }
  destruct (conn_read c =? -1).
  { simpl. intros [= <- <- <-]. split_and!; try done. repeat constructor. }
  destruct (negb (conn_write c =? reply_len)); [| done].
  simpl. intros [= <- <- <-]. split_and!; try done. repeat constructor.
Qed.

(** The loop over clients that are all served, followed by others. *)
Lemma rounds_served_app fuel pre : forall ssl myCtx ctx1 rest,
  served_all' fuel pre ssl myCtx = Some ctx1 ->
  rounds' fuel (pre ++ rest) ssl myCtx
  = (fst (rounds' fuel rest (from_option conn_ssl ssl (last pre)) ctx1),
     snd (rounds' fuel pre ssl myCtx)
     ++ snd (rounds' fuel rest (from_option conn_ssl ssl (last pre)) ctx1)).
Proof.
  induction pre as [| c pre IH]; intros ssl myCtx ctx1 rest Hs.
  { simpl in *. injection Hs as <-. by destruct (rounds' fuel rest ssl myCtx). }
  simpl in Hs. simpl rounds.
  destruct (round' fuel c ssl myCtx) as [[[] myCtx' | |] log]; simpl in Hs; try done.
  rewrite (IH _ _ _ rest Hs). rewrite last_cons.
  destruct (rounds' fuel pre (conn_ssl c) myCtx') as [e1 l1] eqn:Hpre.
  simpl. rewrite <- app_assoc. by destruct (last pre).
Qed.

(** What the loop logs for clients that are all served. *)
Lemma rounds_served_log fuel pre : forall ssl myCtx ctx1,
  served_all' fuel pre ssl myCtx = Some ctx1 ->
  fst (rounds' fuel pre ssl myCtx) = Blocked
  /\ session_frees (snd (rounds' fuel pre ssl myCtx)) = map conn_ssl pre
  /\ accepts (snd (rounds' fuel pre ssl myCtx)) = map conn_fd pre
  /\ closes (snd (rounds' fuel pre ssl myCtx)) = map conn_fd pre
  /\ Forall (fun c => conn_fd c <> -1) pre.
Proof.
  induction pre as [| c pre IH]; intros ssl myCtx ctx1 Hs; [done |].
  simpl in Hs. simpl rounds.
  destruct (round' fuel c ssl myCtx) as [[[] myCtx' | |] log] eqn:Hround;
    simpl in Hs; try done.
  assert (fst (round' fuel c ssl myCtx) = Served false myCtx') as Hfst by by rewrite Hround.
  apply round_served_log in Hfst as (Hfd & _ & _ & Hf & Ha & Hc & _).
  rewrite Hround in Hf, Ha, Hc. simpl in Hf, Ha, Hc.
  destruct (IH _ _ _ Hs) as (He & Hf' & Ha' & Hc' & Hall).
  destruct (rounds' fuel pre (conn_ssl c) myCtx') as [e1 l1]. simpl in *.
  rewrite session_frees_app, accepts_app, closes_app, Hf, Ha, Hc, Hf', Ha', Hc'.
  split_and!; try done. by constructor.
Qed.

(** A set-up that reaches the loop. *)
Lemma configure_done su log0 ctx :
  configure WOLFSSL_SUCCESS su = (log0, ctx, None) ->
  su_socket su <> -1 /\ su_bind su <> -1 /\ su_listen su <> -1
  /\ ctx = su_ctx su /\ ctx <> NULL
  /\ su_cert su = WOLFSSL_SUCCESS /\ su_key su = WOLFSSL_SUCCESS
  /\ su_ca su = WOLFSSL_SUCCESS
  /\ log0 = [CSocket (su_socket su); CBind (su_bind su); CListen (su_listen su);
             CInit; CCtxNew ctx; CUseCertificate WOLFSSL_SUCCESS;
             CUsePrivateKey WOLFSSL_SUCCESS; CLoadVerify WOLFSSL_SUCCESS;
             CSetVerify ctx; CSetEccSignCb ctx].
Proof.
  unfold configure.
  destruct (su_socket su =? -1) eqn:H1; [done | apply Z.eqb_neq in H1].
  destruct (su_bind su =? -1) eqn:H2; [done | apply Z.eqb_neq in H2].
  destruct (su_listen su =? -1) eqn:H3; [done | apply Z.eqb_neq in H3].
  destruct (su_ctx su =? NULL) eqn:H4; [done | apply Z.eqb_neq in H4].
  destruct (su_cert su =? WOLFSSL_SUCCESS) eqn:H5; [apply Z.eqb_eq in H5 | done].
  destruct (su_key su =? WOLFSSL_SUCCESS) eqn:H6; [apply Z.eqb_eq in H6 | done].
  destruct (su_ca su =? WOLFSSL_SUCCESS) eqn:H7; [apply Z.eqb_eq in H7 | done].
  simpl. rewrite H5, H6, H7. intros [= <- <-]. by split_and!.
Qed.

Lemma ctx_news_app a b : ctx_news (a ++ b) = ctx_news a ++ ctx_news b.
Proof. apply omap_app. Qed.

Lemma tally_app p a b : (tally p (a ++ b) = tally p a + tally p b)%nat.
Proof. unfold tally. by rewrite List.filter_app, length_app. Qed.

(** A set-up that does not reach the loop. *)
Lemma configure_failed su log0 ctx ret :
  configure WOLFSSL_SUCCESS su = (log0, ctx, Some ret) ->
  Forall setup_call log0
  /\ tally is_init log0 = (if listening su then 1 else 0)%nat
  /\ ctx_news log0 = (if ctx =? NULL then [] else [ctx]).
Proof.
  unfold configure, listening.
  destruct (su_socket su =? -1); [intros [= <- <- <-]; split_and!; [repeat constructor | done ..] |].
  destruct (su_bind su =? -1); [intros [= <- <- <-]; split_and!; [repeat constructor | done ..] |].
  destruct (su_listen su =? -1); [intros [= <- <- <-]; split_and!; [repeat constructor | done ..] |].
  destruct (su_ctx su =? NULL) eqn:H4.
  { intros [= <- <- <-]. simpl. rewrite H4.
    split_and!; [repeat constructor | done ..]. }
  destruct (negb (su_cert su =? WOLFSSL_SUCCESS)).
  { intros [= <- <- <-]. simpl. rewrite H4.
    split_and!; [repeat constructor | done ..]. }
  destruct (negb (su_key su =? WOLFSSL_SUCCESS)).
  { intros [= <- <- <-]. simpl. rewrite H4.
    split_and!; [repeat constructor | done ..]. }
  destruct (negb (su_ca su =? WOLFSSL_SUCCESS)); [| done].
  intros [= <- <- <-]. simpl. rewrite H4.
  split_and!; [repeat constructor | done ..].
Qed.

(** The calls of the set-up are no calls of the loop or of the exit. *)
Lemma setup_calls_log l :
  Forall setup_call l ->
  closes l = [] /\ accepts l = [] /\ ctx_frees l = [] /\ session_frees l = []
  /\ tally is_cleanup l = 0%nat.
Proof.
  induction 1 as [| e l He _ (IH1 & IH2 & IH3 & IH4 & IH5)]; [done |].
  by destruct e.
Qed.

(** The calls of the loop are no calls of the set-up or of the exit. *)
Lemma round_calls_log l :
  Forall round_call l ->
  ctx_frees l = [] /\ ctx_news l = []
  /\ tally is_cleanup l = 0%nat /\ tally is_init l = 0%nat.
Proof.
  induction 1 as [| e l He _ (IH1 & IH2 & IH3 & IH4)]; [done |].
  by destruct e.
Qed.

(** The old value of [ssl] only shows in the [ssl] a failed round
    leaves. *)
Lemma round_failed_any_ssl fuel c ssl ssl' myCtx ret connd s :
  fst (round' fuel c ssl myCtx) = Failed ret connd s ->
  snd (round' fuel c ssl' myCtx) = snd (round' fuel c ssl myCtx)
  /\ exists s', fst (round' fuel c ssl' myCtx) = Failed ret connd s'.
Proof.
  unfold round.
  destruct (conn_fd c =? -1).
  { simpl. intros [= <- <- <-]. split; [done | by eexists]. }
  intros H. split; [done | by eexists].
Qed.

(** The calls of the loop, and the descriptors it leaves open. *)
Lemma rounds_log fuel conns : forall ssl myCtx,
  Forall round_call (snd (rounds' fuel conns ssl myCtx))
  /\ (SOCKET_INVALID = -1 ->
      forall ret connd s,
        fst (rounds' fuel conns ssl myCtx) = AtExit ret connd s ->
        closes (snd (rounds' fuel conns ssl myCtx))
          ++ (if connd =? -1 then [] else [connd])
        = List.filter (fun fd => negb (fd =? -1))
            (accepts (snd (rounds' fuel conns ssl myCtx)))).
Proof.
  induction conns as [| c rest IH]; intros ssl myCtx; [done |].
  simpl rounds.
  destruct (round' fuel c ssl myCtx) as [[sd myCtx' | ret0 connd0 s0 |] log] eqn:Hround.
  - assert (fst (round' fuel c ssl myCtx) = Served sd myCtx') as Hfst by by rewrite Hround.
    apply round_served_log in Hfst as (Hfd%Z.eqb_neq & _ & _ & _ & Ha & Hc & Hall & _).
    rewrite Hround in Ha, Hc, Hall. simpl in Ha, Hc, Hall.
    destruct sd.
    + simpl. split; [done |]. intros -> ret connd s [= <- <- <-].
      rewrite Ha, Hc. simpl. by rewrite Hfd.
    + destruct (IH (conn_ssl c) myCtx') as [IH1 IH2].
      destruct (rounds' fuel rest (conn_ssl c) myCtx') as [e l]. simpl in *.
      split; [by apply Forall_app |].
      intros Hinv ret connd s ->.
      rewrite closes_app, accepts_app, List.filter_app, Ha, Hc, <- app_assoc.
      rewrite (IH2 Hinv ret connd s eq_refl). simpl. by rewrite Hfd.
  - assert (fst (round' fuel c ssl myCtx) = Failed ret0 connd0 s0) as Hfst by by rewrite Hround.
    apply round_failed_log in Hfst as (-> & _ & Ha & Hc & Hall & _).
    rewrite Hround in Ha, Hc, Hall. simpl in Ha, Hc, Hall.
    simpl. split; [done |]. intros _ ret connd s [= <- <- <-].
    rewrite Ha, Hc. simpl. by destruct (conn_fd c =? -1).
  - assert (Forall round_call log) as Hall; [| done].
    revert Hround. unfold round.
    destruct (conn_fd c =? -1); [done |].
    destruct (conn_ssl c =? NULL); [done |].
    destruct (establish' fuel (conn_session c, myCtx)) as [[[ret' err] | [s' myCtx1]] |].
    + done.
    + destruct (conn_read c =? -1); [done |].
      by destruct (negb (conn_write c =? reply_len)).
    + intros [= <-]. repeat constructor.
Qed.

(** X14. When [main] returns, it has closed each descriptor it was given
    once: the descriptors passed to [close] are, in order, those that
    [accept] has returned (the failed -1 apart), followed by the
    listening socket when [socket] has succeeded. *)
Theorem main_closes_each_descriptor_once su fuel conns r log :
  SOCKET_INVALID = -1 ->
  run_main' su fuel conns = (Exited r, log) ->
  closes log
  = List.filter (fun fd => negb (fd =? -1)) (accepts log)
    ++ (if su_socket su =? -1 then [] else [su_socket su]).
Proof.
  intros Hinv. unfold run_main.
  destruct (configure WOLFSSL_SUCCESS su) as [[log0 ctx] [ret |]] eqn:Hconf.
  - apply configure_failed in Hconf as (Hall & _ & _).
    apply setup_calls_log in Hall as (Hc & Ha & _).
    intros [= <- <-]. rewrite closes_app, accepts_app, Hc, Ha. unfold cleanup.
    rewrite Z.eqb_refl, Hinv. simpl.
    by destruct (su_socket su =? -1), (ctx =? NULL).
  - apply configure_done in Hconf as (H1 & _ & _ & -> & Hctx & _ & _ & _ & Hlog).
    assert (Forall setup_call log0) as Hsetup by (subst log0; repeat constructor).
    apply setup_calls_log in Hsetup as (Hc & Ha & _). clear Hlog.
    destruct (rounds_log fuel conns NULL myCtx0) as [Hall Hbal].
    destruct (rounds' fuel conns NULL myCtx0) as [[ret connd s | |] log'] eqn:Hrounds;
      [| done ..].
    intros [= <- <-]. specialize (Hbal Hinv ret connd s eq_refl). simpl in Hbal.
    rewrite !closes_app, !accepts_app, Hc, Ha. simpl. rewrite List.filter_app.
    unfold cleanup. rewrite Hinv.
    apply Z.eqb_neq in H1. rewrite H1.
    rewrite <- Hbal, <- !app_assoc. f_equal.
    destruct (s =? NULL), (connd =? -1), (su_ctx su =? NULL); simpl; done.
Qed.

(** X15. On every path to its [return], [main] calls [wolfSSL_Cleanup]
    once, as its last call, and frees the [WOLFSSL_CTX] exactly when
    [wolfSSL_CTX_new] has made one.  [wolfSSL_Init] is called once when
    [socket], [bind] and [listen] succeed and not at all otherwise: in
    that case the library is cleaned up without having been
    initialised. *)
Theorem main_cleans_up_once su fuel conns r log :
  run_main' su fuel conns = (Exited r, log) ->
  (exists body, log = body ++ [CCleanup] /\ tally is_cleanup body = 0%nat)
  /\ tally is_init log = (if listening su then 1 else 0)%nat
  /\ ctx_frees log = ctx_news log.
Proof.
  unfold run_main.
  destruct (configure WOLFSSL_SUCCESS su) as [[log0 ctx] [ret |]] eqn:Hconf.
  - apply configure_failed in Hconf as (Hall & Hinit & Hnew).
    apply setup_calls_log in Hall as (_ & _ & Hcf & _ & Hcl).
    intros [= <- <-]. unfold cleanup. split_and!.
    + eexists. rewrite !app_assoc. split; [reflexivity |].
      rewrite !tally_app, Hcl. simpl.
      by destruct (SOCKET_INVALID =? SOCKET_INVALID), (su_socket su =? SOCKET_INVALID),
        (ctx =? NULL).
    + rewrite !tally_app, Hinit.
      destruct (listening su), (SOCKET_INVALID =? SOCKET_INVALID),
        (su_socket su =? SOCKET_INVALID), (ctx =? NULL); done.
    + rewrite !ctx_frees_app, !ctx_news_app, Hcf, Hnew. simpl.
      destruct (SOCKET_INVALID =? SOCKET_INVALID), (su_socket su =? SOCKET_INVALID),
        (ctx =? NULL); simpl; by rewrite ?app_nil_r.
  - apply configure_done in Hconf as (H1 & H2 & H3 & -> & Hctx & _ & _ & _ & Hlog).
    apply Z.eqb_neq in H1, H2, H3, Hctx.
    assert (Forall setup_call log0) as Hsetup by (subst log0; repeat constructor).
    apply setup_calls_log in Hsetup as (_ & _ & Hcf0 & _ & Hcl0).
    assert (tally is_init log0 = 1%nat) as Hin0 by by subst log0.
    assert (ctx_news log0 = [su_ctx su]) as Hcn0
      by (subst log0; simpl; by rewrite Hctx).
    clear Hlog.
    destruct (rounds_log fuel conns NULL myCtx0) as [Hall _].
    destruct (rounds' fuel conns NULL myCtx0) as [[ret connd s | |] log'] eqn:Hrounds;
      [| done ..].
    simpl in Hall. apply round_calls_log in Hall as (Hcf & Hcn & Hcl & Hin).
    intros [= <- <-]. unfold cleanup, listening. rewrite H1, H2, H3, Hctx. split_and!.
    + eexists. rewrite !app_assoc. split; [reflexivity |].
      rewrite !tally_app, Hcl, Hcl0. simpl.
      by destruct (s =? NULL), (connd =? SOCKET_INVALID), (su_socket su =? SOCKET_INVALID).
    + rewrite !tally_app, Hin, Hin0. simpl.
      by destruct (s =? NULL), (connd =? SOCKET_INVALID), (su_socket su =? SOCKET_INVALID).
    + rewrite !ctx_frees_app, !ctx_news_app, Hcf, Hcn, Hcf0, Hcn0. simpl.
      by destruct (s =? NULL), (connd =? SOCKET_INVALID), (su_socket su =? SOCKET_INVALID).
Qed.

Lemma accepts_cleanup sockfd connd ctx s :
  accepts (cleanup SOCKET_INVALID sockfd connd ctx s) = [].
Proof.
  unfold cleanup.
  by destruct (s =? NULL), (connd =? SOCKET_INVALID), (sockfd =? SOCKET_INVALID),
    (ctx =? NULL).
Qed.

Lemma session_frees_cleanup sockfd connd ctx s :
  session_frees (cleanup SOCKET_INVALID sockfd connd ctx s)
  = if s =? NULL then [] else [s].
Proof.
  unfold cleanup.
  by destruct (s =? NULL), (connd =? SOCKET_INVALID), (sockfd =? SOCKET_INVALID),
    (ctx =? NULL).
Qed.

(** X16. No client is accepted before the server is configured: when
    [accept] is called at all, [socket], [bind] and [listen] have
    succeeded, the [WOLFSSL_CTX] exists, certificate, key and CA file
    have been loaded with [WOLFSSL_SUCCESS], and peer verification and
    the sign callback have been set on the context, in this order. *)
Theorem main_accepts_only_when_configured su fuel conns :
  accepts (snd (run_main' su fuel conns)) <> [] ->
  su_socket su <> -1 /\ su_bind su <> -1 /\ su_listen su <> -1
  /\ su_ctx su <> NULL
  /\ su_cert su = WOLFSSL_SUCCESS /\ su_key su = WOLFSSL_SUCCESS
  /\ su_ca su = WOLFSSL_SUCCESS
  /\ exists tl,
       snd (run_main' su fuel conns)
       = [CSocket (su_socket su); CBind (su_bind su); CListen (su_listen su);
          CInit; CCtxNew (su_ctx su); CUseCertificate WOLFSSL_SUCCESS;
          CUsePrivateKey WOLFSSL_SUCCESS; CLoadVerify WOLFSSL_SUCCESS;
          CSetVerify (su_ctx su); CSetEccSignCb (su_ctx su)] ++ tl.
Proof.
  unfold run_main.
  destruct (configure WOLFSSL_SUCCESS su) as [[log0 ctx] [ret |]] eqn:Hconf.
  - apply configure_failed in Hconf as (Hall & _ & _).
    apply setup_calls_log in Hall as (_ & Ha & _).
    simpl. by rewrite accepts_app, Ha, accepts_cleanup.
  - apply configure_done in Hconf as (H1 & H2 & H3 & -> & Hctx & H5 & H6 & H7 & ->).
    intros _. split_and!; try done.
    destruct (rounds' fuel conns NULL myCtx0) as [[ret connd s | |] log'];
      simpl; by eexists.
Qed.

(** X17. The session of the last client served is freed twice.  When
    the clients [pre] have been served, and [c] is served and either
    sends the shutdown command or is followed by a failing [accept],
    [main] returns (0, or -1 after the failed [accept]) and has called
    [wolfSSL_free] once on each earlier session and twice on the session
    of [c], which is not [NULL]: once at the end of the round, and once
    more at [exit:]. *)
Theorem main_frees_last_served_session_twice su fuel pre c rest log0 ctx ctx1 ctx2 sd :
  configure WOLFSSL_SUCCESS su = (log0, ctx, None) ->
  served_all' fuel pre NULL myCtx0 = Some ctx1 ->
  fst (round' fuel c NULL ctx1) = Served sd ctx2 ->
  sd = true \/ (exists c1 rest', rest = c1 :: rest' /\ conn_fd c1 = -1) ->
  conn_ssl c <> NULL
  /\ exists log,
       run_main' su fuel (pre ++ c :: rest) = (Exited (if sd then 0 else -1), log)
       /\ session_frees log = map conn_ssl pre ++ [conn_ssl c; conn_ssl c].
Proof.
  intros Hconf Hpre Hc Hend.
  apply configure_done in Hconf as Hdone.
  destruct Hdone as (_ & _ & _ & _ & _ & _ & _ & _ & Hlog).
  assert (Forall setup_call log0) as Hsetup by (subst log0; repeat constructor).
  apply setup_calls_log in Hsetup as (_ & _ & _ & Hf0 & _). clear Hlog.
  destruct (rounds_served_log fuel pre _ _ _ Hpre) as (_ & Hfpre & _).
  set (ssl1 := from_option conn_ssl NULL (last pre)).
  rewrite <- (round_served_any_ssl fuel c NULL ssl1 ctx1 sd ctx2 Hc) in Hc.
  destruct (round_served_log fuel c ssl1 ctx1 sd ctx2 Hc) as (_ & Hssl & _ & Hfc & _).
  split; [done |].
  unfold run_main. rewrite Hconf.
  rewrite (rounds_served_app fuel pre NULL myCtx0 ctx1 (c :: rest) Hpre).
  fold ssl1. simpl rounds.
  destruct (round' fuel c ssl1 ctx1) as [st logc]. simpl in Hc, Hfc. subst st.
  apply Z.eqb_neq in Hssl.
  destruct Hend as [-> | (c1 & rest' & -> & Hfd)].
  - simpl. eexists. split; [reflexivity |].
    rewrite !session_frees_app, Hf0, Hfpre, Hfc, session_frees_cleanup, Hssl.
    simpl. by rewrite <- app_assoc.
  - destruct sd.
    + simpl. eexists. split; [reflexivity |].
      rewrite !session_frees_app, Hf0, Hfpre, Hfc, session_frees_cleanup, Hssl.
      simpl. by rewrite <- app_assoc.
    + assert (round' fuel c1 (conn_ssl c) ctx2
              = (Failed (-1) (conn_fd c1) (conn_ssl c), [CAccept (conn_fd c1)])) as Hr1.
      { unfold round. apply Z.eqb_eq in Hfd. by rewrite Hfd. }
      simpl rounds. rewrite Hr1. simpl. eexists. split; [reflexivity |].
      rewrite !session_frees_app, Hf0, Hfpre, Hfc, session_frees_cleanup, Hssl.
      simpl. by rewrite <- app_assoc.
Qed.

(** X18. A client that is not served ends the server.  When the clients
    [pre] have been served and the round of [c] fails (in [accept],
    [wolfSSL_new], the handshake, [wolfSSL_read] or [wolfSSL_write]),
    [main] returns the code of that round, and what it does is the same
    whatever clients are waiting behind [c]: none of them is accepted. *)
Theorem main_stops_at_first_failed_client su fuel pre c rest log0 ctx ctx1 ret connd s :
  configure WOLFSSL_SUCCESS su = (log0, ctx, None) ->
  served_all' fuel pre NULL myCtx0 = Some ctx1 ->
  fst (round' fuel c NULL ctx1) = Failed ret connd s ->
  run_main' su fuel (pre ++ c :: rest) = run_main' su fuel (pre ++ [c])
  /\ fst (run_main' su fuel (pre ++ c :: rest)) = Exited ret
  /\ accepts (snd (run_main' su fuel (pre ++ c :: rest))) = map conn_fd (pre ++ [c]).
Proof.
  intros Hconf Hpre Hc.
  apply configure_done in Hconf as Hdone.
  destruct Hdone as (_ & _ & _ & _ & _ & _ & _ & _ & Hlog).
  assert (Forall setup_call log0) as Hsetup by (subst log0; repeat constructor).
  apply setup_calls_log in Hsetup as (_ & Ha0 & _). clear Hlog.
  destruct (rounds_served_log fuel pre _ _ _ Hpre) as (_ & _ & Hapre & _).
  set (ssl1 := from_option conn_ssl NULL (last pre)).
  destruct (round_failed_any_ssl fuel c NULL ssl1 ctx1 ret connd s Hc) as (_ & s' & Hc').
  destruct (round_failed_log fuel c ssl1 ctx1 ret connd s' Hc') as (_ & _ & Hac & _).
  unfold run_main. rewrite Hconf.
  rewrite !(rounds_served_app fuel pre NULL myCtx0 ctx1 _ Hpre).
  fold ssl1. simpl rounds.
  destruct (round' fuel c ssl1 ctx1) as [st logc]. simpl in Hc', Hac. subst st.
  simpl. split_and!; try done.
  rewrite !accepts_app, Ha0, Hapre, Hac, accepts_cleanup, map_app. simpl.
  by rewrite app_nil_r.
Qed.

(** When the handshake is established, the context the loop leaves is
    the one the rest of the round works with. *)
Lemma context_after_established fuel s s' ctx' :
  establish' fuel s = Some (inr (s', ctx')) ->
  context_after Session wolfSSL_accept wolfSSL_get_error fuel s = ctx'.
Proof.
  unfold establish, context_after.
  destruct (accept_loop Session wolfSSL_accept wolfSSL_get_error fuel s)
    as [[[ret err] [s1 c1]] |]; [| done].
  by destruct (negb (ret =? WOLFSSL_SUCCESS)); intros [= <- <-].
Qed.

(** The loop as modelled here ends as [serve] does. *)
Lemma rounds_ends_as_serve fuel conns : forall n ssl myCtx log,
  fst (fst (serve Session wolfSSL_accept wolfSSL_get_error WOLFSSL_SUCCESS myCtx_addr
              fuel n conns myCtx log))
  = match fst (rounds' fuel conns ssl myCtx) with
    | AtExit ret _ _ => Exited ret
    | Blocked => Waiting
    | Spinning => Retrying
    end.
Proof.
  induction conns as [| c rest IH]; intros n ssl myCtx log; [done |].
  simpl. unfold round.
  destruct (conn_fd c =? -1); [done |].
  destruct (conn_ssl c =? NULL); [done |].
  destruct (establish' fuel (conn_session c, myCtx)) as [[[ret err] | [s myCtx1]] |];
    [done | | done].
  destruct (conn_read c =? -1); [done |].
  destruct (negb (conn_write c =? reply_len)); [done |].
  destruct (String.prefix "shutdown" (conn_data c)); [done |].
  rewrite (IH _ (conn_ssl c)).
  by destruct (rounds' fuel rest (conn_ssl c) myCtx1).
Qed.

(** Once the server is configured, [run_main] ends as [main] does. *)
Lemma run_main_ends_as_main su fuel conns log0 ctx :
  configure WOLFSSL_SUCCESS su = (log0, ctx, None) ->
  fst (run_main' su fuel conns)
  = fst (fst (main Session wolfSSL_accept wolfSSL_get_error WOLFSSL_SUCCESS
                myCtx_addr zero_key fuel conns)).
Proof.
  intros Hconf. unfold run_main, main. rewrite Hconf.
  rewrite (rounds_ends_as_serve fuel conns 0 NULL).
  by destruct (rounds' fuel conns NULL myCtx0) as [[] ?].
Qed.

End MainMore.

Section MainMoreConcrete.

Import Toy ToyServer.
#[local] Existing Instance wolfssl_codes.
#[local] Existing Instance toy_lib.

(** X14, at two clients, the second of which asks for shutdown. *)
Lemma main_closes_each_descriptor_once_witness :
  let conns := [client 4 600 "hello"; client 5 700 "shutdown"] in
  let log := snd (toy_run toy_setup 5 conns) in
  -1 = -1
  /\ toy_run toy_setup 5 conns = (Exited 0, log)
  /\ closes log
     = List.filter (fun fd => negb (fd =? -1)) (accepts log)
       ++ (if su_socket toy_setup =? -1 then [] else [su_socket toy_setup]).
Proof.
  intros conns log.
  assert (toy_run toy_setup 5 conns = (Exited 0, log)) as H by (vm_compute; reflexivity).
  split; [reflexivity |]. split; [exact H |].
  exact (main_closes_each_descriptor_once ToySession toy_accept toy_get_error 1 (-1)
           1000 KeyZero toy_setup 5 conns 0 log eq_refl H).
Defined.

(** X15, when [bind] fails. *)
Lemma main_cleans_up_once_witness :
  let su := {| su_socket := 3; su_bind := -1; su_listen := 0; su_ctx := 500;
               su_cert := 1; su_key := 1; su_ca := 1 |} in
  let log := [CSocket 3; CBind (-1); CClose 3; CCleanup] in
  toy_run su 5 [client 4 600 "hello"] = (Exited (-1), log)
  /\ (exists body, log = body ++ [CCleanup] /\ tally is_cleanup body = 0%nat)
  /\ tally is_init log
     = (if listening su then 1 else 0)%nat
  /\ ctx_frees log = ctx_news log.
Proof.
  intros su log.
  assert (toy_run su 5 [client 4 600 "hello"] = (Exited (-1), log)) as H
    by (vm_compute; reflexivity).
  split; [exact H |].
  exact (main_cleans_up_once ToySession toy_accept toy_get_error 1 (-1) 1000 KeyZero
           su 5 [client 4 600 "hello"] (-1) log H).
Defined.

(** X16, at one client. *)
Lemma main_accepts_only_when_configured_witness :
  let conns := [client 4 600 "hello"] in
  accepts (snd (toy_run toy_setup 5 conns)) <> []
  /\ su_socket toy_setup <> -1 /\ su_bind toy_setup <> -1 /\ su_listen toy_setup <> -1
  /\ su_ctx toy_setup <> NULL
  /\ su_cert toy_setup = 1 /\ su_key toy_setup = 1 /\ su_ca toy_setup = 1
  /\ exists tl,
       snd (toy_run toy_setup 5 conns)
       = [CSocket (su_socket toy_setup); CBind (su_bind toy_setup);
          CListen (su_listen toy_setup); CInit; CCtxNew (su_ctx toy_setup);
          CUseCertificate 1; CUsePrivateKey 1; CLoadVerify 1;
          CSetVerify (su_ctx toy_setup); CSetEccSignCb (su_ctx toy_setup)] ++ tl.
Proof.
  intros conns.
  assert (accepts (snd (toy_run toy_setup 5 conns)) <> []) as H
    by (vm_compute; discriminate).
  split; [exact H |].
  exact (main_accepts_only_when_configured ToySession toy_accept toy_get_error 1 (-1)
           1000 KeyZero toy_setup 5 conns H).
Defined.

(** X17, at a client served before the one that asks for shutdown. *)
Lemma main_frees_last_served_session_twice_witness :
  let pre := [client 4 600 "hello"] in
  let c := client 5 700 "shutdown" in
  let rest := [client 6 800 "late"] in
  let log0 := fst (fst (configure 1 toy_setup)) in
  configure 1 toy_setup = (log0, 500, None)
  /\ toy_served 5 pre NULL toy_ctx = Some toy_ctx_used
  /\ fst (toy_round 5 c NULL toy_ctx_used) = Served true toy_ctx_used
  /\ (true = true \/ (exists c1 rest', rest = c1 :: rest' /\ conn_fd c1 = -1))
  /\ conn_ssl c <> NULL
  /\ exists log,
       toy_run toy_setup 5 (pre ++ c :: rest) = (Exited 0, log)
       /\ session_frees log = map conn_ssl pre ++ [conn_ssl c; conn_ssl c].
Proof.
  intros pre c rest log0.
  assert (configure 1 toy_setup = (log0, 500, None)) as H1 by (vm_compute; reflexivity).
  assert (toy_served 5 pre NULL toy_ctx = Some toy_ctx_used) as H2
    by (vm_compute; reflexivity).
  assert (fst (toy_round 5 c NULL toy_ctx_used) = Served true toy_ctx_used) as H3
    by (vm_compute; reflexivity).
  assert (true = true \/ (exists c1 rest', rest = c1 :: rest' /\ conn_fd c1 = -1)) as H4
    by (left; reflexivity).
  split; [exact H1 |]. split; [exact H2 |]. split; [exact H3 |]. split; [exact H4 |].
  exact (main_frees_last_served_session_twice ToySession toy_accept toy_get_error 1 (-1)
           1000 KeyZero toy_setup 5 pre c rest log0 500 toy_ctx_used toy_ctx_used true
           H1 H2 H3 H4).
Defined.

(** X18, at a client whose [wolfSSL_write] is cut short. *)
Lemma main_stops_at_first_failed_client_witness :
  let pre := [client 4 600 "hello"] in
  let c := {| conn_fd := 5; conn_ssl := 700; conn_session := (world0, 0);
              conn_read := 5; conn_data := "hello"; conn_write := 10 |} in
  let rest := [client 6 800 "late"] in
  let log0 := fst (fst (configure 1 toy_setup)) in
  configure 1 toy_setup = (log0, 500, None)
  /\ toy_served 5 pre NULL toy_ctx = Some toy_ctx_used
  /\ fst (toy_round 5 c NULL toy_ctx_used) = Failed 10 5 700
  /\ toy_run toy_setup 5 (pre ++ c :: rest) = toy_run toy_setup 5 (pre ++ [c])
  /\ fst (toy_run toy_setup 5 (pre ++ c :: rest)) = Exited 10
  /\ accepts (snd (toy_run toy_setup 5 (pre ++ c :: rest))) = map conn_fd (pre ++ [c]).
Proof.
  intros pre c rest log0.
  assert (configure 1 toy_setup = (log0, 500, None)) as H1 by (vm_compute; reflexivity).
  assert (toy_served 5 pre NULL toy_ctx = Some toy_ctx_used) as H2
    by (vm_compute; reflexivity).
  assert (fst (toy_round 5 c NULL toy_ctx_used) = Failed 10 5 700) as H3
    by (vm_compute; reflexivity).
  split; [exact H1 |]. split; [exact H2 |]. split; [exact H3 |].
  exact (main_stops_at_first_failed_client ToySession toy_accept toy_get_error 1 (-1)
           1000 KeyZero toy_setup 5 pre c rest log0 500 toy_ctx_used 10 5 700
           H1 H2 H3).
Defined.

End MainMoreConcrete.

(* ===================================================================== *)
(** * The retry after [WC_PENDING_E], and the generator                  *)
(* ===================================================================== *)

Section CallbackClaims.

Context {E : ErrorCodes}.
Context {ecc_key : Type} {L : WolfCrypt ecc_key}.

(** C8. The callback takes its random generator from the session and
    never makes one of its own.  On every run, returning or not, no
    generator is created, every generator asked for is
    [wolfSSL_GetRNG ssl], and every call of [wc_ecc_sign_hash] is made
    with it.  And a signature is computed exactly on the path where the
    key is ready: when the call is not the simulated one, the key file
    is read and converted, and [wc_ecc_init] and
    [wc_EccPrivateKeyDecode] return 0, the callback asks the session for
    its generator, calls [wc_ecc_sign_hash] once with the digest, the
    decoded key and that generator, and returns what that call
    returned, code, bytes and length. *)
Theorem myEccSign_uses_session_rng async ssl input inSz out outSz key_ keySz
    (cb : PkCbInfo) w :
  error_codes_ok E ->
  let run := myEccSign async ssl input inSz out outSz key_ keySz cb w in
  let rng := wolfSSL_GetRNG ssl in
  (exists evs,
     trace (final run) = trace w ++ evs
     /\ (CallInitRng ∉ lib_calls evs)
     /\ (forall s g, CallGetRNG s g ∈ lib_calls evs -> s = ssl /\ g = rng)
     /\ (forall g r, CallEccSignHash g r ∈ lib_calls evs -> g = rng))
  /\ (forall path f,
        async && (state cb =? 0) = false ->
        keyFile cb = Some path -> fs w !! path = Some f ->
        let n := to_int (ftell f) in
        let conv := wc_KeyPemToDer (file_prefix f n) (to_word32 n) (to_word32 n) in
        let ini := wc_ecc_init (key cb) in
        let dec := wc_EccPrivateKeyDecode (snd conv) 0 (snd ini) (to_word32 (fst conv)) in
        let sg := wc_ecc_sign_hash input inSz out outSz rng (snd dec) in
        0 < n -> f_read_ok f = true ->
        malloc_ok w (n_malloc w) = true -> malloc_ok w (S (n_malloc w)) = true ->
        0 <= fst conv -> fst ini = 0 -> fst dec = 0 ->
        exists cb' w' evs,
          run = Ok (fst (fst sg), snd (fst sg), snd sg, cb') w'
          /\ trace w' = trace w ++ evs
          /\ lib_calls evs
             = [CallKeyPemToDer (fst conv); CallEccInit 0; CallEccPrivateKeyDecode 0;
                CallGetRNG ssl rng; CallEccSignHash rng (fst (fst sg)); CallEccFree]).
Proof.
  intros Hcodes run rng. split.
  - destruct (myEccSign_rng_events async ssl input inSz out outSz key_ keySz cb w)
      as [(evs & Htr & Hnew & Hget & Hsign) _].
    exists evs. split_and!; try done.
    intros g r Hin. by destruct (Hsign g r Hin).
  - intros path f Hcond Hkf Hfs n conv ini dec sg. subst n conv ini dec sg run.
    intros Hlen%Z.ltb_lt Hread Hm1 Hm2 Hconv%Z.ltb_ge Hini Hdec.
    pose proof (load_key_file_cases path key_ keySz (entered w) Hcodes) as Hload.
    simpl in Hload. rewrite Hfs, Hlen, Hm1, Hread, Hm2 in Hload.
    cbv zeta in Hload. rewrite Hconv in Hload. rewrite <- Hkf in Hload.
    match type of Hload with
    | _ = Ok (_, ?d, _) ?w1 =>
        assert (exists blk, heap w1 !! d = Some blk
                  /\ b_data blk = snd (wc_KeyPemToDer
                                         (file_prefix f (to_int (ftell f)))
                                         (to_word32 (to_int (ftell f)))
                                         (to_word32 (to_int (ftell f)))))
          as (blk & Hlive & Hdata)
          by (eexists; simpl; rewrite lookup_delete_ne, lookup_insert_eq by lia; done)
    end.
    rewrite (myEccSign_loaded _ _ _ _ _ _ _ _ _ _ _ _ _ _ Hcond Hload Hlive) by done.
    cbv zeta. rewrite Hdata, Hini, Hdec. simpl.
    do 3 eexists. split; [reflexivity |]. split.
    + simpl. rewrite <- !app_assoc. reflexivity.
    + reflexivity.
Qed.

(** X19. The call that follows a simulated answer does the work.  When a
    call has returned [WC_PENDING_E], the context is left in state 1
    with its file name and key untouched, and the next call on it, in
    whatever world, never answers [WC_PENDING_E].  Its outcome is that of
    [load_key_file] followed by the wolfCrypt calls: with the key loaded
    it returns, in state 0, the code of the first of [wc_ecc_init],
    [wc_EccPrivateKeyDecode] and [wc_ecc_sign_hash] that fails or the
    result of the signature; with the key not loaded it returns the code
    of the loader in state 0 when [free(keyBuf)] is defined, and stops in
    that [free] otherwise. *)
Theorem myEccSign_retry_does_the_work async
    ssl1 in1 inSz1 out1 outSz1 key1 keySz1 (cb : PkCbInfo) w o1 sz1 cb1 w1
    ssl input inSz out outSz key_ keySz w2 r d l w3 :
  error_codes_ok E -> lib_never_pending L ->
  myEccSign async ssl1 in1 inSz1 out1 outSz1 key1 keySz1 cb w
    = Ok (WC_PENDING_E, o1, sz1, cb1) w1 ->
  load_key_file (keyFile cb) key_ keySz (entered w2) = Ok (r, d, l) w3 ->
  let run2 := myEccSign async ssl input inSz out outSz key_ keySz cb1 w2 in
  let idle k := {| keyFile := keyFile cb; key := k; state := 0 |} in
  cb1 = {| keyFile := keyFile cb; key := key cb; state := 1 |}
  /\ (forall r2 o2 sz2 cb2 w', run2 = Ok (r2, o2, sz2, cb2) w' ->
        r2 <> WC_PENDING_E /\ state cb2 = 0)
  /\ (r <> 0 -> d = NULL \/ is_Some (heap w3 !! d) ->
      exists w', run2 = Ok (r, out, outSz, idle (key cb)) w')
  /\ (r <> 0 -> d <> NULL -> heap w3 !! d = None ->
      exists w', run2 = Crash (InvalidFree d) w')
  /\ (r = 0 ->
      exists blk w',
        heap w3 !! d = Some blk
        /\ let ini := wc_ecc_init (key cb) in
           let dec := wc_EccPrivateKeyDecode (b_data blk) 0 (snd ini) l in
           let sg := wc_ecc_sign_hash input inSz out outSz (wolfSSL_GetRNG ssl) (snd dec) in
           run2 = Ok (if fst ini =? 0 then
                        if fst dec =? 0 then
                          (fst (fst sg), snd (fst sg), snd sg, idle (wc_ecc_free (snd dec)))
                        else (fst dec, out, outSz, idle (wc_ecc_free (snd dec)))
                      else (fst ini, out, outSz, idle (snd ini))) w').
Proof.
  intros Hcodes Hlib H1 Hload run2 idle.
  destruct (myEccSign_pending_inv _ _ _ _ _ _ _ _ _ _ _ _ _ _ Hcodes Hlib H1)
    as (-> & Hst & ->).
  assert (true && (state {| keyFile := keyFile cb; key := key cb; state := 1 |} =? 0)
          = false) as Hcond by done.
  split; [done |]. split; [| split; [| split]].
  - intros r2 o2 sz2 cb2 w' H2. subst run2.
    assert (r2 <> WC_PENDING_E) as Hr2
      by (eapply myEccSign_completing_ret in H2; eauto).
    split; [done |].
    by destruct (myEccSign_state _ _ _ _ _ _ _ _ _ _ _ _ _ _ _ H2 Hr2) as [Hs _].
  - intros Hr Hfree. subst run2.
    rewrite (myEccSign_load_failed true ssl input inSz out outSz key_ keySz
               {| keyFile := keyFile cb; key := key cb; state := 1 |} w2 r d l w3
               Hcond Hload Hr).
    unfold bind, free, printf, emit, ret. simpl.
    destruct (d =? NULL) eqn:Hd; [by eexists |].
    destruct Hfree as [-> | [blk Hlive]]; [done |].
    rewrite Hlive. by eexists.
  - intros Hr Hd%Z.eqb_neq Hdead. subst run2.
    rewrite (myEccSign_load_failed true ssl input inSz out outSz key_ keySz
               {| keyFile := keyFile cb; key := key cb; state := 1 |} w2 r d l w3
               Hcond Hload Hr).
    unfold bind, free. simpl. rewrite Hd, Hdead. by eexists.
  - intros ->. subst run2.
    destruct (load_key_file_outcomes (keyFile cb) key_ keySz (entered w2) Hcodes)
      as (r' & d' & l' & w3' & evs & Hload' & _ & Hcases).
    rewrite Hload in Hload'. injection Hload' as <- <- <- <-.
    destruct Hcases as [(Hr & _) | [(Hr & _) | [(Hr & _) | (_ & Hd & [blk Hlive] & _)]]];
      [done | done | lia |].
    pose proof (myEccSign_loaded true ssl input inSz out outSz key_ keySz
                  {| keyFile := keyFile cb; key := key cb; state := 1 |} w2 d l w3 blk
                  Hcond Hload Hlive Hd) as Hrun.
    cbv zeta in Hrun. simpl in Hrun.
    exists blk. cbv zeta.
    destruct (fst (wc_ecc_init (key cb)) =? 0) eqn:Hini.
    2: { eexists. split; [done | exact Hrun]. }
    destruct (fst (wc_EccPrivateKeyDecode _ _ _ _) =? 0) eqn:Hdec;
      eexists; (split; [done | exact Hrun]).
Qed.

End CallbackClaims.

Section CallbackClaimsConcrete.

Import Toy.
#[local] Existing Instance wolfssl_codes.
#[local] Existing Instance toy_lib.

(** C2 (defect).  Two calls in a row for the context of [main], in a
    build with [WOLFSSL_ASYNC_CRYPT], when the key file cannot be opened
    and [key] is the key buffer of the engine.  The first call returns
    [WC_PENDING_E] and leaves the state at 1.  The second does not
    return: [load_key_file] fails, [free(keyBuf)] (line 175) is given
    the pointer of the engine, which is no heap block, and the run stops
    there, before the reset of line 177.  The state of the context is
    still 1. *)
Theorem myEccSign_retry_stops_before_reset :
  let w := world_with ∅ in
  let cb1 := {| keyFile := Some KEY_FILE; key := KeyZero; state := 1 |} in
  let w1 := set_trace [EvPrintf "PK ECC Sign: inSz %u, keySz %u";
                       EvPrintf "PK ECC Sign: Async Simulate"] w in
  let w2 := set_trace [EvPrintf "PK ECC Sign: inSz %u, keySz %u";
                       EvPrintf "PK ECC Sign: Async Simulate";
                       EvPrintf "PK ECC Sign: inSz %u, keySz %u";
                       EvFopen KEY_FILE false;
                       EvPrintf "Error loading %s";
                       EvFree engine_key] w in
  fs w !! KEY_FILE = None
  /\ myEccSign true 100 digest 2 [] 72 engine_key 3 myCtx0 w
     = Ok (WC_PENDING_E, [], 72, cb1) w1
  /\ state cb1 = 1
  /\ myEccSign true 100 digest 2 [] 72 engine_key 3 cb1 w1
     = Crash (InvalidFree engine_key) w2
  /\ (forall r o sz cb2 w',
        myEccSign true 100 digest 2 [] 72 engine_key 3 cb1 w1 <> Ok (r, o, sz, cb2) w').
Proof.
  intros w cb1 w1 w2.
  assert (myEccSign true 100 digest 2 [] 72 engine_key 3 cb1 w1
          = Crash (InvalidFree engine_key) w2) as H2 by (vm_compute; reflexivity).
  split; [reflexivity |]. split; [vm_compute; reflexivity |]. split; [reflexivity |].
  split; [exact H2 |].
  intros r o sz cb2 w' H. rewrite H2 in H. discriminate H.
Qed.

(** C8, at the second call for the context of [main]: the generator of
    session 100 is asked for and handed to [wc_ecc_sign_hash], whose
    result is returned. *)
Lemma myEccSign_uses_session_rng_witness :
  let w := world0 in
  let cb := ctx_at KEY_FILE 1 in
  let run := myEccSign true 100 digest 2 [] 72 NULL 0 cb w in
  error_codes_ok wolfssl_codes
  /\ wolfSSL_GetRNG 100 = 108
  /\ (exists evs,
        trace (final run) = trace w ++ evs
        /\ (CallInitRng ∉ lib_calls evs)
        /\ (forall s g, CallGetRNG s g ∈ lib_calls evs -> s = 100 /\ g = 108)
        /\ (forall g r, CallEccSignHash g r ∈ lib_calls evs -> g = 108))
  /\ (exists cb' w' evs,
        run = Ok (0, ["d"; "g"; "l"]%byte, 3, cb') w'
        /\ trace w' = trace w ++ evs
        /\ lib_calls evs
           = [CallKeyPemToDer 3; CallEccInit 0; CallEccPrivateKeyDecode 0;
              CallGetRNG 100 108; CallEccSignHash 108 0; CallEccFree]).
Proof.
  intros w cb run.
  destruct (myEccSign_uses_session_rng true 100 digest 2 [] 72 NULL 0 cb w
              wolfssl_codes_ok) as [Hown Hsign].
  split; [exact wolfssl_codes_ok |]. split; [reflexivity |]. split; [exact Hown |].
  refine (Hsign KEY_FILE (bytes_file pem true) _ _ _ _ _ _ _ _ _ _).
  all: try reflexivity.
  all: vm_compute; discriminate.
Defined.

(** X19, at the first two calls for the context of [main]. *)
Lemma myEccSign_retry_does_the_work_witness :
  let cb1 := ctx_at KEY_FILE 1 in
  let w1 := set_trace [EvPrintf "PK ECC Sign: inSz %u, keySz %u";
                       EvPrintf "PK ECC Sign: Async Simulate"] world0 in
  let w3 := final (load_key_file (Some KEY_FILE) NULL 0 (entered w1)) in
  let run2 := myEccSign true 100 digest 2 [] 72 NULL 0 cb1 w1 in
  let idle k := {| keyFile := keyFile myCtx0; key := k; state := 0 |} in
  error_codes_ok wolfssl_codes /\ lib_never_pending toy_lib
  /\ myEccSign true 100 digest 2 [] 72 NULL 0 myCtx0 world0
     = Ok (WC_PENDING_E, [], 72, cb1) w1
  /\ load_key_file (keyFile myCtx0) NULL 0 (entered w1) = Ok (0, 4100, 3) w3
  /\ cb1 = {| keyFile := keyFile myCtx0; key := key myCtx0; state := 1 |}
  /\ (forall r2 o2 sz2 cb2 w', run2 = Ok (r2, o2, sz2, cb2) w' ->
        r2 <> WC_PENDING_E /\ state cb2 = 0)
  /\ (0 <> 0 -> 4100 = NULL \/ is_Some (heap w3 !! 4100) ->
      exists w', run2 = Ok (0, [], 72, idle (key myCtx0)) w')
  /\ (0 <> 0 -> 4100 <> NULL -> heap w3 !! 4100 = None ->
      exists w', run2 = Crash (InvalidFree 4100) w')
  /\ (0 = 0 ->
      exists blk w',
        heap w3 !! 4100 = Some blk
        /\ let ini := wc_ecc_init (key myCtx0) in
           let dec := wc_EccPrivateKeyDecode (b_data blk) 0 (snd ini) 3 in
           let sg := wc_ecc_sign_hash digest 2 [] 72 (wolfSSL_GetRNG 100) (snd dec) in
           run2 = Ok (if fst ini =? 0 then
                        if fst dec =? 0 then
                          (fst (fst sg), snd (fst sg), snd sg, idle (wc_ecc_free (snd dec)))
                        else (fst dec, [], 72, idle (wc_ecc_free (snd dec)))
                      else (fst ini, [], 72, idle (snd ini))) w').
Proof.
  intros cb1 w1 w3 run2 idle.
  assert (myEccSign true 100 digest 2 [] 72 NULL 0 myCtx0 world0
          = Ok (WC_PENDING_E, [], 72, cb1) w1) as H1 by reflexivity.
  assert (load_key_file (keyFile myCtx0) NULL 0 (entered w1) = Ok (0, 4100, 3) w3)
    as H2 by (vm_compute; reflexivity).
  split; [exact wolfssl_codes_ok |]. split; [exact toy_lib_never_pending |].
  split; [exact H1 |]. split; [exact H2 |].
  exact (myEccSign_retry_does_the_work true 100 digest 2 [] 72 NULL 0 myCtx0 world0
           [] 72 cb1 w1 100 digest 2 [] 72 NULL 0 w1 0 4100 3 w3
           wolfssl_codes_ok toy_lib_never_pending H1 H2).
Defined.

End CallbackClaimsConcrete.
